(** * HOS rule engine: a shallow embedding of [trips/hos_engine.py]

    The engine simulates a trucking trip under the FMCSA property-carrying
    driver rules and produces a timeline of duty-status blocks, a list of
    stops and per-day log sheets.  Minutes are Python integers, modelled
    as [Z]; miles, hours and coordinates are Python floats, modelled as
    IEEE 754 binary64 values through the Standard Library's [spec_float]
    (precision 53, maximal exponent 1024), so that every float operation
    of the source is computed bit for bit.  Python exceptions are an
    explicit outcome. *)

From Stdlib Require Import Reals Lra.
From Stdlib Require Import ZArith List String Bool Lia.
From Stdlib Require Import SpecFloat DecimalString.
Import ListNotations.

Local Open Scope Z_scope.

(** ** Outcomes of Python computations *)

Inductive PyExn : Type :=
| ValueError
| OverflowError
| ZeroDivisionError.

(** [Diverge] is the outcome of a loop whose iteration bound was
    exhausted; the termination theorems show it is never produced. *)
Inductive outcome (A : Type) : Type :=
| Ok (a : A)
| Raise (e : PyExn)
| Diverge.

Arguments Ok {A} a.
Arguments Raise {A} e.
Arguments Diverge {A}.

Definition bind {A B : Type} (c : outcome A) (k : A -> outcome B) : outcome B :=
  match c with
  | Ok a => k a
  | Raise e => Raise e
  | Diverge => Diverge
  end.

Notation "x <- c ;; k" := (bind c (fun x => k))
  (at level 61, c at next level, right associativity).

(** ** Python floats *)

Module PyFloat.

Definition float : Type := spec_float.

Definition prec : Z := 53.
Definition emax : Z := 1024.

Definition add : float -> float -> float := SFadd prec emax.
Definition sub : float -> float -> float := SFsub prec emax.
Definition mul : float -> float -> float := SFmul prec emax.
Definition div : float -> float -> float := SFdiv prec emax.

(** [x < y], [x <= y]: false as soon as one side is a NaN. *)
Definition ltb : float -> float -> bool := SFltb.
Definition leb : float -> float -> bool := SFleb.

Definition zero : float := S754_zero false.

(** [float(n)] for a Python integer: round to nearest, ties to even;
    [OverflowError] when the integer is too large. *)
Definition of_int (n : Z) : outcome float :=
  match binary_normalize prec emax n 0 false with
  | S754_infinity _ => Raise OverflowError
  | x => Ok x
  end.

(** A small integer constant as a float (exact below [2^53]). *)
Definition lit (n : Z) : float := binary_normalize prec emax n 0 false.

(** [int(x)]: truncation toward zero; [ValueError] on NaN,
    [OverflowError] on an infinity. *)
Definition to_int (x : float) : outcome Z :=
  match x with
  | S754_zero _ => Ok 0
  | S754_nan => Raise ValueError
  | S754_infinity _ => Raise OverflowError
  | S754_finite s m e =>
      let a := if 0 <=? e then Z.shiftl (Zpos m) e
               else Z.shiftr (Zpos m) (- e) in
      Ok (if s then - a else a)
  end.

(** [math.ceil(x)] *)
Definition ceil_int (x : float) : outcome Z :=
  match x with
  | S754_zero _ => Ok 0
  | S754_nan => Raise ValueError
  | S754_infinity _ => Raise OverflowError
  | S754_finite s m e =>
      if 0 <=? e
      then Ok (if s then - Z.shiftl (Zpos m) e else Z.shiftl (Zpos m) e)
      else
        let q := Z.shiftr (Zpos m) (- e) in
        Ok (if s then - q
            else if Zpos m =? Z.shiftl q (- e) then q else q + 1)
  end.

(** [round(x)] with no digits argument: nearest integer, ties to even. *)
Definition round_int (x : float) : outcome Z :=
  match x with
  | S754_zero _ => Ok 0
  | S754_nan => Raise ValueError
  | S754_infinity _ => Raise OverflowError
  | S754_finite s m e =>
      let a :=
        if 0 <=? e then Z.shiftl (Zpos m) e
        else
          let q := Z.shiftr (Zpos m) (- e) in
          let r := Zpos m - Z.shiftl q (- e) in
          let half := Z.shiftl 1 (- e - 1) in
          match r ?= half with
          | Lt => q
          | Gt => q + 1
          | Eq => if Z.even q then q else q + 1
          end in
      Ok (if s then - a else a)
  end.

(** [a / b] for two Python integers: the correctly rounded quotient. *)
Definition int_truediv (a b : Z) : outcome float :=
  match a, b with
  | _, Z0 => Raise ZeroDivisionError
  | Z0, Zpos _ => Ok (S754_zero false)
  | Z0, Zneg _ => Ok (S754_zero true)
  | _, _ =>
      let s := xorb (a <? 0) (b <? 0) in
      let '(mz, ez, lz) :=
        SFdiv_core_binary prec emax (Z.abs a) 0 (Z.abs b) 0 in
      match binary_round_aux prec emax s mz ez lz with
      | S754_infinity _ => Raise OverflowError
      | x => Ok x
      end
  end.

(** [x / y] on floats: Python raises on a zero divisor. *)
Definition truediv (x y : float) : outcome float :=
  match y with
  | S754_zero _ => Raise ZeroDivisionError
  | _ => Ok (div x y)
  end.

(** The decimal literal [n / d] of the source text (correctly rounded). *)
Definition decimal (n d : Z) : float := div (lit n) (lit d).

(** [max(x, 1)] with a float [x]: Python keeps the first argument
    unless the second is strictly greater. *)
Definition max_one (x : float) : float :=
  if ltb x (lit 1) then lit 1 else x.

(** [round(x, 1)]: the float nearest to [x] rounded half-even to one
    decimal digit; non-finite values and integers are returned as is. *)
Definition round1 (x : float) : float :=
  match x with
  | S754_finite s m e =>
      if 0 <=? e then x
      else
        let n := Zpos m * 10 in
        let d := Z.shiftl 1 (- e) in
        let q := n / d in
        let k := match 2 * (n mod d) ?= d with
                 | Lt => q
                 | Gt => q + 1
                 | Eq => if Z.even q then q else q + 1
                 end in
        match k with
        | Z0 => S754_zero s
        | _ =>
            let '(mz, ez, lz) := SFdiv_core_binary prec emax k 0 10 0 in
            binary_round_aux prec emax s mz ez lz
        end
  | _ => x
  end.

End PyFloat.

(** ** Calendar dates

    A [datetime.date] is its proleptic Gregorian ordinal
    ([date.toordinal()]), between [date.min] and [date.max]. *)

Definition date : Type := Z.

Definition DATE_MIN_ORDINAL : Z := 1.
Definition DATE_MAX_ORDINAL : Z := 3652059.

(** [d + timedelta(days=n)]: [OverflowError] outside the supported range. *)
Definition date_add_days (d : date) (n : Z) : outcome date :=
  if (DATE_MIN_ORDINAL <=? d + n) && (d + n <=? DATE_MAX_ORDINAL)
  then Ok (d + n)
  else Raise OverflowError.

(** ** The engine *)

Module Hos.

Import PyFloat.

(** *** Constants *)

Definition DRIVE_LIMIT : Z := 11 * 60.
Definition WINDOW_LIMIT : Z := 14 * 60.
Definition BREAK_TRIGGER : Z := 8 * 60.
Definition BREAK_DURATION : Z := 30.
Definition OFF_DUTY_RESET : Z := 10 * 60.
Definition CYCLE_LIMIT : Z := 70 * 60.
Definition FUEL_INTERVAL_MILES : Z := 1000.
Definition FUEL_DURATION : Z := 30.
Definition PICKUP_DURATION : Z := 60.
Definition DROPOFF_DURATION : Z := 60.
Definition AVG_SPEED_MPH : Z := 55.
Definition MINUTES_IN_DAY : Z := 1440.

Inductive Status : Type :=
| OFF_DUTY
| SLEEPER
| DRIVING
| ON_DUTY_NOT_DRIVING.

Inductive StopKind : Type :=
| FUEL
| BREAK_30
| OFF_DUTY_10
| PICKUP
| DROPOFF.

Definition Status_eqb (a b : Status) : bool :=
  match a, b with
  | OFF_DUTY, OFF_DUTY
  | SLEEPER, SLEEPER
  | DRIVING, DRIVING
  | ON_DUTY_NOT_DRIVING, ON_DUTY_NOT_DRIVING => true
  | _, _ => false
  end.

Definition StopKind_eqb (a b : StopKind) : bool :=
  match a, b with
  | FUEL, FUEL
  | BREAK_30, BREAK_30
  | OFF_DUTY_10, OFF_DUTY_10
  | PICKUP, PICKUP
  | DROPOFF, DROPOFF => true
  | _, _ => false
  end.

(** *** Data classes *)

(** One contiguous block on the global timeline. *)
Record TimelineEvent : Type := mkTimelineEvent {
  te_start : Z;
  te_end : Z;
  te_status : Status;
  te_label : string;
  te_miles : float
}.

Record StopEvent : Type := mkStopEvent {
  se_kind : StopKind;
  se_global_minute : Z;
  se_duration : Z;
  se_label : string;
  se_lat : float;
  se_lng : float
}.

(** A segment dictionary of a day sheet. *)
Record Segment : Type := mkSegment {
  start_minute : Z;
  end_minute : Z;
  seg_status : Status;
  location_label : string
}.

Record DaySheet : Type := mkDaySheet {
  ds_date : date;
  ds_segments : list Segment;
  ds_total_miles : float
}.

(** The state the engine mutates while it simulates the trip. *)
Record DriverState : Type := mkDriverState {
  global_minute : Z;
  drive_minutes : Z;
  on_duty_minutes : Z;
  cumulative_drive : Z;
  cycle_minutes : Z;
  miles_since_fuel : float;
  timeline : list TimelineEvent;
  stops : list StopEvent
}.

(** The dictionary [compute_plan] returns. *)
Record Plan : Type := mkPlan {
  plan_timeline : list TimelineEvent;
  plan_stops : list StopEvent;
  daily_sheets : list DaySheet;
  trip_completed : bool;
  remaining_drive_minutes : Z;
  planned_fuel_stops : Z
}.

(** *** Stop inserters *)

(** Insert a mandatory 30-minute break (Off Duty). *)
Definition _insert_break (state : DriverState) (label : string) : DriverState :=
  {| global_minute := global_minute state + BREAK_DURATION;
     drive_minutes := drive_minutes state;
     on_duty_minutes := on_duty_minutes state + BREAK_DURATION;
     cumulative_drive := 0;
     cycle_minutes := cycle_minutes state;
     miles_since_fuel := miles_since_fuel state;
     timeline := timeline state ++
       [mkTimelineEvent (global_minute state)
          (global_minute state + BREAK_DURATION) OFF_DUTY
          "30-min break"%string zero];
     stops := stops state ++
       [mkStopEvent BREAK_30 (global_minute state) BREAK_DURATION
          ("30-min break — " ++ label)%string zero zero] |}.

(** Insert the 10-hour off-duty reset and start a new duty period. *)
Definition _insert_reset (state : DriverState) : DriverState :=
  {| global_minute := global_minute state + OFF_DUTY_RESET;
     drive_minutes := 0;
     on_duty_minutes := 0;
     cumulative_drive := 0;
     cycle_minutes := cycle_minutes state;
     miles_since_fuel := miles_since_fuel state;
     timeline := timeline state ++
       [mkTimelineEvent (global_minute state)
          (global_minute state + OFF_DUTY_RESET) SLEEPER
          "10-hour sleeper berth reset"%string zero];
     stops := stops state ++
       [mkStopEvent OFF_DUTY_10 (global_minute state) OFF_DUTY_RESET
          "10-hour off-duty reset"%string zero zero] |}.

(** Insert a fuel stop (On Duty Not Driving). *)
Definition _insert_fuel_stop (state : DriverState) (label : string) : DriverState :=
  {| global_minute := global_minute state + FUEL_DURATION;
     drive_minutes := drive_minutes state;
     on_duty_minutes := on_duty_minutes state + FUEL_DURATION;
     cumulative_drive := cumulative_drive state;
     cycle_minutes := cycle_minutes state + FUEL_DURATION;
     miles_since_fuel := zero;
     timeline := timeline state ++
       [mkTimelineEvent (global_minute state)
          (global_minute state + FUEL_DURATION) ON_DUTY_NOT_DRIVING
          "Fuel stop"%string zero];
     stops := stops state ++
       [mkStopEvent FUEL (global_minute state) FUEL_DURATION
          ("Fuel stop — " ++ label)%string zero zero] |}.

(** Insert a pickup or dropoff stop, after a reset when the window
    cannot hold it. *)
Definition _insert_on_duty_stop (state : DriverState) (duration : Z)
    (kind : StopKind) (label : string) (lat lng : float) : DriverState :=
  let window_remaining := WINDOW_LIMIT - on_duty_minutes state in
  let state := if window_remaining <? duration
               then _insert_reset state else state in
  {| global_minute := global_minute state + duration;
     drive_minutes := drive_minutes state;
     on_duty_minutes := on_duty_minutes state + duration;
     cumulative_drive := cumulative_drive state;
     cycle_minutes := cycle_minutes state + duration;
     miles_since_fuel := miles_since_fuel state;
     timeline := timeline state ++
       [mkTimelineEvent (global_minute state)
          (global_minute state + duration) ON_DUTY_NOT_DRIVING
          label zero];
     stops := stops state ++
       [mkStopEvent kind (global_minute state) duration label lat lng] |}.

(** *** The leg driver *)

(** What one pass through the body of the [while] loop does: leave the
    loop ([break]), or go on with an updated state and remainder. *)
Inductive LoopStep : Type :=
| LoopBreak
| LoopNext (state : DriverState) (remaining_miles : float)
    (remaining_minutes : Z).

(** The drivable chunk in minutes (lines 234-252 of the source). *)
Definition drivable_chunk (state : DriverState) (remaining_miles : float)
    (remaining_minutes : Z) : outcome Z :=
  let cycle_remaining := Z.max 0 (CYCLE_LIMIT - cycle_minutes state) in
  let window_remaining := Z.max 0 (WINDOW_LIMIT - on_duty_minutes state) in
  let drive_remaining := Z.max 0 (DRIVE_LIMIT - drive_minutes state) in
  let max_drive :=
    Z.min (Z.min (Z.min (Z.min remaining_minutes drive_remaining)
                    window_remaining) cycle_remaining)
      (BREAK_TRIGGER - cumulative_drive state) in
  speed <- (if 0 <? remaining_minutes
            then (m <- of_int remaining_minutes ;;
                  q <- truediv remaining_miles m ;;
                  Ok (mul q (lit 60)))
            else Ok (lit AVG_SPEED_MPH)) ;;
  let miles_until_fuel :=
    sub (lit FUEL_INTERVAL_MILES) (miles_since_fuel state) in
  minutes_until_fuel <-
    (if ltb zero speed
     then (q <- truediv miles_until_fuel (max_one speed) ;;
           to_int (mul q (lit 60)))
     else Ok max_drive) ;;
  let max_drive := Z.min max_drive (Z.max 1 minutes_until_fuel) in
  Ok (if max_drive <=? 0 then 1 else max_drive).

(** Append one [DRIVING] block of [max_drive] minutes and advance the
    counters (lines 255-273). *)
Definition drive_chunk (state : DriverState) (label : string)
    (remaining_miles : float) (remaining_minutes max_drive : Z)
  : outcome LoopStep :=
  ratio <- int_truediv max_drive (Z.max remaining_minutes 1) ;;
  let chunk_miles := mul ratio remaining_miles in
  Ok (LoopNext
        {| global_minute := global_minute state + max_drive;
           drive_minutes := drive_minutes state + max_drive;
           on_duty_minutes := on_duty_minutes state + max_drive;
           cumulative_drive := cumulative_drive state + max_drive;
           cycle_minutes := cycle_minutes state + max_drive;
           miles_since_fuel := add (miles_since_fuel state) chunk_miles;
           timeline := timeline state ++
             [mkTimelineEvent (global_minute state)
                (global_minute state + max_drive) DRIVING label chunk_miles];
           stops := stops state |}
        (sub remaining_miles chunk_miles)
        (remaining_minutes - max_drive)).

(** The body of the [while remaining_minutes > 0] loop. *)
Definition drive_leg_body (state : DriverState) (label : string)
    (remaining_miles : float) (remaining_minutes : Z) : outcome LoopStep :=
  let cycle_remaining := Z.max 0 (CYCLE_LIMIT - cycle_minutes state) in
  if cycle_remaining <=? 0 then Ok LoopBreak
  else
    let window_remaining := Z.max 0 (WINDOW_LIMIT - on_duty_minutes state) in
    let drive_remaining := Z.max 0 (DRIVE_LIMIT - drive_minutes state) in
    if (window_remaining <=? 0) || (drive_remaining <=? 0)
    then Ok (LoopNext (_insert_reset state) remaining_miles remaining_minutes)
    else if BREAK_TRIGGER <=? cumulative_drive state
    then Ok (LoopNext (_insert_break state label)
               remaining_miles remaining_minutes)
    else if leb (lit FUEL_INTERVAL_MILES) (miles_since_fuel state)
    then Ok (LoopNext (_insert_fuel_stop state label)
               remaining_miles remaining_minutes)
    else
      max_drive <- drivable_chunk state remaining_miles remaining_minutes ;;
      drive_chunk state label remaining_miles remaining_minutes max_drive.

(** The [while] loop, with an explicit bound on the number of passes. *)
Fixpoint drive_leg_loop (passes : nat) (state : DriverState) (label : string)
    (remaining_miles : float) (remaining_minutes : Z) : outcome DriverState :=
  if 0 <? remaining_minutes then
    match passes with
    | O => Diverge
    | S passes' =>
        step <- drive_leg_body state label remaining_miles remaining_minutes ;;
        match step with
        | LoopBreak => Ok state
        | LoopNext state' miles' minutes' =>
            drive_leg_loop passes' state' label miles' minutes'
        end
    end
  else Ok state.

(** A number of passes no leg of [minutes] minutes exceeds: every pass
    either drives at least one minute or inserts a stop, and at most
    three stops separate two driving passes. *)
Definition leg_passes (minutes : Z) : nat := Z.to_nat (7 * minutes + 6).

(** Simulate driving a leg, inserting breaks and resets as needed. *)
Definition _drive_leg (state : DriverState) (miles : float) (minutes : Z)
    (label : string) : outcome DriverState :=
  drive_leg_loop (leg_passes minutes) state label miles minutes.

(** *** Day sheets *)

(** Merge consecutive segments with the same status; [merged_init ++
    [merged_last]] is the list [merged] of the source. *)
Fixpoint merge_loop (merged_init : list Segment) (merged_last : Segment)
    (segments : list Segment) : list Segment :=
  match segments with
  | [] => merged_init ++ [merged_last]
  | seg :: rest =>
      if Status_eqb (seg_status seg) (seg_status merged_last)
         && (start_minute seg =? end_minute merged_last)
      then
        merge_loop merged_init
          {| start_minute := start_minute merged_last;
             end_minute := end_minute seg;
             seg_status := seg_status merged_last;
             location_label :=
               if (String.length (location_label seg) =? 0)%nat
               then location_label merged_last
               else location_label seg |}
          rest
      else merge_loop (merged_init ++ [merged_last]) seg rest
  end.

Definition _merge_segments (segments : list Segment) : list Segment :=
  match segments with
  | [] => []
  | seg :: rest => merge_loop [] seg rest
  end.

(** The inner [for evt in timeline] loop of one day: the clipped
    segments and the miles of the day. *)
Fixpoint day_events (events : list TimelineEvent) (day_start day_end : Z)
    (segments : list Segment) (day_miles : float)
  : outcome (list Segment * float) :=
  match events with
  | [] => Ok (segments, day_miles)
  | evt :: rest =>
      if (te_end evt <=? day_start) || (day_end <=? te_start evt)
      then day_events rest day_start day_end segments day_miles
      else
        let seg_start := Z.max (te_start evt) day_start - day_start in
        let seg_end := Z.min (te_end evt) day_end - day_start in
        if seg_end <=? seg_start
        then day_events rest day_start day_end segments day_miles
        else
          let evt_duration := te_end evt - te_start evt in
          day_miles' <-
            (if (0 <? evt_duration) && ltb zero (te_miles evt)
             then (fraction <- int_truediv (seg_end - seg_start) evt_duration ;;
                   Ok (add day_miles (mul (te_miles evt) fraction)))
             else Ok day_miles) ;;
          day_events rest day_start day_end
            (segments ++
               [mkSegment seg_start seg_end (te_status evt) (te_label evt)])
            day_miles'
  end.

(** One pass of the [for day_idx in range(num_days)] loop. *)
Definition day_sheet (timeline : list TimelineEvent) (start_date : date)
    (day_idx : Z) : outcome DaySheet :=
  let day_start := day_idx * MINUTES_IN_DAY in
  let day_end := day_start + MINUTES_IN_DAY in
  current_date <- date_add_days start_date day_idx ;;
  r <- day_events timeline day_start day_end [] zero ;;
  let '(segments, day_miles) := r in
  Ok (mkDaySheet current_date (_merge_segments segments) (round1 day_miles)).

Fixpoint for_each {A B : Type} (f : A -> outcome B) (l : list A)
  : outcome (list B) :=
  match l with
  | [] => Ok []
  | a :: rest => b <- f a ;; bs <- for_each f rest ;; Ok (b :: bs)
  end.

(** [math.ceil(a / b)] on two integers, as Python computes it: through
    the float quotient. *)
Definition float_ceil_div (a b : Z) : outcome Z :=
  q <- int_truediv a b ;; ceil_int q.

(** The integer ceiling of [a / b], [0 < b].  [_build_daily_sheets]
    is modelled with it: for a whole number of days below [2^53], which
    is what [compute_plan] passes, it is the value [float_ceil_div]
    returns (lemma [float_ceil_div_days]). *)
Definition ceil_div (a b : Z) : Z := - ((- a) / b).

(** [range(n)] *)
Definition range (n : Z) : list Z := map Z.of_nat (seq 0 (Z.to_nat n)).

(** Slice the global timeline into per-day sheets. *)
Definition _build_daily_sheets (timeline : list TimelineEvent)
    (start_date : date) : outcome (list DaySheet) :=
  match timeline with
  | [] => Ok []
  | first :: _ =>
      let total_minutes := te_end (last timeline first) in
      let num_days := ceil_div total_minutes MINUTES_IN_DAY in
      for_each (day_sheet timeline start_date) (range num_days)
  end.

(** *** The orchestrator *)

(** Sum of the minutes of the [DRIVING] events of a timeline. *)
Definition driven_minutes (timeline : list TimelineEvent) : Z :=
  fold_right Z.add 0
    (map (fun e => te_end e - te_start e)
       (filter (fun e => Status_eqb (te_status e) DRIVING) timeline)).

(** Minutes of the two legs: the overrides of the routing API when both
    values of a pair are given, the 30/70 split otherwise. *)
Definition plan_legs (total_miles : float) (total_drive_minutes : Z)
    (leg1_miles : option float) (leg1_minutes : option Z)
    (leg2_miles : option float) (leg2_minutes : option Z)
  : outcome ((float * Z) * (float * Z)) :=
  leg1 <- match leg1_miles, leg1_minutes with
          | Some lm, Some ln => Ok (lm, ln)
          | _, _ =>
              let leg1_fraction := decimal 30 100 in
              t <- of_int total_drive_minutes ;;
              n <- to_int (mul t leg1_fraction) ;;
              Ok (mul total_miles leg1_fraction, n)
          end ;;
  let leg2 := match leg2_miles, leg2_minutes with
              | Some lm, Some ln => (lm, ln)
              | _, _ => (sub total_miles (fst leg1),
                         total_drive_minutes - snd leg1)
              end in
  Ok (leg1, leg2).

(** The driver state [compute_plan] starts from (line 131). *)
Definition initial_state (cycle_used_hours : float) : outcome DriverState :=
  cycle <- to_int (mul cycle_used_hours (lit 60)) ;;
  Ok {| global_minute := 0;
        drive_minutes := 0;
        on_duty_minutes := 0;
        cumulative_drive := 0;
        cycle_minutes := cycle;
        miles_since_fuel := zero;
        timeline := [];
        stops := [] |}.

(** Fill the remainder of the last day with Off Duty (lines 163-175). *)
Definition fill_last_day (state : DriverState) : DriverState :=
  let day_minute := global_minute state mod MINUTES_IN_DAY in
  if 0 <? day_minute then
    let remaining := MINUTES_IN_DAY - day_minute in
    {| global_minute := global_minute state + remaining;
       drive_minutes := drive_minutes state;
       on_duty_minutes := on_duty_minutes state;
       cumulative_drive := cumulative_drive state;
       cycle_minutes := cycle_minutes state;
       miles_since_fuel := miles_since_fuel state;
       timeline := timeline state ++
         [mkTimelineEvent (global_minute state)
            (global_minute state + remaining) OFF_DUTY
            "Off Duty"%string zero];
       stops := stops state |}
  else state.

(** [compute_plan]; [today] is what [date.today()] returns at the call. *)
Definition compute_plan (today : date)
    (total_miles : float) (total_drive_minutes : Z) (cycle_used_hours : float)
    (pickup_label dropoff_label : string)
    (pickup_coords dropoff_coords : float * float)
    (start_date : option date)
    (leg1_miles : option float) (leg1_minutes : option Z)
    (leg2_miles : option float) (leg2_minutes : option Z) : outcome Plan :=
  let start_date := match start_date with
                    | None => today
                    | Some d => d
                    end in
  state <- initial_state cycle_used_hours ;;
  legs <- plan_legs total_miles total_drive_minutes
            leg1_miles leg1_minutes leg2_miles leg2_minutes ;;
  state <- _drive_leg state (fst (fst legs)) (snd (fst legs))
             "En route to pickup"%string ;;
  let state := _insert_on_duty_stop state PICKUP_DURATION PICKUP pickup_label
                 (fst pickup_coords) (snd pickup_coords) in
  state <- _drive_leg state (fst (snd legs)) (snd (snd legs))
             "En route to dropoff"%string ;;
  let state := _insert_on_duty_stop state DROPOFF_DURATION DROPOFF dropoff_label
                 (fst dropoff_coords) (snd dropoff_coords) in
  let state := fill_last_day state in
  let actual_driven_minutes := driven_minutes (timeline state) in
  let remaining_drive := Z.max 0 (total_drive_minutes - actual_driven_minutes) in
  let trip_completed := remaining_drive <=? 0 in
  q <- truediv total_miles (lit FUEL_INTERVAL_MILES) ;;
  n <- to_int q ;;
  let num_fuel_needed := Z.max 0 n in
  let actual_fuel_stops :=
    Z.of_nat (List.length (filter (fun s => StopKind_eqb (se_kind s) FUEL)
                             (stops state))) in
  let planned_fuel_stops := Z.max num_fuel_needed actual_fuel_stops in
  daily_sheets <- _build_daily_sheets (timeline state) start_date ;;
  Ok {| plan_timeline := timeline state;
        plan_stops := stops state;
        daily_sheets := daily_sheets;
        trip_completed := trip_completed;
        remaining_drive_minutes := remaining_drive;
        planned_fuel_stops := planned_fuel_stops |}.

End Hos.

Import PyFloat Hos.

#[global] Arguments DRIVE_LIMIT : simpl never.
#[global] Arguments WINDOW_LIMIT : simpl never.
#[global] Arguments BREAK_TRIGGER : simpl never.
#[global] Arguments BREAK_DURATION : simpl never.
#[global] Arguments OFF_DUTY_RESET : simpl never.
#[global] Arguments CYCLE_LIMIT : simpl never.
#[global] Arguments FUEL_DURATION : simpl never.
#[global] Arguments PICKUP_DURATION : simpl never.
#[global] Arguments DROPOFF_DURATION : simpl never.
#[global] Arguments MINUTES_IN_DAY : simpl never.

(** ** The serializers of [trips/serializers.py]

    [DailySheetSerializer] computes two fields from the segment rows of
    a sheet.  The rows are what the query on [obj.segments] returns. *)

Module Serializers.

(** [status.value]: the string of a duty status. *)
Definition Status_value (s : Status) : string :=
  match s with
  | OFF_DUTY => "OFF_DUTY"
  | SLEEPER => "SLEEPER"
  | DRIVING => "DRIVING"
  | ON_DUTY_NOT_DRIVING => "ON_DUTY_NOT_DRIVING"
  end.

(** The values of [models.DutyStatus], in the order of the class. *)
Definition DutyStatus_values : list string :=
  ["OFF_DUTY"; "SLEEPER"; "DRIVING"; "ON_DUTY_NOT_DRIVING"]%string.

(** A row of [models.Segment]. *)
Record SegmentRow : Type := mkSegmentRow {
  row_start_minute : Z;
  row_end_minute : Z;
  row_status : string;
  row_location_label : string
}.

(** [totals[key] += minutes] on a dictionary kept in insertion order:
    [None] is the [KeyError] of a key the dictionary does not have. *)
Fixpoint dict_add (totals : list (string * Z)) (key : string) (minutes : Z)
  : option (list (string * Z)) :=
  match totals with
  | [] => None
  | (k, v) :: rest =>
      if String.eqb k key then Some ((k, v + minutes) :: rest)
      else match dict_add rest key minutes with
           | Some rest' => Some ((k, v) :: rest')
           | None => None
           end
  end.

(** The [for seg in obj.segments.all()] loop of [get_totals]. *)
Fixpoint totals_loop (totals : list (string * Z)) (segments : list SegmentRow)
  : option (list (string * Z)) :=
  match segments with
  | [] => Some totals
  | seg :: rest =>
      match dict_add totals (row_status seg)
              (row_end_minute seg - row_start_minute seg) with
      | Some totals' => totals_loop totals' rest
      | None => None
      end
  end.

(** Sum minutes per duty status. *)
Definition get_totals (segments : list SegmentRow)
  : option (list (string * Z)) :=
  totals_loop (map (fun s => (s, 0)) DutyStatus_values) segments.

(** A remark dictionary. *)
Record Remark : Type := mkRemark {
  remark_time : string;
  remark_status : string;
  remark_location : string
}.

(** [str(n)] for an integer. *)
Definition str_int (n : Z) : string := NilEmpty.string_of_int (Z.to_int n).

(** The format [{n:02d}]: at least two characters, zero-padded. *)
Definition format_02d (n : Z) : string :=
  let s := str_int n in
  if (String.length s <? 2)%nat then ("0" ++ s)%string else s.

(** The remark of a segment. *)
Definition remark_of (seg : SegmentRow) : Remark :=
  let hours := row_start_minute seg / 60 in
  let mins := row_start_minute seg mod 60 in
  {| remark_time := (format_02d hours ++ ":" ++ format_02d mins)%string;
     remark_status := row_status seg;
     remark_location := row_location_label seg |}.

(** The [for i, seg in enumerate(segments)] loop of [get_remarks];
    [prev] is [segments[i - 1]], [None] when [i == 0]. *)
Fixpoint remarks_loop (prev : option SegmentRow) (segments : list SegmentRow)
  : list Remark :=
  match segments with
  | [] => []
  | seg :: rest =>
      let changed :=
        match prev with
        | None => true
        | Some p => negb (String.eqb (row_status seg) (row_status p))
        end in
      if changed then remark_of seg :: remarks_loop (Some seg) rest
      else remarks_loop (Some seg) rest
  end.

(** Location and status at each change of duty status; [segments] is
    the list the query ordered by [start_minute] returns. *)
Definition get_remarks (segments : list SegmentRow) : list Remark :=
  remarks_loop None segments.

End Serializers.

Import Serializers.

(** * Specification vocabulary *)

(** ** Outcomes *)

Lemma bind_Ok {A B : Type} (c : outcome A) (k : A -> outcome B) (b : B) :
  bind c k = Ok b -> exists a, c = Ok a /\ k a = Ok b.
Proof.
  destruct c as [a | e | ]; simpl; intros H; try discriminate.
  exists a; split; [reflexivity | exact H].
Qed.


Lemma Ok_inj {A : Type} (a b : A) : Ok a = Ok b -> a = b.
Proof. congruence. Qed.

Ltac inv_bind H :=
  match type of H with
  | bind ?c ?k = Ok ?b =>
      let a := fresh "a" in
      let Ha := fresh "Ha" in
      apply bind_Ok in H; destruct H as (a & Ha & H)
  end.

(** ** Chains of intervals

    A list of intervals is a chain from [a] to [b] when the first one
    starts at [a], each one is non-empty and ends where the next one
    starts, and the last one ends at [b]. *)

Section Chain.

Context {A : Type}.
Variables (lo hi : A -> Z).

Fixpoint chain (a : Z) (l : list A) (b : Z) : Prop :=
  match l with
  | [] => a = b
  | x :: rest => lo x = a /\ lo x < hi x /\ chain (hi x) rest b
  end.

Lemma chain_app (l1 l2 : list A) (a b c : Z) :
  chain a l1 b -> chain b l2 c -> chain a (l1 ++ l2) c.
Proof.
  revert a; induction l1 as [| x l1 IH]; simpl; intros a H1 H2.
  - subst; exact H2.
  - destruct H1 as (Hlo & Hlt & H1); repeat split; auto.
Qed.

Lemma chain_app_inv (l1 l2 : list A) (a c : Z) :
  chain a (l1 ++ l2) c -> exists b, chain a l1 b /\ chain b l2 c.
Proof.
  revert a; induction l1 as [| x l1 IH]; simpl; intros a H.
  - exists a; split; [reflexivity | exact H].
  - destruct H as (Hlo & Hlt & H).
    destruct (IH _ H) as (b & H1 & H2).
    exists b; repeat split; auto.
Qed.

Lemma chain_snoc (l : list A) (x : A) (a b : Z) :
  chain a l (lo x) -> lo x < hi x -> hi x = b -> chain a (l ++ [x]) b.
Proof.
  intros H Hlt Hb; eapply chain_app; [exact H |].
  simpl; repeat split; auto.
Qed.

Lemma chain_le (l : list A) (a b : Z) : chain a l b -> a <= b.
Proof.
  revert a; induction l as [| x l IH]; simpl; intros a H.
  - lia.
  - destruct H as (Hlo & Hlt & H); apply IH in H; lia.
Qed.

Lemma chain_In (l : list A) (a b : Z) (x : A) :
  chain a l b -> In x l -> a <= lo x /\ lo x < hi x /\ hi x <= b.
Proof.
  revert a; induction l as [| y l IH]; simpl; intros a H Hin.
  - contradiction.
  - destruct H as (Hlo & Hlt & H). destruct Hin as [-> | Hin].
    + apply chain_le in H; lia.
    + destruct (IH _ H Hin) as (H1 & H2 & H3); lia.
Qed.

Lemma chain_last (l : list A) (a b : Z) (d : A) :
  chain a l b -> l <> [] -> hi (last l d) = b.
Proof.
  revert a; induction l as [| x l IH]; intros a H Hne.
  - contradiction.
  - destruct H as (Hlo & Hlt & H). destruct l as [| y l].
    + simpl in *; congruence.
    + change (last (x :: y :: l) d) with (last (y :: l) d).
      eapply IH; [exact H | discriminate].
Qed.

Lemma chain_adjacent (l : list A) (a b : Z) (i : nat) (x y : A) :
  chain a l b -> nth_error l i = Some x -> nth_error l (S i) = Some y ->
  hi x = lo y.
Proof.
  revert a i; induction l as [| z l IH]; intros a i H Hx Hy.
  - destruct i; discriminate.
  - destruct H as (Hlo & Hlt & H). destruct i as [| i].
    + simpl in Hx; injection Hx as <-.
      destruct l as [| w l]; [discriminate |].
      simpl in Hy; injection Hy as <-.
      destruct H as (Hw & _); congruence.
    + simpl in Hx. eapply (IH _ i); eauto.
Qed.

(** Sum of the lengths of the intervals of a list. *)
Definition total_length (l : list A) : Z :=
  fold_right Z.add 0 (map (fun x => hi x - lo x) l).

Lemma chain_total_length (l : list A) (a b : Z) :
  chain a l b -> total_length l = b - a.
Proof.
  unfold total_length.
  revert a; induction l as [| x l IH]; simpl; intros a H.
  - lia.
  - destruct H as (Hlo & Hlt & H); rewrite (IH _ H); lia.
Qed.

End Chain.

(** ** Spans of a list cut at marked elements *)

Section Spans.

Context {A : Type}.
Variable cut : A -> bool.

(** The elements after the last cut (the whole list when there is none). *)
Definition current_span (l : list A) : list A :=
  fold_left (fun acc x => if cut x then [] else acc ++ [x]) l [].

(** All spans, in order: [acc] is the span being read. *)
Fixpoint spans_from (acc : list A) (l : list A) : list (list A) :=
  match l with
  | [] => [acc]
  | x :: rest =>
      if cut x then acc :: spans_from [] rest
      else spans_from (acc ++ [x]) rest
  end.

Definition spans (l : list A) : list (list A) := spans_from [] l.

Lemma current_span_snoc (l : list A) (x : A) :
  current_span (l ++ [x]) = if cut x then [] else current_span l ++ [x].
Proof. unfold current_span; rewrite fold_left_app; reflexivity. Qed.

Lemma fold_span_acc (l acc : list A) :
  forallb (fun x => negb (cut x)) l = true ->
  fold_left (fun acc x => if cut x then [] else acc ++ [x]) l acc = acc ++ l.
Proof.
  revert acc; induction l as [| x l IH]; simpl; intros acc H.
  - now rewrite app_nil_r.
  - apply andb_prop in H; destruct H as (Hx & Hl).
    destruct (cut x); [discriminate |].
    rewrite (IH _ Hl), <- app_assoc; reflexivity.
Qed.

Lemma current_span_app_uncut (l1 l2 : list A) :
  forallb (fun x => negb (cut x)) l2 = true ->
  current_span (l1 ++ l2) = current_span l1 ++ l2.
Proof.
  intros H; unfold current_span; rewrite fold_left_app.
  now apply fold_span_acc.
Qed.

Lemma spans_from_prefix (l acc p : list A) :
  In p (spans_from acc l) ->
  exists pre post, l = pre ++ post /\
    p = fold_left (fun acc x => if cut x then [] else acc ++ [x]) pre acc.
Proof.
  revert acc; induction l as [| x l IH]; simpl; intros acc H.
  - destruct H as [<- | []]. exists [], []; split; reflexivity.
  - destruct (cut x) eqn:Hx.
    + destruct H as [<- | H].
      * exists [], (x :: l); split; reflexivity.
      * destruct (IH _ H) as (pre & post & -> & ->).
        exists (x :: pre), post; split; [reflexivity |].
        simpl; rewrite Hx; reflexivity.
    + destruct (IH _ H) as (pre & post & -> & ->).
      exists (x :: pre), post; split; [reflexivity |].
      simpl; rewrite Hx; reflexivity.
Qed.

(** Every span is the current span of a prefix. *)
Lemma spans_prefix (l p : list A) :
  In p (spans l) -> exists pre post, l = pre ++ post /\ p = current_span pre.
Proof. apply spans_from_prefix. Qed.

End Spans.

(** A property of every prefix of a list. *)
Definition all_prefixes {A : Type} (P : list A -> Prop) (l : list A) : Prop :=
  forall pre post, l = pre ++ post -> P pre.

Lemma all_prefixes_nil {A : Type} (P : list A -> Prop) :
  P [] -> all_prefixes P [].
Proof.
  intros H pre post E. symmetry in E; apply app_eq_nil in E.
  destruct E as (-> & _); exact H.
Qed.

Lemma snoc_split {A : Type} (l pre post : list A) (x : A) :
  l ++ [x] = pre ++ post ->
  (post = [] /\ pre = l ++ [x]) \/
  (exists post', post = post' ++ [x] /\ l = pre ++ post').
Proof.
  intros E. destruct post as [| y post].
  - left. rewrite app_nil_r in E; auto.
  - right. destruct (@exists_last _ (y :: post)) as (q & z & Hq);
      [discriminate |].
    rewrite Hq, app_assoc in E. apply app_inj_tail in E.
    destruct E as (-> & ->). exists q; auto.
Qed.

Lemma all_prefixes_snoc {A : Type} (P : list A -> Prop) (l : list A) (x : A) :
  all_prefixes P l -> P (l ++ [x]) -> all_prefixes P (l ++ [x]).
Proof.
  intros Hl Hx pre post E. apply snoc_split in E.
  destruct E as [(_ & ->) | (post' & _ & ->)].
  - exact Hx.
  - eapply Hl; reflexivity.
Qed.

Lemma all_prefixes_self {A : Type} (P : list A -> Prop) (l : list A) :
  all_prefixes P l -> P l.
Proof. intros H; apply (H l []); now rewrite app_nil_r. Qed.

(** ** Timelines *)

Definition duration (e : TimelineEvent) : Z := te_end e - te_start e.

Definition is_driving (e : TimelineEvent) : bool :=
  Status_eqb (te_status e) DRIVING.

(** A 600-minute [SLEEPER] event: it ends a duty period. *)
Definition is_reset (e : TimelineEvent) : bool :=
  Status_eqb (te_status e) SLEEPER && (duration e =? OFF_DUTY_RESET).

(** A 30-minute [OFF_DUTY] event. *)
Definition is_break (e : TimelineEvent) : bool :=
  Status_eqb (te_status e) OFF_DUTY && (duration e =? BREAK_DURATION).

Definition is_break_or_reset (e : TimelineEvent) : bool :=
  is_break e || is_reset e.

(** The duty periods of a timeline: its spans between successive
    600-minute [SLEEPER] events, from minute 0 and up to the end. *)
Definition duty_periods (tl : list TimelineEvent) : list (list TimelineEvent) :=
  spans is_reset tl.

(** Driving minutes since the last 600-minute [SLEEPER] event. *)
Definition period_drive (tl : list TimelineEvent) : Z :=
  driven_minutes (current_span is_reset tl).

(** Driving minutes since the last break or reset. *)
Definition running_drive (tl : list TimelineEvent) : Z :=
  driven_minutes (current_span is_break_or_reset tl).

(** The timeline is contiguous from minute [a] to minute [b]. *)
Definition contiguous (a : Z) (tl : list TimelineEvent) (b : Z) : Prop :=
  chain te_start te_end a tl b.

(** The timeline status prescribed for the event covering a stop. *)
Definition covering_status (k : StopKind) : Status :=
  match k with
  | BREAK_30 => OFF_DUTY
  | OFF_DUTY_10 => SLEEPER
  | FUEL | PICKUP | DROPOFF => ON_DUTY_NOT_DRIVING
  end.

(** The event meets the interval of the stop. *)
Definition meets (s : StopEvent) (e : TimelineEvent) : bool :=
  (te_start e <? se_global_minute s + se_duration s)
  && (se_global_minute s <? te_end e).

(** Exactly one event of the timeline meets the stop's interval, and it
    is the interval of the stop, with the prescribed status. *)
Definition stop_covered (tl : list TimelineEvent) (s : StopEvent) : Prop :=
  exists e,
    filter (meets s) tl = [e] /\
    te_start e = se_global_minute s /\
    te_end e = se_global_minute s + se_duration s /\
    te_status e = covering_status (se_kind s).

Lemma driven_minutes_app (l1 l2 : list TimelineEvent) :
  driven_minutes (l1 ++ l2) = driven_minutes l1 + driven_minutes l2.
Proof.
  unfold driven_minutes. rewrite filter_app, map_app.
  induction (map _ (filter _ l1)) as [| z l IH]; simpl; lia.
Qed.

Lemma driven_minutes_one (e : TimelineEvent) :
  driven_minutes [e] = if is_driving e then duration e else 0.
Proof.
  unfold driven_minutes, is_driving, duration; simpl.
  destruct (Status_eqb _ _); simpl; lia.
Qed.


Lemma period_drive_snoc (tl : list TimelineEvent) (e : TimelineEvent) :
  period_drive (tl ++ [e]) =
  if is_reset e then 0
  else period_drive tl + (if is_driving e then duration e else 0).
Proof.
  unfold period_drive. rewrite current_span_snoc.
  destruct (is_reset e); [reflexivity |].
  now rewrite driven_minutes_app, driven_minutes_one.
Qed.

Lemma running_drive_snoc (tl : list TimelineEvent) (e : TimelineEvent) :
  running_drive (tl ++ [e]) =
  if is_break_or_reset e then 0
  else running_drive tl + (if is_driving e then duration e else 0).
Proof.
  unfold running_drive. rewrite current_span_snoc.
  destruct (is_break_or_reset e); [reflexivity |].
  now rewrite driven_minutes_app, driven_minutes_one.
Qed.

(** ** The invariant of the simulation *)

(** What every timeline the engine builds satisfies, [g] being the
    minute it has reached. *)
Record TimelineOK (tl : list TimelineEvent) (g : Z) : Prop := {
  tl_contiguous : contiguous 0 tl g;
  tl_period : all_prefixes (fun p => period_drive p <= DRIVE_LIMIT) tl;
  tl_running : all_prefixes (fun p => running_drive p <= BREAK_TRIGGER) tl
}.

(** The counters of the state agree with the timeline it has built. *)
Record Inv (st : DriverState) : Prop := {
  inv_timeline : TimelineOK (timeline st) (global_minute st);
  inv_drive : period_drive (timeline st) = drive_minutes st;
  inv_running : running_drive (timeline st) = cumulative_drive st;
  inv_stops : Forall (stop_covered (timeline st)) (stops st)
}.

Lemma TimelineOK_snoc (tl : list TimelineEvent) (g : Z) (e : TimelineEvent) :
  TimelineOK tl g -> te_start e = g -> g < te_end e ->
  period_drive (tl ++ [e]) <= DRIVE_LIMIT ->
  running_drive (tl ++ [e]) <= BREAK_TRIGGER ->
  TimelineOK (tl ++ [e]) (te_end e).
Proof.
  intros [Hc Hp Hr] Hs Hlt Hp' Hr'. split.
  - apply chain_snoc; [rewrite Hs; exact Hc | lia | reflexivity].
  - now apply all_prefixes_snoc.
  - now apply all_prefixes_snoc.
Qed.

Lemma filter_none {A : Type} (f : A -> bool) (l : list A) :
  (forall x, In x l -> f x = false) -> filter f l = [].
Proof.
  induction l as [| x l IH]; simpl; intros H; [reflexivity |].
  rewrite (H x (or_introl eq_refl)). apply IH; intros y Hy; apply H; now right.
Qed.

Lemma stop_covered_snoc_old (tl : list TimelineEvent) (g : Z)
    (e : TimelineEvent) (s : StopEvent) :
  contiguous 0 tl g -> te_start e = g ->
  stop_covered tl s -> stop_covered (tl ++ [e]) s.
Proof.
  intros Hc Hs (e0 & Hf & H1 & H2 & H3).
  exists e0; repeat split; auto.
  rewrite filter_app, Hf.
  assert (Hin : In e0 tl).
  { assert (H : In e0 (filter (meets s) tl)) by (rewrite Hf; now left).
    apply filter_In in H; tauto. }
  destruct (chain_In _ _ _ _ _ _ Hc Hin) as (_ & _ & Hle).
  simpl. unfold meets at 1.
  replace (te_start e <? se_global_minute s + se_duration s) with false;
    [reflexivity |].
  symmetry; apply Z.ltb_ge; lia.
Qed.

Lemma stop_covered_snoc_new (tl : list TimelineEvent) (g : Z)
    (e : TimelineEvent) (s : StopEvent) :
  contiguous 0 tl g -> te_start e = g -> g < te_end e ->
  se_global_minute s = g -> te_end e = g + se_duration s ->
  te_status e = covering_status (se_kind s) ->
  stop_covered (tl ++ [e]) s.
Proof.
  intros Hc Hs Hlt Hg He Hst.
  exists e; repeat split; auto; try congruence.
  rewrite filter_app, (filter_none (meets s) tl).
  - simpl. unfold meets.
    replace (te_start e <? se_global_minute s + se_duration s) with true
      by (symmetry; apply Z.ltb_lt; lia).
    replace (se_global_minute s <? te_end e) with true
      by (symmetry; apply Z.ltb_lt; lia).
    reflexivity.
  - intros x Hx. destruct (chain_In _ _ _ _ _ _ Hc Hx) as (_ & _ & Hle).
    unfold meets.
    replace (se_global_minute s <? te_end x) with false
      by (symmetry; apply Z.ltb_ge; lia).
    apply andb_false_r.
Qed.

(** One step of the simulation: an event appended at the current
    minute, with at most one stop, and the counters updated to match. *)
Lemma Inv_step (st st' : DriverState) (e : TimelineEvent)
    (new_stops : list StopEvent) :
  Inv st ->
  timeline st' = timeline st ++ [e] ->
  stops st' = stops st ++ new_stops ->
  te_start e = global_minute st ->
  te_end e = global_minute st' ->
  global_minute st < global_minute st' ->
  drive_minutes st' =
    (if is_reset e then 0
     else drive_minutes st + (if is_driving e then duration e else 0)) ->
  cumulative_drive st' =
    (if is_break_or_reset e then 0
     else cumulative_drive st + (if is_driving e then duration e else 0)) ->
  drive_minutes st' <= DRIVE_LIMIT ->
  cumulative_drive st' <= BREAK_TRIGGER ->
  Forall (fun s =>
            se_global_minute s = global_minute st /\
            global_minute st + se_duration s = global_minute st' /\
            te_status e = covering_status (se_kind s)) new_stops ->
  Inv st'.
Proof.
  intros [Htl Hd Hr Hs] Etl Est Es Ee Hlt Ed Er Hdl Hrl Hnew.
  assert (Hp : period_drive (timeline st') = drive_minutes st').
  { rewrite Etl, period_drive_snoc, Hd; auto. }
  assert (Hq : running_drive (timeline st') = cumulative_drive st').
  { rewrite Etl, running_drive_snoc, Hr; auto. }
  split; auto.
  - rewrite <- Ee, Etl. apply TimelineOK_snoc with (g := global_minute st);
      auto; try lia; rewrite <- Etl; lia.
  - rewrite Etl, Est. apply Forall_app; split.
    + eapply Forall_impl; [| exact Hs].
      intros s Hc. eapply stop_covered_snoc_old; eauto. apply Htl.
    + eapply Forall_impl; [| exact Hnew].
      intros s (H1 & H2 & H3).
      eapply stop_covered_snoc_new with (g := global_minute st);
        eauto; try lia. apply Htl.
Qed.

Lemma Inv_bounds (st : DriverState) :
  Inv st -> drive_minutes st <= DRIVE_LIMIT /\ cumulative_drive st <= BREAK_TRIGGER.
Proof.
  intros [[Hc Hp Hr] Hd Hq _]. split.
  - rewrite <- Hd. exact (all_prefixes_self _ _ Hp).
  - rewrite <- Hq. exact (all_prefixes_self _ _ Hr).
Qed.

Lemma duration_mk (g d : Z) (s : Status) (l : string) (m : float) :
  duration (mkTimelineEvent g (g + d) s l m) = d.
Proof. unfold duration; simpl; lia. Qed.

Lemma is_reset_mk (g d : Z) (s : Status) (l : string) (m : float) :
  is_reset (mkTimelineEvent g (g + d) s l m) =
  Status_eqb s SLEEPER && (d =? OFF_DUTY_RESET).
Proof. unfold is_reset; now rewrite duration_mk. Qed.

Lemma is_break_or_reset_mk (g d : Z) (s : Status) (l : string) (m : float) :
  is_break_or_reset (mkTimelineEvent g (g + d) s l m) =
  Status_eqb s OFF_DUTY && (d =? BREAK_DURATION)
  || Status_eqb s SLEEPER && (d =? OFF_DUTY_RESET).
Proof.
  unfold is_break_or_reset, is_break; now rewrite is_reset_mk, duration_mk.
Qed.

Create Rewrite HintDb events.
#[local] Hint Rewrite duration_mk is_reset_mk is_break_or_reset_mk : events.

Ltac step_inv H :=
  eapply Inv_step; try exact H; try reflexivity;
  autorewrite with events; simpl;
  unfold OFF_DUTY_RESET, BREAK_DURATION, FUEL_DURATION,
    DRIVE_LIMIT, BREAK_TRIGGER in *;
  try lia.

Lemma Inv_insert_reset (st : DriverState) : Inv st -> Inv (_insert_reset st).
Proof.
  intros H. step_inv H.
  repeat constructor; simpl; reflexivity.
Qed.

Lemma Inv_insert_break (st : DriverState) (label : string) :
  Inv st -> Inv (_insert_break st label).
Proof.
  intros H. destruct (Inv_bounds _ H) as (Hd & Hc). step_inv H.
  repeat constructor; simpl; reflexivity.
Qed.

Lemma Inv_insert_fuel_stop (st : DriverState) (label : string) :
  Inv st -> Inv (_insert_fuel_stop st label).
Proof.
  intros H. destruct (Inv_bounds _ H) as (Hd & Hc). step_inv H.
  repeat constructor; simpl; reflexivity.
Qed.

Lemma Inv_insert_on_duty_stop (st : DriverState) (d : Z) (kind : StopKind)
    (label : string) (lat lng : float) :
  0 < d -> covering_status kind = ON_DUTY_NOT_DRIVING ->
  Inv st -> Inv (_insert_on_duty_stop st d kind label lat lng).
Proof.
  intros Hd Hk H. unfold _insert_on_duty_stop.
  set (st0 := if WINDOW_LIMIT - on_duty_minutes st <? d
              then _insert_reset st else st).
  assert (H0 : Inv st0).
  { unfold st0; destruct (_ <? _); [now apply Inv_insert_reset | exact H]. }
  clearbody st0. destruct (Inv_bounds _ H0) as (Hb1 & Hb2).
  step_inv H0.
  repeat constructor; simpl; auto.
Qed.

(** ** One pass of the leg loop, as a relation *)

(** The state after a [DRIVING] block of [d] minutes. *)
Definition drove (st : DriverState) (label : string) (d : Z)
    (chunk_miles : float) (st' : DriverState) : Prop :=
  global_minute st' = global_minute st + d /\
  drive_minutes st' = drive_minutes st + d /\
  on_duty_minutes st' = on_duty_minutes st + d /\
  cumulative_drive st' = cumulative_drive st + d /\
  cycle_minutes st' = cycle_minutes st + d /\
  timeline st' = timeline st ++
    [mkTimelineEvent (global_minute st) (global_minute st + d)
       DRIVING label chunk_miles] /\
  stops st' = stops st.

Inductive BodySpec (st : DriverState) (label : string) (rm : float) (rmin : Z)
  : LoopStep -> Prop :=
| BodyCycle :
    CYCLE_LIMIT - cycle_minutes st <= 0 ->
    BodySpec st label rm rmin LoopBreak
| BodyReset :
    0 < CYCLE_LIMIT - cycle_minutes st ->
    WINDOW_LIMIT - on_duty_minutes st <= 0
    \/ DRIVE_LIMIT - drive_minutes st <= 0 ->
    BodySpec st label rm rmin (LoopNext (_insert_reset st) rm rmin)
| BodyBreak :
    0 < CYCLE_LIMIT - cycle_minutes st ->
    0 < WINDOW_LIMIT - on_duty_minutes st ->
    0 < DRIVE_LIMIT - drive_minutes st ->
    BREAK_TRIGGER <= cumulative_drive st ->
    BodySpec st label rm rmin (LoopNext (_insert_break st label) rm rmin)
| BodyFuel :
    0 < CYCLE_LIMIT - cycle_minutes st ->
    0 < WINDOW_LIMIT - on_duty_minutes st ->
    0 < DRIVE_LIMIT - drive_minutes st ->
    cumulative_drive st < BREAK_TRIGGER ->
    leb (lit FUEL_INTERVAL_MILES) (miles_since_fuel st) = true ->
    BodySpec st label rm rmin (LoopNext (_insert_fuel_stop st label) rm rmin)
| BodyDrive (d : Z) (chunk_miles : float) (st' : DriverState) (rm' : float) :
    1 <= d -> d <= rmin ->
    d <= CYCLE_LIMIT - cycle_minutes st ->
    d <= WINDOW_LIMIT - on_duty_minutes st ->
    d <= DRIVE_LIMIT - drive_minutes st ->
    d <= BREAK_TRIGGER - cumulative_drive st ->
    leb (lit FUEL_INTERVAL_MILES) (miles_since_fuel st) = false ->
    drove st label d chunk_miles st' ->
    BodySpec st label rm rmin (LoopNext st' rm' (rmin - d)).

Lemma drivable_chunk_bounds (st : DriverState) (rm : float) (rmin d : Z) :
  0 < rmin ->
  0 < CYCLE_LIMIT - cycle_minutes st ->
  0 < WINDOW_LIMIT - on_duty_minutes st ->
  0 < DRIVE_LIMIT - drive_minutes st ->
  cumulative_drive st < BREAK_TRIGGER ->
  drivable_chunk st rm rmin = Ok d ->
  1 <= d <= rmin /\
  d <= CYCLE_LIMIT - cycle_minutes st /\
  d <= WINDOW_LIMIT - on_duty_minutes st /\
  d <= DRIVE_LIMIT - drive_minutes st /\
  d <= BREAK_TRIGGER - cumulative_drive st.
Proof.
  intros Hm Hc Hw Hd Hb H. unfold drivable_chunk in H.
  inv_bind H. inv_bind H. apply Ok_inj in H. subst d.
  destruct (_ <=? 0) eqn:E;
    [apply Z.leb_le in E | apply Z.leb_gt in E]; lia.
Qed.

Lemma drive_leg_body_spec (st : DriverState) (label : string) (rm : float)
    (rmin : Z) (step : LoopStep) :
  0 < rmin ->
  drive_leg_body st label rm rmin = Ok step ->
  BodySpec st label rm rmin step.
Proof.
  intros Hm H. unfold drive_leg_body in H.
  destruct (Z.max 0 (CYCLE_LIMIT - cycle_minutes st) <=? 0) eqn:Ec.
  { apply Z.leb_le in Ec. injection H as <-. apply BodyCycle; lia. }
  apply Z.leb_gt in Ec.
  destruct ((Z.max 0 (WINDOW_LIMIT - on_duty_minutes st) <=? 0)
            || (Z.max 0 (DRIVE_LIMIT - drive_minutes st) <=? 0)) eqn:Er.
  { injection H as <-. apply BodyReset; [lia |].
    apply orb_prop in Er. destruct Er as [E | E]; apply Z.leb_le in E; lia. }
  apply orb_false_elim in Er. destruct Er as (Ew & Ed).
  apply Z.leb_gt in Ew, Ed.
  destruct (BREAK_TRIGGER <=? cumulative_drive st) eqn:Eb.
  { apply Z.leb_le in Eb. injection H as <-. apply BodyBreak; lia. }
  apply Z.leb_gt in Eb.
  destruct (leb (lit FUEL_INTERVAL_MILES) (miles_since_fuel st)) eqn:Ef.
  { injection H as <-. apply BodyFuel; auto; lia. }
  inv_bind H.
  apply drivable_chunk_bounds in Ha; try lia.
  unfold drive_chunk in H. inv_bind H. injection H as <-.
  eapply BodyDrive; try lia; auto.
  repeat split; reflexivity.
Qed.

Lemma Inv_drove (st st' : DriverState) (label : string) (d : Z) (cm : float) :
  Inv st -> 1 <= d ->
  d <= DRIVE_LIMIT - drive_minutes st ->
  d <= BREAK_TRIGGER - cumulative_drive st ->
  drove st label d cm st' -> Inv st'.
Proof.
  intros H H1 H2 H3 (Eg & Ed & _ & Ec & _ & Et & Es).
  eapply Inv_step with (new_stops := []); try exact H; try exact Et;
    autorewrite with events; simpl; try rewrite app_nil_r; auto; lia.
Qed.

Lemma Inv_body (st : DriverState) (label : string) (rm : float) (rmin : Z)
    (st' : DriverState) (rm' : float) (rmin' : Z) :
  Inv st ->
  BodySpec st label rm rmin (LoopNext st' rm' rmin') -> Inv st'.
Proof.
  intros H B. inversion B; subst.
  - now apply Inv_insert_reset.
  - now apply Inv_insert_break.
  - now apply Inv_insert_fuel_stop.
  - eapply Inv_drove; eauto.
Qed.

(** The rule of the loop: what every pass preserves holds at the end. *)
Lemma drive_leg_loop_rule (P : DriverState -> Z -> Prop) (label : string) :
  (forall st rm rmin st' rm' rmin',
      0 < rmin -> P st rmin ->
      BodySpec st label rm rmin (LoopNext st' rm' rmin') -> P st' rmin') ->
  forall passes st rm rmin st',
    P st rmin ->
    drive_leg_loop passes st label rm rmin = Ok st' ->
    exists rmin', P st' rmin'.
Proof.
  intros Hstep passes. induction passes as [| n IH];
    intros st rm rmin st' HP H; simpl in H.
  - destruct (0 <? rmin); [discriminate |].
    injection H as <-; eauto.
  - destruct (0 <? rmin) eqn:Em.
    + apply Z.ltb_lt in Em. inv_bind H.
      apply drive_leg_body_spec in Ha; [| exact Em].
      destruct a as [| st1 rm1 rmin1].
      * injection H as <-; eauto.
      * eapply IH; [| exact H]. eapply Hstep; eauto.
    + injection H as <-; eauto.
Qed.

Lemma Inv_drive_leg (st st' : DriverState) (miles : float) (minutes : Z)
    (label : string) :
  Inv st -> _drive_leg st miles minutes label = Ok st' -> Inv st'.
Proof.
  intros H E. unfold _drive_leg in E.
  destruct (drive_leg_loop_rule (fun s _ => Inv s) label) with
    (passes := leg_passes minutes) (st := st) (rm := miles)
    (rmin := minutes) (st' := st') as (_ & H'); auto.
  intros; eapply Inv_body; eauto.
Qed.

(** ** The plan *)

Lemma Inv_initial_state (c : float) (st : DriverState) :
  initial_state c = Ok st -> Inv st.
Proof.
  unfold initial_state; intros H. inv_bind H. apply Ok_inj in H. subst st.
  repeat split; simpl.
  - apply all_prefixes_nil. unfold period_drive, driven_minutes, DRIVE_LIMIT.
    simpl; lia.
  - apply all_prefixes_nil. unfold running_drive, driven_minutes, BREAK_TRIGGER.
    simpl; lia.
  - constructor.
Qed.

Lemma fill_last_day_spec (st : DriverState) :
  Inv st ->
  TimelineOK (timeline (fill_last_day st)) (global_minute (fill_last_day st))
  /\ Forall (stop_covered (timeline (fill_last_day st))) (stops st)
  /\ stops (fill_last_day st) = stops st
  /\ global_minute (fill_last_day st) mod MINUTES_IN_DAY = 0
  /\ driven_minutes (timeline (fill_last_day st)) = driven_minutes (timeline st).
Proof.
  intros H. destruct (Inv_bounds _ H) as (Hb1 & Hb2).
  destruct H as [Htl Hd Hr Hs]. unfold fill_last_day.
  assert (Hmod := Z.mod_pos_bound (global_minute st) MINUTES_IN_DAY eq_refl).
  destruct (0 <? global_minute st mod MINUTES_IN_DAY) eqn:E.
  - apply Z.ltb_lt in E. cbn [timeline stops global_minute].
    set (r := MINUTES_IN_DAY - global_minute st mod MINUTES_IN_DAY) in *.
    assert (Hpos : 0 < r) by (unfold r; lia).
    assert (Hday : (global_minute st + r) mod MINUTES_IN_DAY = 0).
    { unfold r. rewrite Z.add_sub_assoc.
      rewrite (Z.div_mod (global_minute st) MINUTES_IN_DAY) at 1
        by discriminate.
      replace (MINUTES_IN_DAY * (global_minute st / MINUTES_IN_DAY) +
               global_minute st mod MINUTES_IN_DAY + MINUTES_IN_DAY -
               global_minute st mod MINUTES_IN_DAY)
        with ((1 + global_minute st / MINUTES_IN_DAY) * MINUTES_IN_DAY) by lia.
      apply Z.mod_mul; discriminate. }
    clearbody r.
    set (e := mkTimelineEvent _ _ _ _ _).
    assert (Hr0 : is_reset e = false) by reflexivity.
    assert (Hd0 : is_driving e = false) by reflexivity.
    refine (conj _ (conj _ (conj eq_refl (conj Hday _)))).
    + change (global_minute st + r) with (te_end e).
      apply TimelineOK_snoc with (g := global_minute st); auto.
      * unfold e; cbn [te_end]; lia.
      * rewrite period_drive_snoc, Hr0, Hd0; lia.
      * rewrite running_drive_snoc, Hd0.
        destruct (is_break_or_reset e); unfold BREAK_TRIGGER in *; lia.
    + eapply Forall_impl; [| exact Hs].
      intros s Hc. eapply stop_covered_snoc_old; eauto. apply Htl.
    + rewrite driven_minutes_app, driven_minutes_one, Hd0; lia.
  - apply Z.ltb_ge in E.
    refine (conj Htl (conj Hs (conj eq_refl (conj _ eq_refl)))). lia.
Qed.

Section Plan.

Variables (today : date) (total_miles : float) (total_drive_minutes : Z)
  (cycle_used_hours : float) (pickup_label dropoff_label : string)
  (pickup_coords dropoff_coords : float * float) (start_date : option date)
  (leg1_miles : option float) (leg1_minutes : option Z)
  (leg2_miles : option float) (leg2_minutes : option Z).

(** The state after the pickup stop, [st1] being the state after leg 1. *)
Definition at_pickup (st1 : DriverState) : DriverState :=
  _insert_on_duty_stop st1 PICKUP_DURATION PICKUP pickup_label
    (fst pickup_coords) (snd pickup_coords).

(** The state after the dropoff stop, [st2] being the state after leg 2. *)
Definition at_dropoff (st2 : DriverState) : DriverState :=
  _insert_on_duty_stop st2 DROPOFF_DURATION DROPOFF dropoff_label
    (fst dropoff_coords) (snd dropoff_coords).

(** The steps a successful call of [compute_plan] went through. *)
Record PlanRun (legs : (float * Z) * (float * Z)) (st0 st1 st2 : DriverState)
    (p : Plan) : Prop := {
  run_init : initial_state cycle_used_hours = Ok st0;
  run_plan_legs :
    plan_legs total_miles total_drive_minutes
      leg1_miles leg1_minutes leg2_miles leg2_minutes = Ok legs;
  run_leg1 :
    _drive_leg st0 (fst (fst legs)) (snd (fst legs))
      "En route to pickup"%string = Ok st1;
  run_leg2 :
    _drive_leg (at_pickup st1) (fst (snd legs)) (snd (snd legs))
      "En route to dropoff"%string = Ok st2;
  run_timeline :
    plan_timeline p = timeline (fill_last_day (at_dropoff st2));
  run_stops : plan_stops p = stops (fill_last_day (at_dropoff st2));
  run_remaining :
    remaining_drive_minutes p =
    Z.max 0 (total_drive_minutes - driven_minutes (plan_timeline p));
  run_completed :
    trip_completed p = (remaining_drive_minutes p <=? 0);
  run_sheets :
    _build_daily_sheets (plan_timeline p)
      (match start_date with None => today | Some d => d end)
    = Ok (daily_sheets p)
}.

Lemma compute_plan_run (p : Plan) :
  compute_plan today total_miles total_drive_minutes cycle_used_hours
    pickup_label dropoff_label pickup_coords dropoff_coords start_date
    leg1_miles leg1_minutes leg2_miles leg2_minutes = Ok p ->
  exists legs st0 st1 st2, PlanRun legs st0 st1 st2 p.
Proof.
  unfold compute_plan; intros H.
  inv_bind H. inv_bind H. inv_bind H. inv_bind H.
  inv_bind H. inv_bind H. inv_bind H.
  apply Ok_inj in H. subst p.
  exists a0, a, a1, a2. split; auto.
Qed.

(** The result of every successful call. *)
Lemma plan_ok (p : Plan) (legs : (float * Z) * (float * Z))
    (st0 st1 st2 : DriverState) :
  PlanRun legs st0 st1 st2 p ->
  let g := global_minute (fill_last_day (at_dropoff st2)) in
  TimelineOK (plan_timeline p) g /\
  Forall (stop_covered (plan_timeline p)) (plan_stops p) /\
  0 < g /\ g mod MINUTES_IN_DAY = 0.
Proof.
  intros R g. destruct R as [Hi _ H1 H2 Ht Hs _ _ _].
  assert (I2 : Inv (at_dropoff st2)).
  { apply Inv_insert_on_duty_stop; [reflexivity | reflexivity |].
    eapply Inv_drive_leg; [| exact H2].
    apply Inv_insert_on_duty_stop; [reflexivity | reflexivity |].
    eapply Inv_drive_leg; [| exact H1].
    eapply Inv_initial_state; eauto. }
  destruct (fill_last_day_spec _ I2) as (F1 & F2 & F3 & F4 & _).
  unfold g. rewrite Ht, Hs, F3.
  refine (conj F1 (conj F2 (conj _ F4))).
  assert (Hne : timeline (fill_last_day (at_dropoff st2)) <> []).
  { unfold fill_last_day, at_dropoff, _insert_on_duty_stop.
    destruct (0 <? _); simpl; intros E; apply app_eq_nil in E;
      destruct E as (_ & E); discriminate. }
  destruct F1 as [Hc _ _].
  destruct (timeline (fill_last_day (at_dropoff st2))) as [| e l];
    [contradiction |].
  destruct Hc as (Hs0 & Hlt & Hc). apply chain_le in Hc. lia.
Qed.

End Plan.

(** ** Consequences of the invariant *)

Lemma In_fold_span {A : Type} (cut : A -> bool) (l acc : list A) (x : A) :
  In x (fold_left (fun acc x => if cut x then [] else acc ++ [x]) l acc) ->
  In x acc \/ In x l.
Proof.
  revert acc; induction l as [| y l IH]; simpl; intros acc H; auto.
  apply IH in H. destruct H as [H | H]; auto.
  destruct (cut y); [contradiction |].
  apply in_app_or in H. destruct H as [H | [-> | []]]; auto.
Qed.

Lemma In_current_span {A : Type} (cut : A -> bool) (l : list A) (x : A) :
  In x (current_span cut l) -> In x l.
Proof.
  intros H. apply In_fold_span in H. destruct H as [[] | H]; exact H.
Qed.

Lemma driven_minutes_ge0 (l : list TimelineEvent) :
  (forall e, In e l -> te_start e < te_end e) -> 0 <= driven_minutes l.
Proof.
  induction l as [| e l IH]; intros H.
  - unfold driven_minutes; simpl; lia.
  - change (e :: l) with ([e] ++ l).
    rewrite driven_minutes_app, driven_minutes_one.
    assert (He := H e (or_introl eq_refl)).
    assert (Hl : 0 <= driven_minutes l) by (apply IH; intros; apply H; now right).
    unfold duration. destruct (is_driving e); lia.
Qed.

Lemma is_driving_status (e : TimelineEvent) :
  te_status e = DRIVING -> is_driving e = true /\ is_break_or_reset e = false
                           /\ is_reset e = false.
Proof.
  unfold is_driving, is_break_or_reset, is_break, is_reset.
  intros ->; auto.
Qed.

Lemma prefix_mid {A : Type} (pre post : list A) (e : A) :
  pre ++ e :: post = (pre ++ [e]) ++ post.
Proof. now rewrite <- app_assoc. Qed.

(** No duty period of a well-formed timeline exceeds the drive limit. *)
Lemma TimelineOK_periods (tl : list TimelineEvent) (g : Z) :
  TimelineOK tl g ->
  Forall (fun period => driven_minutes period <= DRIVE_LIMIT) (duty_periods tl).
Proof.
  intros [_ Hp _]. apply Forall_forall. intros period Hin.
  apply spans_prefix in Hin. destruct Hin as (pre & post & E & ->).
  exact (Hp pre post E).
Qed.

Lemma TimelineOK_driving_event (tl pre post : list TimelineEvent) (g : Z)
    (e : TimelineEvent) :
  TimelineOK tl g -> tl = pre ++ e :: post -> te_status e = DRIVING ->
  period_drive pre + duration e <= DRIVE_LIMIT /\
  running_drive pre + duration e <= BREAK_TRIGGER /\
  0 < duration e.
Proof.
  intros [Hc Hp Hr] E Hd.
  destruct (is_driving_status _ Hd) as (H1 & H2 & H3).
  rewrite prefix_mid in E.
  assert (P := Hp _ _ E). assert (R := Hr _ _ E). cbv beta in P, R.
  rewrite period_drive_snoc, H3, H1 in P.
  rewrite running_drive_snoc, H2, H1 in R.
  assert (Hin : In e tl) by (rewrite E, <- prefix_mid; apply in_elt).
  destruct (chain_In _ _ _ _ _ _ Hc Hin) as (_ & Hlt & _).
  unfold duration in *; lia.
Qed.

(** A stretch of the timeline without break or reset drives at most
    [BREAK_TRIGGER] minutes. *)
Lemma TimelineOK_stretch (tl pre seg post : list TimelineEvent) (g : Z) :
  TimelineOK tl g -> tl = pre ++ seg ++ post ->
  forallb (fun e => negb (is_break_or_reset e)) seg = true ->
  driven_minutes seg <= BREAK_TRIGGER.
Proof.
  intros [Hc _ Hr] E Hseg.
  rewrite app_assoc in E. assert (R := Hr _ _ E). cbv beta in R.
  unfold running_drive in R.
  rewrite (current_span_app_uncut _ _ _ Hseg), driven_minutes_app in R.
  assert (0 <= driven_minutes (current_span is_break_or_reset pre)).
  { apply driven_minutes_ge0. intros e He. apply In_current_span in He.
    assert (Hin : In e tl) by (rewrite E; apply in_or_app; left;
                               apply in_or_app; now left).
    destruct (chain_In _ _ _ _ _ _ Hc Hin) as (_ & Hlt & _). exact Hlt. }
  lia.
Qed.

Lemma forallb_negb_existsb {A : Type} (f : A -> bool) (l : list A) :
  forallb (fun x => negb (f x)) l = false -> exists x, In x l /\ f x = true.
Proof.
  induction l as [| x l IH]; simpl; [discriminate |].
  destruct (f x) eqn:E; simpl.
  - intros _; exists x; auto.
  - intros H; destruct (IH H) as (y & Hy & Hf); exists y; auto.
Qed.

(** * Bounds on float conversions

    What the theorems below need of the float arithmetic: how a positive
    mantissa is rounded to 53 digits, and what that gives for
    [int(cycle_used_hours * 60)] and [int(total_drive_minutes * 0.30)]. *)


Lemma digits2_pos_bounds (p : positive) :
  2 ^ (Zpos (digits2_pos p) - 1) <= Zpos p < 2 ^ Zpos (digits2_pos p).
Proof.
  induction p as [p IH | p IH |]; cbn [digits2_pos].
  - rewrite Pos2Z.inj_succ.
    replace (Z.succ (Zpos (digits2_pos p)) - 1) with (Zpos (digits2_pos p) - 1 + 1) by lia.
    rewrite Z.pow_succ_r by lia. rewrite Z.pow_add_r by lia.
    change (2 ^ 1) with 2. change (Z.pos p~1) with (2 * Z.pos p + 1).
    remember (2 ^ (Z.pos (digits2_pos p) - 1)) as a.
    remember (2 ^ Z.pos (digits2_pos p)) as b. clear Heqa Heqb. lia.
  - rewrite Pos2Z.inj_succ.
    replace (Z.succ (Zpos (digits2_pos p)) - 1) with (Zpos (digits2_pos p) - 1 + 1) by lia.
    rewrite Z.pow_succ_r by lia. rewrite Z.pow_add_r by lia.
    change (2 ^ 1) with 2. change (Z.pos p~0) with (2 * Z.pos p).
    remember (2 ^ (Z.pos (digits2_pos p) - 1)) as a.
    remember (2 ^ Z.pos (digits2_pos p)) as b. clear Heqa Heqb. lia.
  - simpl. lia.
Qed.

Lemma shr_1_m (r : shr_record) :
  0 <= shr_m r -> shr_m (shr_1 r) = shr_m r / 2.
Proof.
  destruct r as [m rb sb]; simpl. intros H.
  destruct m as [| p | p]; try lia.
  - reflexivity.
  - destruct p as [p | p |]; simpl.
    + change (Z.pos p~1) with (2 * Z.pos p + 1). apply Z.div_unique with (r := 1); lia.
    + change (Z.pos p~0) with (2 * Z.pos p). apply Z.div_unique with (r := 0); lia.
    + reflexivity.
Qed.

Lemma iter_pos_shr_m (p : positive) (r : shr_record) :
  0 <= shr_m r ->
  shr_m (SpecFloat.iter_pos shr_1 p r) = shr_m r / 2 ^ Zpos p.
Proof.
  revert r; induction p as [p IH | p IH |]; intros r H; cbn [SpecFloat.iter_pos].
  - assert (H1 : 0 <= shr_m (shr_1 r)) by (rewrite shr_1_m by auto; apply Z.div_pos; lia).
    assert (H2 : 0 <= shr_m (SpecFloat.iter_pos shr_1 p (shr_1 r))) by (rewrite IH by auto; apply Z.div_pos; lia).
    rewrite IH, IH, shr_1_m by auto.
    rewrite !Z.div_div by lia.
    f_equal. change (Z.pos p~1) with (2 * Z.pos p + 1).
    replace (2 * Zpos p + 1) with (1 + Zpos p + Zpos p) by lia.
    rewrite !Z.pow_add_r by lia. change (2 ^ 1) with 2. lia.
  - assert (H2 : 0 <= shr_m (SpecFloat.iter_pos shr_1 p r)) by (rewrite IH by auto; apply Z.div_pos; lia).
    rewrite IH, IH by auto.
    rewrite !Z.div_div by lia.
    f_equal. change (Z.pos p~0) with (2 * Z.pos p).
    replace (2 * Zpos p) with (Zpos p + Zpos p) by lia.
    rewrite !Z.pow_add_r by lia. lia.
  - rewrite shr_1_m by auto. reflexivity.
Qed.

Lemma round_nearest_even_bounds (m : Z) (l : location) :
  m <= round_nearest_even m l <= m + 1.
Proof.
  destruct l as [| [| |]]; simpl; try lia.
  destruct (Z.even m); lia.
Qed.

Lemma digits2_pos_unique (p : positive) (d : Z) :
  2 ^ (d - 1) <= Zpos p < 2 ^ d -> Zpos (digits2_pos p) = d.
Proof.
  intros (H1 & H2). destruct (digits2_pos_bounds p) as (B1 & B2).
  assert (0 < d).
  { destruct (Z.ltb_spec 0 d); auto.
    assert (2 ^ d <= 2 ^ 0) by (apply Z.pow_le_mono_r; lia).
    simpl in *; lia. }
  assert (d - 1 < Zpos (digits2_pos p)).
  { apply (Z.pow_lt_mono_r_iff 2); lia. }
  assert (Zpos (digits2_pos p) - 1 < d).
  { apply (Z.pow_lt_mono_r_iff 2); lia. }
  lia.
Qed.

Lemma shr_m_shr (r : shr_record) (e n : Z) :
  0 <= shr_m r -> 0 <= n ->
  shr_m (fst (shr r e n)) = shr_m r / 2 ^ n /\ snd (shr r e n) = e + n.
Proof.
  intros Hr Hn. destruct n as [| p | p]; try lia; simpl.
  - rewrite Z.div_1_r. split; [reflexivity | lia].
  - split; [| reflexivity]. apply iter_pos_shr_m; exact Hr.
Qed.

Lemma shr_m_of_loc (m : Z) (l : location) : shr_m (shr_record_of_loc m l) = m.
Proof. destruct l as [| [| |]]; reflexivity. Qed.

(** In the normal range [shr_fexp] shifts by the excess over 53 digits. *)
Lemma shr_fexp_normal (m : positive) (e : Z) (l : location) :
  -1074 <= e -> 53 <= Zpos (digits2_pos m) ->
  let n := Zpos (digits2_pos m) - 53 in
  shr_m (fst (shr_fexp prec emax (Zpos m) e l)) = Zpos m / 2 ^ n
  /\ snd (shr_fexp prec emax (Zpos m) e l) = e + n.
Proof.
  intros He Hd n. unfold shr_fexp, fexp, emin, prec, emax.
  cbn [Zdigits2].
  replace (Z.max (Zpos (digits2_pos m) + e - 53) (3 - 1024 - 53) - e)
    with n by (unfold n; lia).
  rewrite <- (shr_m_of_loc (Zpos m) l) at 2.
  apply shr_m_shr; [rewrite shr_m_of_loc; lia | unfold n; lia].
Qed.

(** Rounding a positive mantissa of at least 53 digits, in the normal
    range: overflow, or a normal float within one unit of the last
    place above the truncated mantissa. *)
Lemma binary_round_aux_normal (M : positive) (E : Z) :
  -1074 <= E -> 53 <= Zpos (digits2_pos M) ->
  let n := Zpos (digits2_pos M) - 53 in
  let q := Zpos M / 2 ^ n in
  binary_round_aux prec emax false (Zpos M) E loc_Exact = S754_infinity false
  \/ exists m' e',
       binary_round_aux prec emax false (Zpos M) E loc_Exact
       = S754_finite false m' e'
       /\ E + n <= e'
       /\ 2 ^ 52 <= Zpos m' < 2 ^ 53
       /\ q * 2 ^ n <= Zpos m' * 2 ^ (e' - E) <= (q + 1) * 2 ^ n.
Proof.
  intros HE HD n q.
  destruct (digits2_pos_bounds M) as (B1 & B2).
  assert (Hq : 2 ^ 52 <= q < 2 ^ 53).
  { unfold q. replace (Zpos (digits2_pos M)) with (n + 53) in B2 by (unfold n; lia).
    replace (Zpos (digits2_pos M) - 1) with (n + 52) in B1 by (unfold n; lia).
    rewrite Z.pow_add_r in B1, B2 by (unfold n; lia).
    assert (0 < 2 ^ n) by (apply Z.pow_pos_nonneg; unfold n; lia).
    split.
    - apply Z.div_le_lower_bound; lia.
    - apply Z.div_lt_upper_bound; lia. }
  unfold binary_round_aux.
  destruct (shr_fexp_normal M E loc_Exact HE HD) as (S1 & S2).
  fold n in S1, S2. fold q in S1.
  destruct (shr_fexp prec emax (Zpos M) E loc_Exact) as (mrs', e1).
  cbn [fst snd] in S1, S2.
  assert (Hm2 := round_nearest_even_bounds (shr_m mrs') (loc_of_shr_record mrs')).
  set (m2 := round_nearest_even (shr_m mrs') (loc_of_shr_record mrs')) in *.
  rewrite S1 in Hm2. clearbody m2.
  destruct m2 as [| p2 | p2]; try lia.
  assert (Hn0 : 0 <= n) by (unfold n; lia).
  assert (Hpn : 0 < 2 ^ n) by (apply Z.pow_pos_nonneg; lia).
  destruct (Z.eq_dec (Zpos p2) (2 ^ 53)) as [Htop | Hlow].
  - (* the mantissa rounded up to 2^53: one more shift *)
    assert (D2 : Zpos (digits2_pos p2) = 54).
    { apply digits2_pos_unique. rewrite Htop. simpl; lia. }
    assert (He1 : -1074 <= e1) by lia.
    destruct (shr_fexp_normal p2 e1 loc_Exact He1) as (T1 & T2); [lia |].
    rewrite D2 in T1, T2.
    destruct (shr_fexp prec emax (Zpos p2) e1 loc_Exact) as (mrs'', e2).
    cbn [fst snd] in T1, T2. rewrite T1, Htop.
    change (2 ^ 53 / 2 ^ (54 - 53)) with (Zpos (2 ^ 52)).
    destruct (e2 <=? emax - prec); [right | left; reflexivity].
    exists (2 ^ 52)%positive, e2. split; [reflexivity |].
    subst e2 e1. split; [lia |]. split; [simpl; lia |].
    replace (E + n + (54 - 53) - E) with (n + 1) by lia.
    rewrite Z.pow_add_r by lia.
    change (Zpos (2 ^ 52)) with (2 ^ 52). change (2 ^ 1) with 2.
    assert (q = 2 ^ 53 - 1) by lia.
    nia.
  - assert (D2 : Zpos (digits2_pos p2) = 53).
    { apply digits2_pos_unique. simpl in *; lia. }
    assert (He1 : -1074 <= e1) by lia.
    destruct (shr_fexp_normal p2 e1 loc_Exact He1) as (T1 & T2); [lia |].
    rewrite D2 in T1, T2.
    destruct (shr_fexp prec emax (Zpos p2) e1 loc_Exact) as (mrs'', e2).
    cbn [fst snd] in T1, T2. rewrite T1.
    change (2 ^ (53 - 53)) with 1. rewrite Z.div_1_r.
    destruct (e2 <=? emax - prec); [right | left; reflexivity].
    exists p2, e2. split; [reflexivity |].
    subst e2 e1. split; [lia |]. split; [simpl in *; lia |].
    replace (E + n + (53 - 53) - E) with n by lia.
    nia.
Qed.

Lemma digits2_pos_lower (p : positive) (k : Z) :
  2 ^ k <= Zpos p -> k < Zpos (digits2_pos p).
Proof.
  intros H. destruct (digits2_pos_bounds p) as (_ & B).
  destruct (Z.ltb_spec k 0); [lia |].
  apply (Z.pow_lt_mono_r_iff 2); lia.
Qed.

Lemma to_int_finite (s : bool) (m : positive) (e n : Z) :
  to_int (S754_finite s m e) = Ok n ->
  Z.abs n = (if 0 <=? e then Zpos m * 2 ^ e else Zpos m / 2 ^ (- e))
  /\ (if s then n <= 0 else 0 <= n).
Proof.
  unfold to_int. intros H. apply Ok_inj in H.
  assert (Ha : 0 <= (if 0 <=? e then Z.shiftl (Zpos m) e
                     else Z.shiftr (Zpos m) (- e))).
  { destruct (0 <=? e).
    - apply Z.shiftl_nonneg; lia.
    - apply Z.shiftr_nonneg; lia. }
  assert (Hv : (if 0 <=? e then Z.shiftl (Zpos m) e
                else Z.shiftr (Zpos m) (- e))
               = (if 0 <=? e then Zpos m * 2 ^ e else Zpos m / 2 ^ (- e))).
  { destruct (Z.leb_spec 0 e).
    - apply Z.shiftl_mul_pow2; lia.
    - apply Z.shiftr_div_pow2; lia. }
  rewrite <- Hv. destruct s; subst n; split; lia.
Qed.

(** A valid float at or above 70 is positive, finite with a 53-digit
    mantissa worth at least 70, or the positive infinity. *)
Lemma float_ge_70 (c : float) :
  valid_binary prec emax c = true -> leb (lit 70) c = true ->
  c = S754_infinity false
  \/ exists m e, c = S754_finite false m e
       /\ Zpos (digits2_pos m) = 53 /\ -46 <= e
       /\ (e <= 0 -> 70 * 2 ^ (- e) <= Zpos m).
Proof.
  intros Hv Hle.
  change (lit 70) with (S754_finite false 4925812092436480 (-46)) in Hle.
  destruct c as [s | s | | s m e]; try discriminate.
  - destruct s; [discriminate | now left].
  - right. destruct s; [discriminate |].
    unfold leb, SFleb, SFcompare in Hle.
    simpl in Hv. unfold SpecFloat.bounded, canonical_mantissa, fexp, emin in Hv.
    apply andb_prop in Hv. destruct Hv as (Hc & _).
    apply Z.eqb_eq in Hc. unfold prec, emax in Hc.
    assert (He : -46 <= e).
    { destruct (Z.compare_spec (-46) e); try discriminate; lia. }
    assert (Hd : Zpos (digits2_pos m) = 53) by lia.
    exists m, e. repeat split; auto.
    intros He0.
    destruct (Z.compare_spec (-46) e) as [Heq | Hlt | Hgt]; try discriminate.
    + subst e. change (2 ^ (- -46)) with 70368744177664.
      change (Pos.compare_cont Eq 4925812092436480 m)
        with (Pos.compare 4925812092436480 m) in Hle.
      destruct (Pos.compare_spec 4925812092436480 m); try discriminate; lia.
    + destruct (digits2_pos_bounds m) as (B1 & _).
      rewrite Hd in B1. change (2 ^ (53 - 1)) with 4503599627370496 in B1.
      assert (2 ^ (- e) <= 2 ^ 45) by (apply Z.pow_le_mono_r; lia).
      change (2 ^ 45) with 35184372088832 in *. lia.
Qed.

(** [cycle_used_hours >= 70] exhausts the cycle: [int(c * 60) >= 4200]. *)
Lemma cycle_of_70_hours (c : float) (n : Z) :
  valid_binary prec emax c = true -> leb (lit 70) c = true ->
  to_int (mul c (lit 60)) = Ok n -> CYCLE_LIMIT <= n.
Proof.
  intros Hv Hle Hn.
  destruct (float_ge_70 c Hv Hle) as [-> | (m & e & -> & Hd & He & Hm)].
  { discriminate. }
  change (lit 60) with (S754_finite false 8444249301319680 (-47)) in Hn.
  unfold mul, SFmul in Hn. cbn [xorb] in Hn.
  set (M := (m * 8444249301319680)%positive) in *.
  destruct (digits2_pos_bounds m) as (B1 & B2). rewrite Hd in B1, B2.
  change (2 ^ (53 - 1)) with 4503599627370496 in B1.
  assert (HM : Zpos M = Zpos m * 8444249301319680) by reflexivity.
  assert (HD : 104 < Zpos (digits2_pos M)).
  { apply digits2_pos_lower. rewrite HM.
    change (2 ^ 104) with (4503599627370496 * 4503599627370496). nia. }
  destruct (binary_round_aux_normal M (e + -47)) as [R | (m' & e' & R & R1 & R2 & R3 & _)];
    try lia; fold prec emax in Hn; rewrite R in Hn.
  { discriminate. }
  apply to_int_finite in Hn. destruct Hn as (Habs & Hpos).
  unfold CYCLE_LIMIT.
  destruct (Z.leb_spec 0 e') as [He' | He'].
  - assert (0 < 2 ^ e') by (apply Z.pow_pos_nonneg; lia).
    change (2 ^ 52) with 4503599627370496 in R2. nia.
  - set (n1 := Zpos (digits2_pos M) - 53) in *.
    assert (Hn1 : 0 <= n1) by (unfold n1; lia).
    assert (He0 : e <= 0) by lia.
    specialize (Hm He0).
    (* the exact product is at least 4200 * 2^(47 - e) *)
    assert (Hk : 0 <= 47 - e - n1) by lia.
    assert (Hprod : 4200 * 2 ^ (47 - e - n1) * 2 ^ n1 <= Zpos M).
    { rewrite <- Z.mul_assoc, <- Z.pow_add_r by lia.
      replace (47 - e - n1 + n1) with (47 + - e) by lia.
      rewrite Z.pow_add_r by lia. rewrite HM.
      change (2 ^ 47) with 140737488355328.
      remember (2 ^ (- e)) as a. clear Heqa. lia. }
    assert (Hq : 4200 * 2 ^ (47 - e - n1) <= Zpos M / 2 ^ n1).
    { apply Z.div_le_lower_bound; [apply Z.pow_pos_nonneg; lia | lia]. }
    assert (Hm' : 4200 * 2 ^ (- e') <= Zpos m').
    { assert (Hs : 0 < 2 ^ (e' - (e + -47))) by (apply Z.pow_pos_nonneg; lia).
      apply (Z.mul_le_mono_pos_r _ _ _ Hs).
      rewrite <- Z.mul_assoc, <- Z.pow_add_r by lia.
      replace (- e' + (e' - (e + -47))) with (47 - e - n1 + n1) by lia.
      rewrite Z.pow_add_r by lia.
      assert (0 < 2 ^ n1) by (apply Z.pow_pos_nonneg; lia).
      nia. }
    assert (4200 <= Zpos m' / 2 ^ (- e')).
    { apply Z.div_le_lower_bound; [apply Z.pow_pos_nonneg; lia | lia]. }
    lia.
Qed.

(** The real number a mantissa and an exponent denote. *)
Definition F2R (m e : Z) : R := (IZR m * powerRZ 2 e)%R.

Lemma powerRZ_2_pos (e : Z) : (0 < powerRZ 2 e)%R.
Proof. apply powerRZ_lt; lra. Qed.

Lemma powerRZ_2_IZR (k : Z) : 0 <= k -> powerRZ 2 k = IZR (2 ^ k).
Proof.
  intros H. destruct k as [| p | p]; try lia.
  - reflexivity.
  - unfold powerRZ. rewrite pow_IZR, positive_nat_Z. reflexivity.
Qed.

Lemma F2R_scale (m e k : Z) : 0 <= k -> F2R (m * 2 ^ k) (e - k) = F2R m e.
Proof.
  intros H. unfold F2R. rewrite mult_IZR, <- powerRZ_2_IZR by exact H.
  rewrite Rmult_assoc, <- powerRZ_add by lra.
  now replace (k + (e - k)) with e by lia.
Qed.

Lemma round_value_upper (M : positive) (E : Z) (m' : positive) (e' : Z) :
  -1074 <= E -> 53 <= Zpos (digits2_pos M) ->
  binary_round_aux prec emax false (Zpos M) E loc_Exact
  = S754_finite false m' e' ->
  (F2R (Zpos m') e' <= F2R (Zpos M) E * (1 + / IZR (2 ^ 52)))%R.
Proof.
  intros HE HD R.
  destruct (binary_round_aux_normal M E HE HD)
    as [R' | (m'' & e'' & R' & R1 & R2 & R3 & R4)];
    rewrite R in R'; try discriminate.
  injection R' as <- <-.
  set (n := Zpos (digits2_pos M) - 53) in *.
  set (q := Zpos M / 2 ^ n) in *.
  assert (Hn : 0 <= n) by (unfold n; lia).
  assert (Hpn : 0 < 2 ^ n) by (apply Z.pow_pos_nonneg; lia).
  assert (Hq : q * 2 ^ n <= Zpos M).
  { unfold q. rewrite Z.mul_comm. apply Z.mul_div_le. lia. }
  assert (Hq52 : 2 ^ 52 <= q).
  { assert (Zpos m' * 2 ^ (e' - E) <= (q + 1) * 2 ^ n) by lia.
    destruct (digits2_pos_bounds M) as (B1 & _).
    replace (Zpos (digits2_pos M) - 1) with (n + 52) in B1 by (unfold n; lia).
    rewrite Z.pow_add_r in B1 by lia.
    unfold q. apply Z.div_le_lower_bound; lia. }
  apply IZR_le in Hq, Hq52, R4. apply IZR_lt in Hpn.
  rewrite !mult_IZR in *. rewrite plus_IZR in R4.
  rewrite <- !powerRZ_2_IZR in * by lia.
  unfold F2R.
  replace e' with ((e' - E) + E) at 1 by lia.
  rewrite powerRZ_add by lra.
  assert (HpE := powerRZ_2_pos E).
  set (T := powerRZ 2 n) in *. set (P := powerRZ 2 (e' - E)) in *.
  set (PE := powerRZ 2 E) in *.
  assert (H52 : (powerRZ 2 52 * T <= IZR q * T)%R)
    by (apply Rmult_le_compat_r; lra).
  assert (Hval : (IZR (Zpos m') * P <= IZR (Zpos M) * (1 + / powerRZ 2 52))%R).
  { assert (0 < powerRZ 2 52)%R by apply powerRZ_2_pos.
    assert (Hinv : (T <= IZR (Zpos M) * / powerRZ 2 52)%R).
    { apply Rmult_le_reg_r with (r := powerRZ 2 52); [assumption |].
      rewrite Rmult_assoc, Rinv_l by lra. lra. }
    lra. }
  rewrite <- Rmult_assoc.
  replace (IZR (Zpos M) * PE * (1 + / powerRZ 2 52))%R
    with (IZR (Zpos M) * (1 + / powerRZ 2 52) * PE)%R by ring.
  apply Rmult_le_compat_r; lra.
Qed.

Lemma Pos_iter_xO (p d : positive) :
  Zpos (Pos.iter xO p d) = Zpos p * 2 ^ Zpos d.
Proof.
  induction d as [| d IH] using Pos.peano_ind.
  - change (Pos.iter xO p 1) with (p~0)%positive.
    change (2 ^ 1) with 2. lia.
  - rewrite Pos.iter_succ, Pos2Z.inj_succ, Z.pow_succ_r by lia.
    change (Zpos (Pos.iter xO p d)~0) with (2 * Zpos (Pos.iter xO p d)).
    rewrite IH. ring.
Qed.

Lemma digits2_pos_shift (p : positive) (k : Z) (q : positive) :
  0 <= k -> Zpos q = Zpos p * 2 ^ k ->
  Zpos (digits2_pos q) = Zpos (digits2_pos p) + k.
Proof.
  intros Hk Hq. destruct (digits2_pos_bounds p) as (B1 & B2).
  apply digits2_pos_unique. rewrite Hq.
  replace (Zpos (digits2_pos p) + k - 1) with (Zpos (digits2_pos p) - 1 + k)
    by lia.
  rewrite !Z.pow_add_r by lia.
  assert (0 < 2 ^ k) by (apply Z.pow_pos_nonneg; lia). nia.
Qed.

(** [float(n)] of a positive integer: a normal float, at most one unit
    of the last place above [n]. *)
Lemma of_int_pos_value (p : positive) (x : float) :
  of_int (Zpos p) = Ok x ->
  exists mx ex,
    x = S754_finite false mx ex /\ -52 <= ex
    /\ 2 ^ 52 <= Zpos mx
    /\ (F2R (Zpos mx) ex <= IZR (Zpos p) * (1 + / IZR (2 ^ 52)))%R.
Proof.
  unfold of_int, binary_normalize, binary_round. intros H.
  set (d := Zpos (digits2_pos p)) in *.
  assert (Hd : 1 <= d) by (unfold d; lia).
  assert (Hf : fexp prec emax (d + 0) = d - 53).
  { unfold fexp, emin, prec, emax. lia. }
  rewrite Hf in H.
  assert (Hs : exists mz ez,
             shl_align p 0 (d - 53) = (mz, ez) /\ -52 <= ez <= 0
             /\ Zpos mz = Zpos p * 2 ^ (- ez)
             /\ 53 <= Zpos (digits2_pos mz)).
  { unfold shl_align. rewrite Z.sub_0_r.
    destruct (d - 53) as [| k | k] eqn:Ek.
    - exists p, 0. repeat split; try lia; fold d; lia.
    - exists p, 0. repeat split; try lia; fold d; lia.
    - exists (Pos.iter xO p k), (Zneg k).
      assert (Hk : Zpos (Pos.iter xO p k) = Zpos p * 2 ^ (- Zneg k))
        by apply Pos_iter_xO.
      repeat split; try lia; auto.
      rewrite (digits2_pos_shift p (- Zneg k) _ ltac:(lia) Hk).
      fold d; lia. }
  destruct Hs as (mz & ez & Hsh & Hez & Hmz & Hdz). rewrite Hsh in H.
  destruct (binary_round_aux prec emax false (Zpos mz) ez loc_Exact)
    as [s | s | | s mx ex] eqn:R; try discriminate.
  - exfalso.
    destruct (binary_round_aux_normal mz ez) as [R' | (? & ? & R' & _)];
      try lia; rewrite R in R'; discriminate.
  - exfalso.
    destruct (binary_round_aux_normal mz ez) as [R' | (? & ? & R' & _)];
      try lia; rewrite R in R'; discriminate.
  - apply Ok_inj in H. subst x.
    destruct (binary_round_aux_normal mz ez)
      as [R' | (m'' & e'' & R' & R1 & R2 & _)]; try lia;
      rewrite R in R'; try discriminate.
    injection R' as -> -> ->.
    exists m'', e''. repeat split; try lia.
    assert (U := round_value_upper mz ez m'' e'' ltac:(lia) Hdz R).
    replace (F2R (Zpos mz) ez) with (IZR (Zpos p)) in U; [exact U |].
    rewrite Hmz. replace ez with (0 - - ez) at 2 by lia.
    rewrite F2R_scale by lia. unfold F2R. simpl. ring.
Qed.

Lemma to_int_le_value (m : positive) (e n : Z) :
  to_int (S754_finite false m e) = Ok n ->
  0 <= n /\ (IZR n <= F2R (Zpos m) e)%R.
Proof.
  intros H. apply to_int_finite in H. destruct H as (Ha & Hn).
  split; [exact Hn |]. rewrite Z.abs_eq in Ha by exact Hn.
  unfold F2R. destruct (Z.leb_spec 0 e) as [He | He].
  - rewrite Ha, mult_IZR, <- powerRZ_2_IZR by exact He. lra.
  - assert (Hp : 0 < 2 ^ (- e)) by (apply Z.pow_pos_nonneg; lia).
    assert (Hm : n * 2 ^ (- e) <= Zpos m).
    { rewrite Ha, Z.mul_comm. apply Z.mul_div_le. exact Hp. }
    apply IZR_le in Hm. rewrite mult_IZR, <- powerRZ_2_IZR in Hm by lia.
    assert (H1 := powerRZ_2_pos e).
    assert (H2 : (powerRZ 2 (- e) * powerRZ 2 e = 1)%R).
    { rewrite <- powerRZ_add by lra. now replace (- e + e) with 0 by lia. }
    replace (IZR n) with (IZR n * powerRZ 2 (- e) * powerRZ 2 e)%R
      by (rewrite Rmult_assoc, H2; ring).
    apply Rmult_le_compat_r; lra.
Qed.

(** The minutes of leg 1 under the 30/70 split lie between 0 and the total. *)
Lemma split_minutes_bounds (total n : Z) (t : float) :
  0 <= total -> of_int total = Ok t ->
  to_int (mul t (decimal 30 100)) = Ok n -> 0 <= n <= total.
Proof.
  intros Ht Hof Hn.
  change (decimal 30 100) with (S754_finite false 5404319552844595 (-54)) in Hn.
  destruct total as [| p | p]; try lia.
  - apply Ok_inj in Hof. subst t. apply Ok_inj in Hn. lia.
  - destruct (of_int_pos_value p t Hof) as (mx & ex & -> & Hex & Hmx & Hx).
    unfold mul, SFmul in Hn. cbn [xorb] in Hn.
    set (M := (mx * 5404319552844595)%positive) in *.
    assert (HM : Zpos M = Zpos mx * 5404319552844595) by reflexivity.
    assert (HD : 53 <= Zpos (digits2_pos M)).
    { assert (52 < Zpos (digits2_pos M)); [| lia].
      apply digits2_pos_lower. rewrite HM. nia. }
    fold prec emax in Hn.
    destruct (binary_round_aux prec emax false (Zpos M) (ex + -54) loc_Exact)
      as [s | s | | s my ey] eqn:R; try discriminate.
    + apply Ok_inj in Hn; lia.
    + destruct (binary_round_aux_normal M (ex + -54))
        as [R' | (m'' & e'' & R' & _)]; try lia;
        rewrite R in R'; try discriminate.
      injection R' as -> -> ->.
      destruct (to_int_le_value _ _ _ Hn) as (Hn0 & Hv).
      split; [exact Hn0 |].
      assert (U := round_value_upper M (ex + -54) m'' e'' ltac:(lia) HD R).
      apply le_IZR.
      unfold F2R in *. rewrite HM, mult_IZR in U.
      rewrite powerRZ_add in U by lra.
      assert (E54 : powerRZ 2 (-54) = (/ IZR (2 ^ 54))%R).
      { change (-54) with (- (54)). rewrite powerRZ_neg'.
        now rewrite powerRZ_2_IZR by lia. }
      rewrite E54 in U.
      change (2 ^ 54) with 18014398509481984 in U.
      change (2 ^ 52) with 4503599627370496 in U, Hx.
      assert (Hp : (1 <= IZR (Zpos p))%R) by (apply IZR_le; lia).
      set (X := (IZR (Zpos mx) * powerRZ 2 ex)%R) in *.
      assert (HX : (0 <= X)%R).
      { unfold X. apply Rmult_le_pos; [apply IZR_le; lia |].
        apply Rlt_le, powerRZ_2_pos. }
      assert (U' : (IZR (Zpos m'') * powerRZ 2 e''
                    <= X * (5404319552844595 / 18014398509481984)
                         * (1 + / 4503599627370496))%R).
      { eapply Rle_trans; [exact U |]. right. unfold X. field. }
      assert (HX2 : (X * (5404319552844595 / 18014398509481984)
                     * (1 + / 4503599627370496)
                     <= IZR (Zpos p) * (1 + / 4503599627370496)
                        * (5404319552844595 / 18014398509481984)
                        * (1 + / 4503599627370496))%R).
      { apply Rmult_le_compat_r; [lra |].
        apply Rmult_le_compat_r; [lra |]. exact Hx. }
      lra.
Qed.

(** ** The number of days *)

Lemma ceil_div_exact (a b : Z) : 0 < b -> a mod b = 0 -> ceil_div a b = a / b.
Proof.
  intros Hb Hm. unfold ceil_div.
  rewrite Z.div_opp_l_z by lia. lia.
Qed.

Lemma shr_1_even (z : Z) :
  0 < z ->
  shr_1 (Build_shr_record (2 * z) false false) = Build_shr_record z false false.
Proof.
  intros H. destruct z as [| p | p]; try lia. reflexivity.
Qed.

Lemma iter_pos_shr_exact (t : positive) :
  forall z, 0 < z ->
    SpecFloat.iter_pos shr_1 t (Build_shr_record (z * 2 ^ Zpos t) false false)
    = Build_shr_record z false false.
Proof.
  induction t as [t IH | t IH |]; intros z Hz; cbn [SpecFloat.iter_pos].
  - assert (Hp : 0 < 2 ^ Zpos t) by (apply Z.pow_pos_nonneg; lia).
    replace (z * 2 ^ Zpos t~1) with (2 * (z * 2 ^ Zpos t * 2 ^ Zpos t)).
    + rewrite shr_1_even by nia. rewrite IH by nia. now apply IH.
    + replace (Zpos t~1) with (Zpos t + Zpos t + 1) by lia.
      rewrite !Z.pow_add_r by lia. change (2 ^ 1) with 2. ring.
  - assert (Hp : 0 < 2 ^ Zpos t) by (apply Z.pow_pos_nonneg; lia).
    replace (z * 2 ^ Zpos t~0) with (z * 2 ^ Zpos t * 2 ^ Zpos t).
    + rewrite IH by nia. now apply IH.
    + replace (Zpos t~0) with (Zpos t + Zpos t) by lia.
      rewrite !Z.pow_add_r by lia. ring.
  - change (2 ^ 1) with 2. rewrite Z.mul_comm. now apply shr_1_even.
Qed.

(** A mantissa that is a 53-digit one shifted left rounds to it exactly. *)
Lemma binary_round_aux_exact (m0 M : positive) (t E : Z) :
  Zpos (digits2_pos m0) = 53 -> 0 <= t -> Zpos M = Zpos m0 * 2 ^ t ->
  -1074 <= E -> E + t <= 971 ->
  binary_round_aux prec emax false (Zpos M) E loc_Exact
  = S754_finite false m0 (E + t).
Proof.
  intros Hd Ht HM HE Hmax.
  assert (HD : Zpos (digits2_pos M) = 53 + t).
  { rewrite (digits2_pos_shift m0 t M Ht HM). lia. }
  unfold binary_round_aux.
  assert (S1 : shr_fexp prec emax (Zpos M) E loc_Exact
               = (Build_shr_record (Zpos m0) false false, E + t)).
  { unfold shr_fexp, fexp, emin, prec, emax. cbn [Zdigits2 shr_record_of_loc].
    rewrite HD.
    replace (Z.max (53 + t + E - 53) (3 - 1024 - 53) - E) with t by lia.
    destruct t as [| tp | tp]; try lia.
    - cbn [shr]. rewrite HM. f_equal; [| lia]. f_equal.
      change (2 ^ 0) with 1. lia.
    - cbn [shr]. rewrite HM. f_equal. apply iter_pos_shr_exact. lia. }
  rewrite S1. cbn [shr_m loc_of_shr_record round_nearest_even].
  assert (S2 : shr_fexp prec emax (Zpos m0) (E + t) loc_Exact
               = (Build_shr_record (Zpos m0) false false, E + t)).
  { unfold shr_fexp, fexp, emin, prec, emax. cbn [Zdigits2 shr_record_of_loc].
    rewrite Hd.
    replace (Z.max (53 + (E + t) - 53) (3 - 1024 - 53) - (E + t)) with 0 by lia.
    reflexivity. }
  rewrite S2. cbn [shr_m].
  replace (E + t <=? emax - prec) with true; [reflexivity |].
  symmetry. apply Z.leb_le. unfold emax, prec. lia.
Qed.

Lemma div_eucl_mul (a b : Z) :
  0 < b -> Z.div_eucl (a * b) b = (a, 0).
Proof.
  intros Hb. destruct (Z.div_eucl (a * b) b) as (q, r) eqn:E.
  assert (Hq : q = a * b / b) by (unfold Z.div; now rewrite E).
  assert (Hr : r = (a * b) mod b) by (unfold Z.modulo; now rewrite E).
  rewrite Z.div_mul in Hq by lia. rewrite Z.mod_mul in Hr by lia.
  now subst.
Qed.

Lemma digits_of_day_minutes (kp : positive) :
  let dk := Zpos (digits2_pos kp) in
  let d1 := Zpos (digits2_pos (kp * 1440)) in
  d1 = dk + 10 \/ d1 = dk + 11.
Proof.
  intros dk d1.
  destruct (digits2_pos_bounds kp) as (K1 & K2). fold dk in K1, K2.
  destruct (digits2_pos_bounds (kp * 1440)) as (A1 & A2). fold d1 in A1, A2.
  rewrite Pos2Z.inj_mul in A1, A2.
  assert (Hdk : 1 <= dk) by (unfold dk; lia).
  assert (Hd1 : 1 <= d1) by (unfold d1; lia).
  assert (U : d1 - 1 < dk + 11).
  { apply (Z.pow_lt_mono_r_iff 2); try lia.
    rewrite Z.pow_add_r by lia. change (2 ^ 11) with 2048. lia. }
  assert (L : dk + 9 < d1).
  { apply (Z.pow_lt_mono_r_iff 2); try lia.
    replace (dk + 9) with (dk - 1 + 10) by lia.
    rewrite Z.pow_add_r by lia. change (2 ^ 10) with 1024. lia. }
  lia.
Qed.

(** Below [2^53] days the float quotient of a whole number of days is
    exact: the source computes the number of days itself. *)
Lemma float_ceil_div_days (k : Z) :
  0 < k < 2 ^ 53 ->
  float_ceil_div (k * MINUTES_IN_DAY) MINUTES_IN_DAY
  = Ok (ceil_div (k * MINUTES_IN_DAY) MINUTES_IN_DAY).
Proof.
  intros (Hk0 & Hk53).
  rewrite ceil_div_exact by (try reflexivity; apply Z.mod_mul; discriminate).
  rewrite Z.div_mul by discriminate.
  destruct k as [| kp | kp]; try lia.
  set (dk := Zpos (digits2_pos kp)).
  assert (Hdk : 1 <= dk <= 53).
  { split; [unfold dk; lia |].
    destruct (digits2_pos_bounds kp) as (K1 & _). fold dk in K1.
    assert (dk - 1 < 53); [| lia].
    apply (Z.pow_lt_mono_r_iff 2); lia. }
  set (m0 := Z.to_pos (Zpos kp * 2 ^ (53 - dk))).
  assert (Hp : 0 < 2 ^ (53 - dk)) by (apply Z.pow_pos_nonneg; lia).
  assert (Hm0 : Zpos m0 = Zpos kp * 2 ^ (53 - dk))
    by (unfold m0; rewrite Z2Pos.id; nia).
  assert (Hd0 : Zpos (digits2_pos m0) = 53).
  { rewrite (digits2_pos_shift kp (53 - dk) m0) by (lia || exact Hm0).
    fold dk. lia. }
  assert (Hdiv : int_truediv (Zpos kp * MINUTES_IN_DAY) MINUTES_IN_DAY
                 = Ok (S754_finite false m0 (dk - 53))).
  { change (Zpos kp * MINUTES_IN_DAY) with (Zpos (kp * 1440)).
    change MINUTES_IN_DAY with (Zpos 1440).
    unfold int_truediv. cbn [Z.ltb Z.compare xorb Z.abs].
    unfold SFdiv_core_binary. cbn [Zdigits2].
    change (Zpos (digits2_pos 1440)) with 11.
    set (d1 := Zpos (digits2_pos (kp * 1440))).
    assert (Hd1 : d1 = dk + 10 \/ d1 = dk + 11)
      by apply digits_of_day_minutes.
    unfold fexp, emin.
    set (e' := Z.min _ (0 - 0)).
    assert (He' : e' = d1 - 64) by (unfold e', prec, emax; lia).
    set (s := 0 - 0 - e').
    assert (Hs : s = 64 - d1) by (unfold s; lia).
    clearbody s e'.
    assert (Hm' : match s with
                  | 0 => Zpos (kp * 1440)
                  | Zpos _ => Z.shiftl (Zpos (kp * 1440)) s
                  | Zneg _ => 0
                  end = Zpos kp * 2 ^ s * 1440).
    { destruct s as [| sp | sp].
      - change (2 ^ 0) with 1. rewrite Pos2Z.inj_mul. ring.
      - rewrite Z.shiftl_mul_pow2, Pos2Z.inj_mul by lia. ring.
      - lia. }
    rewrite Hm', div_eucl_mul by lia.
    change (new_location 1440 0) with loc_Exact.
    assert (Hps : 0 < 2 ^ s) by (apply Z.pow_pos_nonneg; lia).
    destruct (Zpos kp * 2 ^ s) as [| M | M] eqn:EM; try nia.
    rewrite (binary_round_aux_exact m0 M (s - (53 - dk)) e'); try lia.
    - replace (e' + (s - (53 - dk))) with (dk - 53) by lia.
      reflexivity.
    - rewrite Hm0, <- Z.mul_assoc, <- Z.pow_add_r by lia.
      replace (53 - dk + (s - (53 - dk))) with s by lia. auto. }
  unfold float_ceil_div. rewrite Hdiv. cbn [bind ceil_int].
  destruct (Z.leb_spec 0 (dk - 53)) as [E | E].
  - replace (dk - 53) with 0 by lia. rewrite Z.shiftl_0_r, Hm0.
    replace (53 - dk) with 0 by lia. change (2 ^ 0) with 1.
    now rewrite Z.mul_1_r.
  - cbv zeta. replace (- (dk - 53)) with (53 - dk) by lia.
    rewrite Z.shiftr_div_pow2, Hm0, Z.div_mul by lia.
    rewrite Z.shiftl_mul_pow2, Z.eqb_refl by lia. reflexivity.
Qed.

(** * Scenarios of the test suite

    The calls of [tests/test_hos_engine.py], evaluated on the model. *)

Definition call (total_miles total_drive_minutes cycle_used_hours : Z)
  : outcome Plan :=
  compute_plan 739252 (lit total_miles) total_drive_minutes
    (lit cycle_used_hours) "Pickup" "Dropoff" (zero, zero) (zero, zero)
    (Some 739252) None None None None.

Definition stop_kinds (p : Plan) : list StopKind :=
  map se_kind (plan_stops p).

Definition has_stop (k : StopKind) (p : Plan) : bool :=
  existsb (StopKind_eqb k) (stop_kinds p).

Definition count_stops (k : StopKind) (p : Plan) : nat :=
  List.length (filter (StopKind_eqb k) (stop_kinds p)).

(** [ShortTripTest], [CompletedTripFlagTest]: pickup and dropoff only. *)
Example short_trip_has_no_breaks :
  exists p, call 150 180 0 = Ok p
    /\ stop_kinds p = [PICKUP; DROPOFF]
    /\ trip_completed p = true /\ remaining_drive_minutes p = 0.
Proof.
  eexists. split; [vm_compute; reflexivity |].
  split; [| split]; vm_compute; reflexivity.
Qed.

(** [BreakAfter8HoursTest] *)
Example break_inserted_after_8h :
  exists p, call 550 540 0 = Ok p /\ has_stop BREAK_30 p = true.
Proof.
  eexists. split; vm_compute; reflexivity.
Qed.

(** [DrivingLimitTest], [WindowLimitTest] *)
Example drive_limit_triggers_reset :
  exists p q, call 800 780 0 = Ok p /\ call 700 720 0 = Ok q
    /\ has_stop OFF_DUTY_10 p = true /\ has_stop OFF_DUTY_10 q = true.
Proof.
  do 2 eexists. split; [vm_compute; reflexivity |].
  split; [vm_compute; reflexivity |].
  split; vm_compute; reflexivity.
Qed.

(** [CycleCapTest]: five hours are left in the cycle. *)
Example high_cycle_limits_driving :
  exists p, call 400 480 65 = Ok p
    /\ (driven_minutes (plan_timeline p) <=? 5 * 60 + 30) = true.
Proof.
  eexists. split; vm_compute; reflexivity.
Qed.

(** [FuelStopTest], [DailySheetsTest] *)
Example fuel_stop_on_long_trip :
  exists p, call 1500 1320 0 = Ok p
    /\ has_stop FUEL p = true
    /\ (1 <? List.length (daily_sheets p))%nat = true.
Proof.
  eexists. split; [vm_compute; reflexivity |].
  split; vm_compute; reflexivity.
Qed.

(** [LongHaulMultiDayTest] *)
Example long_haul_counts :
  exists p, call 2504 3489 0 = Ok p
    /\ List.length (daily_sheets p) = 5%nat
    /\ count_stops FUEL p = 2%nat
    /\ count_stops BREAK_30 p = 5%nat
    /\ count_stops OFF_DUTY_10 p = 5%nat
    /\ has_stop PICKUP p = true /\ has_stop DROPOFF p = true.
Proof.
  eexists. split; [vm_compute; reflexivity |].
  repeat (split; [vm_compute; reflexivity |]). vm_compute; reflexivity.
Qed.

(** [IncompleteTripTest], [FuelStopPlanningTest]: one hour is left. *)
Example high_cycle_marks_trip_incomplete :
  exists p, call 1793 2512 69 = Ok p
    /\ trip_completed p = false
    /\ remaining_drive_minutes p = 2512 - driven_minutes (plan_timeline p)
    /\ remaining_drive_minutes p = 2452
    /\ planned_fuel_stops p = 1.
Proof.
  eexists. split; [vm_compute; reflexivity |].
  repeat (split; [vm_compute; reflexivity |]). vm_compute; reflexivity.
Qed.

(** * Properties of the plan *)

(** ** Sample calls *)

(** 150 miles in 180 minutes, fresh cycle, starting 2025-01-01. *)
Definition short_trip : outcome Plan :=
  compute_plan 739252 (lit 150) 180 (lit 0) "Pickup" "Dropoff"
    (zero, zero) (zero, zero) (Some 739252) None None None None.

(** 2504 miles in 3489 minutes, fresh cycle, starting 2025-06-01. *)
Definition long_haul : outcome Plan :=
  compute_plan 739252 (lit 2504) 3489 (lit 0) "Pickup" "Dropoff"
    (zero, zero) (zero, zero) (Some 739403) None None None None.

Section Timeline.

Variables (today : date) (total_miles : float) (total_drive_minutes : Z)
  (cycle_used_hours : float) (pickup_label dropoff_label : string)
  (pickup_coords dropoff_coords : float * float) (start_date : option date)
  (leg1_miles : option float) (leg1_minutes : option Z)
  (leg2_miles : option float) (leg2_minutes : option Z).

Lemma compute_plan_ok (p : Plan) :
  compute_plan today total_miles total_drive_minutes cycle_used_hours
    pickup_label dropoff_label pickup_coords dropoff_coords start_date
    leg1_miles leg1_minutes leg2_miles leg2_minutes = Ok p ->
  exists g,
    TimelineOK (plan_timeline p) g /\
    Forall (stop_covered (plan_timeline p)) (plan_stops p) /\
    0 < g /\ g mod MINUTES_IN_DAY = 0.
Proof.
  intros H. apply compute_plan_run in H.
  destruct H as (legs & st0 & st1 & st2 & R).
  eexists. eapply plan_ok; eauto.
Qed.

(** C1.  In every duty period of the returned timeline (the spans between
    successive 600-minute SLEEPER events, from minute 0 and up to the
    end) the DRIVING minutes sum to at most 660 + 1, and no DRIVING event
    takes the DRIVING total of its period past 660. *)
Theorem C1_duty_period_driving_bounded (p : Plan) :
  compute_plan today total_miles total_drive_minutes cycle_used_hours
    pickup_label dropoff_label pickup_coords dropoff_coords start_date
    leg1_miles leg1_minutes leg2_miles leg2_minutes = Ok p ->
  Forall (fun period => driven_minutes period <= DRIVE_LIMIT + 1)
    (duty_periods (plan_timeline p))
  /\ (forall pre e post,
         plan_timeline p = pre ++ e :: post -> te_status e = DRIVING ->
         period_drive pre + duration e <= DRIVE_LIMIT).
Proof.
  intros H. destruct (compute_plan_ok p H) as (g & Htl & _). split.
  - eapply Forall_impl; [| eapply TimelineOK_periods; exact Htl].
    cbv beta; intros; lia.
  - intros pre e post E Hd.
    destruct (TimelineOK_driving_event _ _ _ _ _ Htl E Hd) as (H1 & _).
    exact H1.
Qed.

(** C5.  Every stretch of the returned timeline that drives more than 480
    minutes contains a 30-minute OFF_DUTY event or a 600-minute SLEEPER
    event; and every DRIVING event starts with fewer than 480 minutes
    driven since the last such event and ends with at most 480. *)
Theorem C5_break_before_eight_hours (p : Plan) :
  compute_plan today total_miles total_drive_minutes cycle_used_hours
    pickup_label dropoff_label pickup_coords dropoff_coords start_date
    leg1_miles leg1_minutes leg2_miles leg2_minutes = Ok p ->
  (forall pre stretch post,
      plan_timeline p = pre ++ stretch ++ post ->
      BREAK_TRIGGER < driven_minutes stretch ->
      exists e, In e stretch /\ is_break_or_reset e = true)
  /\ (forall pre e post,
         plan_timeline p = pre ++ e :: post -> te_status e = DRIVING ->
         running_drive pre < BREAK_TRIGGER
         /\ running_drive pre + duration e <= BREAK_TRIGGER).
Proof.
  intros H. destruct (compute_plan_ok p H) as (g & Htl & _). split.
  - intros pre stretch post E Hgt.
    destruct (forallb (fun e => negb (is_break_or_reset e)) stretch) eqn:Hf.
    + assert (Hle := TimelineOK_stretch _ _ _ _ _ Htl E Hf). lia.
    + now apply forallb_negb_existsb.
  - intros pre e post E Hd.
    destruct (TimelineOK_driving_event _ _ _ _ _ Htl E Hd) as (_ & H2 & H3).
    lia.
Qed.

(** C6.  The returned timeline is contiguous and non-overlapping: its
    first event starts at minute 0, every event ends after it starts,
    and every event ends where the next one starts. *)
Theorem C6_timeline_contiguous (p : Plan) :
  compute_plan today total_miles total_drive_minutes cycle_used_hours
    pickup_label dropoff_label pickup_coords dropoff_coords start_date
    leg1_miles leg1_minutes leg2_miles leg2_minutes = Ok p ->
  (exists first, hd_error (plan_timeline p) = Some first /\ te_start first = 0)
  /\ (forall e, In e (plan_timeline p) -> te_start e < te_end e)
  /\ (forall i e1 e2,
         nth_error (plan_timeline p) i = Some e1 ->
         nth_error (plan_timeline p) (S i) = Some e2 ->
         te_end e1 = te_start e2).
Proof.
  intros H. destruct (compute_plan_ok p H) as (g & [Hc _ _] & _ & Hg & _).
  unfold contiguous in Hc. repeat split.
  - destruct (plan_timeline p) as [| e l]; simpl in *; [lia |].
    exists e; split; [reflexivity | tauto].
  - intros e He. destruct (chain_In _ _ _ _ _ _ Hc He) as (_ & Hlt & _).
    exact Hlt.
  - intros i e1 e2 H1 H2. eapply chain_adjacent; eauto.
Qed.

(** C7.  Every stop of the returned list, at minute t and of duration d,
    is covered by exactly one timeline event: one event only meets
    [t, t+d), it is the event [t, t+d), and its status is the one
    prescribed for the kind of the stop. *)
Theorem C7_stops_covered (p : Plan) :
  compute_plan today total_miles total_drive_minutes cycle_used_hours
    pickup_label dropoff_label pickup_coords dropoff_coords start_date
    leg1_miles leg1_minutes leg2_miles leg2_minutes = Ok p ->
  forall s, In s (plan_stops p) ->
    exists e,
      filter (meets s) (plan_timeline p) = [e]
      /\ te_start e = se_global_minute s
      /\ te_end e = se_global_minute s + se_duration s
      /\ te_status e = match se_kind s with
                       | BREAK_30 => OFF_DUTY
                       | OFF_DUTY_10 => SLEEPER
                       | FUEL | PICKUP | DROPOFF => ON_DUTY_NOT_DRIVING
                       end.
Proof.
  intros H s Hs. destruct (compute_plan_ok p H) as (g & _ & Hst & _).
  rewrite Forall_forall in Hst. exact (Hst s Hs).
Qed.

End Timeline.

Lemma C1_witness :
  exists p, long_haul = Ok p /\
    (Forall (fun period => driven_minutes period <= DRIVE_LIMIT + 1)
       (duty_periods (plan_timeline p))
     /\ (forall pre e post,
            plan_timeline p = pre ++ e :: post -> te_status e = DRIVING ->
            period_drive pre + duration e <= DRIVE_LIMIT)).
Proof.
  eexists. split.
  - vm_compute. reflexivity.
  - apply (C1_duty_period_driving_bounded 739252 (lit 2504) 3489 (lit 0)
             "Pickup" "Dropoff" (zero, zero) (zero, zero) (Some 739403)
             None None None None).
    vm_compute. reflexivity.
Defined.

Lemma C5_witness :
  exists p, long_haul = Ok p /\
    ((forall pre stretch post,
         plan_timeline p = pre ++ stretch ++ post ->
         BREAK_TRIGGER < driven_minutes stretch ->
         exists e, In e stretch /\ is_break_or_reset e = true)
     /\ (forall pre e post,
            plan_timeline p = pre ++ e :: post -> te_status e = DRIVING ->
            running_drive pre < BREAK_TRIGGER
            /\ running_drive pre + duration e <= BREAK_TRIGGER)).
Proof.
  eexists. split.
  - vm_compute. reflexivity.
  - apply (C5_break_before_eight_hours 739252 (lit 2504) 3489 (lit 0)
             "Pickup" "Dropoff" (zero, zero) (zero, zero) (Some 739403)
             None None None None).
    vm_compute. reflexivity.
Defined.

Lemma C6_witness :
  exists p, short_trip = Ok p /\
    ((exists first,
         hd_error (plan_timeline p) = Some first /\ te_start first = 0)
     /\ (forall e, In e (plan_timeline p) -> te_start e < te_end e)
     /\ (forall i e1 e2,
            nth_error (plan_timeline p) i = Some e1 ->
            nth_error (plan_timeline p) (S i) = Some e2 ->
            te_end e1 = te_start e2)).
Proof.
  eexists. split.
  - vm_compute. reflexivity.
  - apply (C6_timeline_contiguous 739252 (lit 150) 180 (lit 0)
             "Pickup" "Dropoff" (zero, zero) (zero, zero) (Some 739252)
             None None None None).
    vm_compute. reflexivity.
Defined.

Lemma C7_witness :
  exists p, long_haul = Ok p /\
    forall s, In s (plan_stops p) ->
      exists e,
        filter (meets s) (plan_timeline p) = [e]
        /\ te_start e = se_global_minute s
        /\ te_end e = se_global_minute s + se_duration s
        /\ te_status e = match se_kind s with
                         | BREAK_30 => OFF_DUTY
                         | OFF_DUTY_10 => SLEEPER
                         | FUEL | PICKUP | DROPOFF => ON_DUTY_NOT_DRIVING
                         end.
Proof.
  eexists. split.
  - vm_compute. reflexivity.
  - apply (C7_stops_covered 739252 (lit 2504) 3489 (lit 0)
             "Pickup" "Dropoff" (zero, zero) (zero, zero) (Some 739403)
             None None None None).
    vm_compute. reflexivity.
Defined.

(** ** Driving never exceeds the minutes of the legs *)

Lemma driven_minutes_snoc (tl : list TimelineEvent) (e : TimelineEvent) :
  driven_minutes (tl ++ [e]) =
  driven_minutes tl + (if is_driving e then duration e else 0).
Proof. now rewrite driven_minutes_app, driven_minutes_one. Qed.

Lemma driven_body (st : DriverState) (label : string) (rm : float) (rmin : Z)
    (st' : DriverState) (rm' : float) (rmin' : Z) :
  0 < rmin ->
  BodySpec st label rm rmin (LoopNext st' rm' rmin') ->
  driven_minutes (timeline st') + rmin' = driven_minutes (timeline st) + rmin
  /\ 0 <= rmin'.
Proof.
  intros Hm B. inversion B; subst.
  - unfold _insert_reset; cbn [timeline].
    rewrite driven_minutes_snoc. cbn. lia.
  - unfold _insert_break; cbn [timeline].
    rewrite driven_minutes_snoc. cbn. lia.
  - unfold _insert_fuel_stop; cbn [timeline].
    rewrite driven_minutes_snoc. cbn. lia.
  - match goal with H : drove _ _ _ _ _ |- _ =>
      destruct H as (_ & _ & _ & _ & _ & Et & _) end.
    rewrite Et, driven_minutes_snoc.
    autorewrite with events. cbn. lia.
Qed.

(** A leg adds at most its minutes of driving, and no stop but breaks,
    resets and fuel stops. *)
Lemma driven_drive_leg (st st' : DriverState) (miles : float) (minutes : Z)
    (label : string) :
  _drive_leg st miles minutes label = Ok st' ->
  driven_minutes (timeline st') <= driven_minutes (timeline st) + Z.max 0 minutes.
Proof.
  intros E. unfold _drive_leg in E.
  destruct (drive_leg_loop_rule
              (fun s r => driven_minutes (timeline s) + Z.max 0 r
                          <= driven_minutes (timeline st) + Z.max 0 minutes)
              label) with
    (passes := leg_passes minutes) (st := st) (rm := miles)
    (rmin := minutes) (st' := st') as (r & H'); auto; try lia.
  intros s rm rmin s' rm' rmin' Hpos HP B.
  destruct (driven_body _ _ _ _ _ _ _ Hpos B). lia.
Qed.

Lemma driven_on_duty_stop (st : DriverState) (d : Z) (kind : StopKind)
    (label : string) (lat lng : float) :
  driven_minutes (timeline (_insert_on_duty_stop st d kind label lat lng))
  = driven_minutes (timeline st).
Proof.
  unfold _insert_on_duty_stop. cbn [timeline].
  rewrite driven_minutes_snoc. cbn.
  destruct (_ <? d).
  - unfold _insert_reset; cbn [timeline].
    rewrite driven_minutes_snoc. cbn. lia.
  - lia.
Qed.

Lemma driven_fill_last_day (st : DriverState) :
  driven_minutes (timeline (fill_last_day st)) = driven_minutes (timeline st).
Proof.
  unfold fill_last_day. destruct (0 <? _); [| reflexivity].
  cbn [timeline]. rewrite driven_minutes_snoc. cbn. lia.
Qed.

Lemma driven_initial_state (c : float) (st : DriverState) :
  initial_state c = Ok st -> driven_minutes (timeline st) = 0.
Proof.
  unfold initial_state; intros H. inv_bind H. apply Ok_inj in H.
  subst st. reflexivity.
Qed.

(** ** An exhausted cycle *)

Lemma drive_leg_exhausted (st st' : DriverState) (miles : float) (minutes : Z)
    (label : string) :
  CYCLE_LIMIT <= cycle_minutes st ->
  _drive_leg st miles minutes label = Ok st' -> st' = st.
Proof.
  intros Hc. unfold _drive_leg.
  destruct (leg_passes minutes) as [| n]; cbn [drive_leg_loop];
    destruct (0 <? minutes); intros H; try discriminate;
    try (apply Ok_inj in H; now subst).
  unfold drive_leg_body in H.
  replace (Z.max 0 (CYCLE_LIMIT - cycle_minutes st) <=? 0) with true in H
    by (symmetry; apply Z.leb_le; lia).
  cbn [bind] in H. apply Ok_inj in H. now subst.
Qed.

(** Both override values of a leg are given. *)
Definition overridden (leg_miles : option float) (leg_minutes : option Z)
  : bool :=
  match leg_miles, leg_minutes with
  | Some _, Some _ => true
  | _, _ => false
  end.

Section Totals.

Variables (today : date) (total_miles : float) (total_drive_minutes : Z)
  (cycle_used_hours : float) (pickup_label dropoff_label : string)
  (pickup_coords dropoff_coords : float * float) (start_date : option date)
  (leg1_miles : option float) (leg1_minutes : option Z)
  (leg2_miles : option float) (leg2_minutes : option Z).

(** C2, as the code has it.  With [cycle_used_hours >= 70] the plan has no DRIVING
    event, [remaining_drive_minutes] is [total_drive_minutes] (0 for a
    negative total), and [trip_completed] is false exactly when
    [total_drive_minutes] is positive: it is true for a total of 0. *)
Theorem C2_exhausted_cycle_no_driving (p : Plan) :
  valid_binary prec emax cycle_used_hours = true ->
  leb (lit 70) cycle_used_hours = true ->
  compute_plan today total_miles total_drive_minutes cycle_used_hours
    pickup_label dropoff_label pickup_coords dropoff_coords start_date
    leg1_miles leg1_minutes leg2_miles leg2_minutes = Ok p ->
  filter is_driving (plan_timeline p) = []
  /\ remaining_drive_minutes p = Z.max 0 total_drive_minutes
  /\ trip_completed p = negb (0 <? total_drive_minutes).
Proof.
  intros Hv Hle H. apply compute_plan_run in H.
  destruct H as (legs & st0 & st1 & st2 & [Hi _ H1 H2 Ht _ Hr Hc _]).
  unfold initial_state in Hi. inv_bind Hi. apply Ok_inj in Hi.
  assert (Hcyc := cycle_of_70_hours _ _ Hv Hle Ha).
  assert (E1 : st1 = st0).
  { eapply drive_leg_exhausted; [| exact H1]. subst st0; exact Hcyc. }
  subst st1.
  assert (E2 : st2 = at_pickup pickup_label pickup_coords st0).
  { eapply drive_leg_exhausted; [| exact H2].
    subst st0. unfold at_pickup, _insert_on_duty_stop.
    cbn [on_duty_minutes cycle_minutes]. unfold PICKUP_DURATION.
    destruct (_ <? 60); cbn [cycle_minutes _insert_reset]; lia. }
  subst st2 st0.
  assert (Hd : filter is_driving (plan_timeline p) = []).
  { rewrite Ht. reflexivity. }
  assert (Hz : driven_minutes (plan_timeline p) = 0).
  { unfold driven_minutes. fold is_driving. now rewrite Hd. }
  rewrite Hz, Z.sub_0_r in Hr. rewrite Hc, Hr.
  repeat split; auto.
  destruct (Z.ltb_spec 0 total_drive_minutes);
    [apply Z.leb_gt | apply Z.leb_le]; lia.
Qed.

(** C4, as the code has it.  The DRIVING minutes of the plan are at most the
    minutes of the two legs it simulates; without leg overrides and for a
    non-negative [total_drive_minutes] that is at most
    [total_drive_minutes]. *)
Theorem C4_driving_within_leg_minutes (p : Plan) :
  compute_plan today total_miles total_drive_minutes cycle_used_hours
    pickup_label dropoff_label pickup_coords dropoff_coords start_date
    leg1_miles leg1_minutes leg2_miles leg2_minutes = Ok p ->
  exists legs,
    plan_legs total_miles total_drive_minutes
      leg1_miles leg1_minutes leg2_miles leg2_minutes = Ok legs
    /\ driven_minutes (plan_timeline p)
       <= Z.max 0 (snd (fst legs)) + Z.max 0 (snd (snd legs))
    /\ (overridden leg1_miles leg1_minutes = false ->
        overridden leg2_miles leg2_minutes = false ->
        0 <= total_drive_minutes ->
        driven_minutes (plan_timeline p) <= total_drive_minutes).
Proof.
  intros H. apply compute_plan_run in H.
  destruct H as (legs & st0 & st1 & st2 & [Hi Hl H1 H2 Ht _ _ _ _]).
  exists legs. split; [exact Hl |].
  assert (Hb : driven_minutes (plan_timeline p)
               <= Z.max 0 (snd (fst legs)) + Z.max 0 (snd (snd legs))).
  { rewrite Ht, driven_fill_last_day. unfold at_dropoff.
    rewrite driven_on_duty_stop.
    apply driven_drive_leg in H1, H2.
    unfold at_pickup in H2. rewrite driven_on_duty_stop in H2.
    rewrite (driven_initial_state _ _ Hi) in H1. lia. }
  split; [exact Hb |].
  intros O1 O2 Hpos.
  assert (Hs : 0 <= snd (fst legs) <= total_drive_minutes
               /\ snd (snd legs) = total_drive_minutes - snd (fst legs)).
  { unfold plan_legs in Hl. inv_bind Hl. apply Ok_inj in Hl. subst legs.
    cbn [fst snd].
    assert (Hn : 0 <= snd a <= total_drive_minutes).
    { destruct leg1_miles, leg1_minutes; try discriminate;
        inv_bind Ha; inv_bind Ha; apply Ok_inj in Ha; subst a; cbn [snd];
        eapply split_minutes_bounds; eauto. }
    split; [exact Hn |].
    destruct leg2_miles, leg2_minutes; try discriminate; reflexivity. }
  lia.
Qed.

End Totals.

(** 100 miles and no driving time at all, on an exhausted cycle: the
    trip is reported completed. *)
Lemma C2_counterexample :
  exists p,
    compute_plan 739252 (lit 100) 0 (lit 70) "Pickup" "Dropoff"
      (zero, zero) (zero, zero) (Some 739252) None None None None = Ok p
    /\ leb (lit 70) (lit 70) = true
    /\ trip_completed p = true.
Proof.
  eexists. split; [vm_compute; reflexivity |].
  split; vm_compute; reflexivity.
Qed.

Lemma C2_witness :
  exists p,
    compute_plan 739252 (lit 400) 480 (lit 70) "Pickup" "Dropoff"
      (zero, zero) (zero, zero) (Some 739252) None None None None = Ok p
    /\ filter is_driving (plan_timeline p) = []
    /\ remaining_drive_minutes p = Z.max 0 480
    /\ trip_completed p = negb (0 <? 480).
Proof.
  eexists. split.
  - vm_compute. reflexivity.
  - apply (C2_exhausted_cycle_no_driving 739252 (lit 400) 480 (lit 70)
             "Pickup" "Dropoff" (zero, zero) (zero, zero) (Some 739252)
             None None None None).
    + vm_compute. reflexivity.
    + vm_compute. reflexivity.
    + vm_compute. reflexivity.
Defined.

(** Leg overrides of 200 minutes each against a total of 100 minutes:
    400 minutes are driven. *)
Lemma C4_counterexample :
  exists p,
    compute_plan 739252 (lit 100) 100 (lit 0) "Pickup" "Dropoff"
      (zero, zero) (zero, zero) (Some 739252)
      (Some (lit 50)) (Some 200) (Some (lit 50)) (Some 200) = Ok p
    /\ driven_minutes (plan_timeline p) = 400.
Proof.
  eexists. split; vm_compute; reflexivity.
Qed.

Lemma C4_witness :
  exists p,
    long_haul = Ok p
    /\ exists legs,
         plan_legs (lit 2504) 3489 None None None None = Ok legs
         /\ driven_minutes (plan_timeline p)
            <= Z.max 0 (snd (fst legs)) + Z.max 0 (snd (snd legs))
         /\ (overridden None None = false ->
             overridden None None = false ->
             0 <= 3489 ->
             driven_minutes (plan_timeline p) <= 3489).
Proof.
  eexists. split.
  - vm_compute. reflexivity.
  - apply (C4_driving_within_leg_minutes 739252 (lit 2504) 3489 (lit 0)
             "Pickup" "Dropoff" (zero, zero) (zero, zero) (Some 739403)
             None None None None).
    vm_compute. reflexivity.
Defined.

(** ** The cycle minutes of the initial state *)

(** [n] is [x] truncated toward zero: same sign, and [|n| <= |x| < |n| + 1]. *)
Definition truncation_of (x : float) (n : Z) : Prop :=
  match x with
  | S754_zero _ => n = 0
  | S754_finite s m e =>
      (if s then n <= 0 else 0 <= n)
      /\ (IZR (Z.abs n) <= F2R (Zpos m) e < IZR (Z.abs n) + 1)%R
  | _ => False
  end.

(** The conversion as the specification words it:
    [round(cycle_used_hours * 60)], to the nearest integer minute. *)
Definition spec_cycle_minutes (cycle_used_hours : float) : outcome Z :=
  round_int (mul cycle_used_hours (lit 60)).

Lemma to_int_truncation (x : float) (n : Z) :
  to_int x = Ok n -> truncation_of x n.
Proof.
  destruct x as [s | s | | s m e]; try discriminate.
  - intros H; apply Ok_inj in H; now subst.
  - intros H. apply to_int_finite in H. destruct H as (Ha & Hs).
    split; [exact Hs |]. unfold F2R.
    destruct (Z.leb_spec 0 e) as [He | He].
    + rewrite Ha, mult_IZR, <- powerRZ_2_IZR by exact He. lra.
    + assert (Hp : 0 < 2 ^ (- e)) by (apply Z.pow_pos_nonneg; lia).
      assert (Hlo : Z.abs n * 2 ^ (- e) <= Zpos m).
      { rewrite Ha, Z.mul_comm. apply Z.mul_div_le. exact Hp. }
      assert (Hhi : Zpos m < (Z.abs n + 1) * 2 ^ (- e)).
      { rewrite Ha.
        assert (Hmod := Z.mod_pos_bound (Zpos m) _ Hp).
        rewrite (Z.div_mod (Zpos m) (2 ^ (- e))) at 1 by lia. lia. }
      apply IZR_le in Hlo. apply IZR_lt in Hhi.
      rewrite mult_IZR, <- powerRZ_2_IZR in Hlo, Hhi by lia.
      rewrite plus_IZR in Hhi.
      assert (H1 := powerRZ_2_pos e).
      assert (H2 : (powerRZ 2 (- e) * powerRZ 2 e = 1)%R).
      { rewrite <- powerRZ_add by lra. now replace (- e + e) with 0 by lia. }
      set (a := IZR (Z.abs n)) in *. set (P := powerRZ 2 e) in *.
      set (Q := powerRZ 2 (- e)) in *.
      split.
      * replace a with (a * Q * P)%R by (rewrite Rmult_assoc, H2; ring).
        apply Rmult_le_compat_r; lra.
      * replace (a + 1)%R with ((a + 1) * Q * P)%R
          by (rewrite Rmult_assoc, H2; ring).
        apply Rmult_lt_compat_r; lra.
Qed.

(** C3, as the code has it.  The initial cycle minutes are
    [int(cycle_used_hours * 60)]: the product truncated toward zero, not
    rounded to the nearest minute. *)
Theorem C3_cycle_minutes_truncated (c : float) (st : DriverState) :
  initial_state c = Ok st ->
  to_int (mul c (lit 60)) = Ok (cycle_minutes st)
  /\ truncation_of (mul c (lit 60)) (cycle_minutes st).
Proof.
  unfold initial_state. intros H. inv_bind H. apply Ok_inj in H. subst st.
  cbn [cycle_minutes]. split; [exact Ha | now apply to_int_truncation].
Qed.

Lemma C3_witness :
  exists st,
    initial_state (decimal 1 100) = Ok st
    /\ to_int (mul (decimal 1 100) (lit 60)) = Ok (cycle_minutes st)
    /\ truncation_of (mul (decimal 1 100) (lit 60)) (cycle_minutes st).
Proof.
  eexists. split.
  - vm_compute. reflexivity.
  - apply (C3_cycle_minutes_truncated (decimal 1 100)).
    vm_compute. reflexivity.
Defined.

(** 0.01 hours lie in [0, 70]; the engine starts from 0 cycle minutes,
    while 0.6 minutes round to 1. *)
Lemma C3_counterexample :
  exists st,
    leb zero (decimal 1 100) = true
    /\ leb (decimal 1 100) (lit 70) = true
    /\ initial_state (decimal 1 100) = Ok st
    /\ cycle_minutes st = 0
    /\ spec_cycle_minutes (decimal 1 100) = Ok 1.
Proof.
  eexists.
  split; [vm_compute; reflexivity |].
  split; [vm_compute; reflexivity |].
  split; [vm_compute; reflexivity |].
  split; vm_compute; reflexivity.
Qed.

(** ** The clock *)

Lemma day_sheet_date_free (tl : list TimelineEvent) (d1 d2 : date) (i : Z)
    (s1 s2 : DaySheet) :
  day_sheet tl d1 i = Ok s1 -> day_sheet tl d2 i = Ok s2 ->
  ds_segments s1 = ds_segments s2 /\ ds_total_miles s1 = ds_total_miles s2.
Proof.
  unfold day_sheet. intros H1 H2.
  inv_bind H1. inv_bind H1. inv_bind H2. inv_bind H2.
  assert (a0 = a2) by congruence. subst a2.
  destruct a0 as (segs, m). apply Ok_inj in H1, H2. subst s1 s2.
  split; reflexivity.
Qed.

Lemma for_each_date_free (tl : list TimelineEvent) (d1 d2 : date)
    (l : list Z) (s1 s2 : list DaySheet) :
  for_each (day_sheet tl d1) l = Ok s1 ->
  for_each (day_sheet tl d2) l = Ok s2 ->
  map ds_segments s1 = map ds_segments s2
  /\ map ds_total_miles s1 = map ds_total_miles s2.
Proof.
  revert s1 s2. induction l as [| i l IH]; cbn [for_each]; intros s1 s2 H1 H2.
  - apply Ok_inj in H1, H2. subst. split; reflexivity.
  - inv_bind H1. inv_bind H1. inv_bind H2. inv_bind H2.
    apply Ok_inj in H1, H2. subst s1 s2.
    destruct (day_sheet_date_free _ _ _ _ _ _ Ha Ha1) as (E1 & E2).
    destruct (IH _ _ Ha0 Ha2) as (E3 & E4).
    cbn [map]. split; congruence.
Qed.

Lemma build_daily_sheets_date_free (tl : list TimelineEvent) (d1 d2 : date)
    (s1 s2 : list DaySheet) :
  _build_daily_sheets tl d1 = Ok s1 -> _build_daily_sheets tl d2 = Ok s2 ->
  map ds_segments s1 = map ds_segments s2
  /\ map ds_total_miles s1 = map ds_total_miles s2.
Proof.
  unfold _build_daily_sheets. destruct tl as [| e tl].
  - intros H1 H2. apply Ok_inj in H1, H2. subst. split; reflexivity.
  - apply for_each_date_free.
Qed.

(** C10, as the code has it.  With a [start_date] the result does not depend on the
    clock; without one only the dates of the day sheets do, which are
    counted from [date.today()]. *)
Theorem C10_deterministic_given_start_date
    (total_miles : float) (total_drive_minutes : Z) (cycle_used_hours : float)
    (pickup_label dropoff_label : string)
    (pickup_coords dropoff_coords : float * float)
    (leg1_miles : option float) (leg1_minutes : option Z)
    (leg2_miles : option float) (leg2_minutes : option Z)
    (today1 today2 : date) :
  (forall d,
      compute_plan today1 total_miles total_drive_minutes cycle_used_hours
        pickup_label dropoff_label pickup_coords dropoff_coords (Some d)
        leg1_miles leg1_minutes leg2_miles leg2_minutes
      = compute_plan today2 total_miles total_drive_minutes cycle_used_hours
          pickup_label dropoff_label pickup_coords dropoff_coords (Some d)
          leg1_miles leg1_minutes leg2_miles leg2_minutes)
  /\ (forall p1 p2,
         compute_plan today1 total_miles total_drive_minutes cycle_used_hours
           pickup_label dropoff_label pickup_coords dropoff_coords None
           leg1_miles leg1_minutes leg2_miles leg2_minutes = Ok p1 ->
         compute_plan today2 total_miles total_drive_minutes cycle_used_hours
           pickup_label dropoff_label pickup_coords dropoff_coords None
           leg1_miles leg1_minutes leg2_miles leg2_minutes = Ok p2 ->
         plan_timeline p1 = plan_timeline p2
         /\ plan_stops p1 = plan_stops p2
         /\ map ds_segments (daily_sheets p1) = map ds_segments (daily_sheets p2)
         /\ map ds_total_miles (daily_sheets p1)
            = map ds_total_miles (daily_sheets p2)
         /\ trip_completed p1 = trip_completed p2
         /\ remaining_drive_minutes p1 = remaining_drive_minutes p2
         /\ planned_fuel_stops p1 = planned_fuel_stops p2).
Proof.
  split; [reflexivity |].
  unfold compute_plan. intros p1 p2 H1 H2.
  repeat inv_bind H1. repeat inv_bind H2.
  repeat match goal with
         | Hx : ?c = Ok ?x, Hy : ?c = Ok ?y |- _ =>
             assert (x = y) by congruence; subst y; clear Hy
         end.
  apply Ok_inj in H1, H2. subst p1 p2. cbn.
  match goal with
  | Hx : _build_daily_sheets _ _ = Ok _,
    Hy : _build_daily_sheets _ _ = Ok _ |- _ =>
      destruct (build_daily_sheets_date_free _ _ _ _ _ Hx Hy) as (E1 & E2)
  end.
  repeat split; assumption.
Qed.

(** The same call on two successive days, without a start date: the day
    sheets are dated differently. *)
Lemma C10_counterexample :
  exists p1 p2,
    compute_plan 739252 (lit 150) 180 (lit 0) "Pickup" "Dropoff"
      (zero, zero) (zero, zero) None None None None None = Ok p1
    /\ compute_plan 739253 (lit 150) 180 (lit 0) "Pickup" "Dropoff"
         (zero, zero) (zero, zero) None None None None None = Ok p2
    /\ map ds_date (daily_sheets p1) = [739252]
    /\ map ds_date (daily_sheets p2) = [739253].
Proof.
  do 2 eexists.
  split; [vm_compute; reflexivity |].
  split; [vm_compute; reflexivity |].
  split; vm_compute; reflexivity.
Qed.

(** ** Termination *)

(** The computation came to an end: it returned or raised. *)
Definition finished {A : Type} (o : outcome A) : bool :=
  match o with
  | Diverge => false
  | _ => true
  end.

Lemma finished_bind {A B : Type} (c : outcome A) (k : A -> outcome B) :
  finished c = true -> (forall a, c = Ok a -> finished (k a) = true) ->
  finished (bind c k) = true.
Proof.
  destruct c as [a | e |]; cbn; intros Hc Hk; auto.
Qed.

Lemma finished_of_int (n : Z) : finished (of_int n) = true.
Proof. unfold of_int. destruct (binary_normalize _ _ _ _ _); reflexivity. Qed.

Lemma finished_to_int (x : float) : finished (to_int x) = true.
Proof. destruct x; reflexivity. Qed.

Lemma finished_truediv (x y : float) : finished (truediv x y) = true.
Proof. destruct y; reflexivity. Qed.

Lemma finished_int_truediv (a b : Z) : finished (int_truediv a b) = true.
Proof.
  unfold int_truediv.
  destruct (SFdiv_core_binary prec emax (Z.abs a) 0 (Z.abs b) 0)
    as ((mz & ez) & lz).
  destruct a, b; try reflexivity;
    destruct (binary_round_aux _ _ _ _ _ _); reflexivity.
Qed.

Create HintDb finished.
#[local] Hint Resolve finished_of_int finished_to_int finished_truediv
  finished_int_truediv : finished.

Ltac finish :=
  repeat first
    [ reflexivity
    | progress auto with finished
    | apply finished_bind; [| intros ? ?]
    | match goal with
      | |- finished (if ?b then _ else _) = true => destruct b
      | |- finished (match ?x with _ => _ end) = true => destruct x
      end ].

Lemma finished_drive_leg_body (st : DriverState) (label : string) (rm : float)
    (rmin : Z) : finished (drive_leg_body st label rm rmin) = true.
Proof.
  unfold drive_leg_body, drivable_chunk, drive_chunk. finish.
Qed.

(** How many stops are due before the next driving pass, weighted so
    that every stop lowers the sum. *)
Definition weight (st : DriverState) : Z :=
  (if BREAK_TRIGGER <=? cumulative_drive st then 3 else 0)
  + (if leb (lit FUEL_INTERVAL_MILES) (miles_since_fuel st) then 2 else 0)
  + (if (WINDOW_LIMIT - on_duty_minutes st <=? 0)
        || (DRIVE_LIMIT - drive_minutes st <=? 0) then 1 else 0).

Lemma weight_bounds (st : DriverState) : 0 <= weight st <= 6.
Proof.
  unfold weight.
  destruct (_ <=? cumulative_drive st), (leb _ _), (_ || _); lia.
Qed.

(** Every pass that goes on lowers [7 * remaining_minutes + weight]. *)
Lemma body_decreases (st : DriverState) (label : string) (rm : float)
    (rmin : Z) (st' : DriverState) (rm' : float) (rmin' : Z) :
  0 < rmin ->
  BodySpec st label rm rmin (LoopNext st' rm' rmin') ->
  7 * rmin' + weight st' < 7 * rmin + weight st.
Proof.
  intros Hm B. inversion B; subst.
  - unfold weight, _insert_reset;
      cbn [cumulative_drive miles_since_fuel on_duty_minutes drive_minutes].
    replace ((WINDOW_LIMIT - on_duty_minutes st <=? 0)
             || (DRIVE_LIMIT - drive_minutes st <=? 0)) with true.
    + change (BREAK_TRIGGER <=? 0) with false.
      change ((WINDOW_LIMIT - 0 <=? 0) || (DRIVE_LIMIT - 0 <=? 0)) with false.
      destruct (_ <=? cumulative_drive st), (leb _ _); lia.
    + symmetry. apply orb_true_iff.
      match goal with H : _ \/ _ |- _ => destruct H as [H | H] end;
        [left | right]; apply Z.leb_le; lia.
  - unfold weight, _insert_break;
      cbn [cumulative_drive miles_since_fuel on_duty_minutes drive_minutes].
    replace (BREAK_TRIGGER <=? cumulative_drive st) with true
      by (symmetry; apply Z.leb_le; lia).
    replace ((WINDOW_LIMIT - on_duty_minutes st <=? 0)
             || (DRIVE_LIMIT - drive_minutes st <=? 0)) with false
      by (symmetry; apply orb_false_iff; split; apply Z.leb_gt; lia).
    change (BREAK_TRIGGER <=? 0) with false.
    destruct (leb _ _), (_ || _); lia.
  - unfold weight, _insert_fuel_stop;
      cbn [cumulative_drive miles_since_fuel on_duty_minutes drive_minutes].
    replace (BREAK_TRIGGER <=? cumulative_drive st) with false
      by (symmetry; apply Z.leb_gt; lia).
    replace ((WINDOW_LIMIT - on_duty_minutes st <=? 0)
             || (DRIVE_LIMIT - drive_minutes st <=? 0)) with false
      by (symmetry; apply orb_false_iff; split; apply Z.leb_gt; lia).
    match goal with H : leb _ (miles_since_fuel st) = true |- _ =>
      rewrite H end.
    change (leb (lit FUEL_INTERVAL_MILES) zero) with false.
    destruct (_ || _); lia.
  - assert (W := weight_bounds st'). assert (W' := weight_bounds st). lia.
Qed.

Lemma finished_drive_leg_loop (label : string) (passes : nat) :
  forall (st : DriverState) (rm : float) (rmin : Z),
    (0 < rmin -> 7 * rmin + weight st <= Z.of_nat passes) ->
    finished (drive_leg_loop passes st label rm rmin) = true.
Proof.
  induction passes as [| n IH]; intros st rm rmin Hp; cbn [drive_leg_loop];
    destruct (Z.ltb_spec 0 rmin) as [Hm | Hm]; try reflexivity.
  - specialize (Hp Hm). assert (W := weight_bounds st). lia.
  - apply finished_bind; [apply finished_drive_leg_body |].
    intros step Hs. apply drive_leg_body_spec in Hs; [| exact Hm].
    destruct step as [| st' rm' rmin']; [reflexivity |].
    apply IH. intros _.
    assert (D := body_decreases _ _ _ _ _ _ _ Hm Hs).
    specialize (Hp Hm). lia.
Qed.

(** More passes than needed change nothing. *)
Lemma drive_leg_loop_stable (label : string) (n1 : nat) :
  forall (n2 : nat) (st : DriverState) (rm : float) (rmin : Z),
    (0 < rmin -> 7 * rmin + weight st <= Z.of_nat n1) ->
    (0 < rmin -> 7 * rmin + weight st <= Z.of_nat n2) ->
    drive_leg_loop n1 st label rm rmin = drive_leg_loop n2 st label rm rmin.
Proof.
  induction n1 as [| n1 IH]; intros n2 st rm rmin H1 H2;
    destruct n2 as [| n2]; cbn [drive_leg_loop];
    destruct (Z.ltb_spec 0 rmin) as [Hm | Hm]; try reflexivity;
    try (specialize (H1 Hm); specialize (H2 Hm);
         assert (W := weight_bounds st); lia).
  destruct (drive_leg_body st label rm rmin) as [step | e |] eqn:Hs;
    cbn [bind]; try reflexivity.
  apply drive_leg_body_spec in Hs; [| exact Hm].
  destruct step as [| st' rm' rmin']; [reflexivity |].
  assert (D := body_decreases _ _ _ _ _ _ _ Hm Hs).
  specialize (H1 Hm). specialize (H2 Hm).
  apply IH; intros _; lia.
Qed.

Lemma leg_passes_enough (st : DriverState) (minutes : Z) (passes : nat) :
  (leg_passes minutes <= passes)%nat ->
  0 < minutes -> 7 * minutes + weight st <= Z.of_nat passes.
Proof.
  unfold leg_passes. intros Hp Hm. assert (W := weight_bounds st). lia.
Qed.

Lemma finished_drive_leg (st : DriverState) (miles : float) (minutes : Z)
    (label : string) : finished (_drive_leg st miles minutes label) = true.
Proof.
  apply finished_drive_leg_loop. now apply leg_passes_enough.
Qed.

Lemma finished_day_events (events : list TimelineEvent) (ds de : Z) :
  forall (segs : list Segment) (m : float),
    finished (day_events events ds de segs m) = true.
Proof.
  induction events as [| e rest IH]; intros segs m; cbn [day_events].
  - reflexivity.
  - destruct (_ || _); [apply IH |].
    destruct (_ <=? _); [apply IH |].
    apply finished_bind; [finish | intros; apply IH].
Qed.

Lemma finished_for_each {A B : Type} (f : A -> outcome B) (l : list A) :
  (forall a, finished (f a) = true) -> finished (for_each f l) = true.
Proof.
  intros Hf. induction l as [| a l IH]; cbn [for_each]; [reflexivity |].
  apply finished_bind; [apply Hf | intros b _].
  apply finished_bind; [exact IH | reflexivity].
Qed.

Lemma finished_build_daily_sheets (tl : list TimelineEvent) (d : date) :
  finished (_build_daily_sheets tl d) = true.
Proof.
  unfold _build_daily_sheets. destruct tl as [| e tl]; [reflexivity |].
  apply finished_for_each. intros i. unfold day_sheet, date_add_days.
  apply finished_bind; [destruct (_ && _); reflexivity | intros ? _].
  apply finished_bind; [apply finished_day_events | intros (segs & m) _].
  reflexivity.
Qed.

#[local] Hint Resolve finished_drive_leg finished_build_daily_sheets
  : finished.

Lemma finished_initial_state (c : float) : finished (initial_state c) = true.
Proof.
  unfold initial_state.
  apply finished_bind; [apply finished_to_int | reflexivity].
Qed.

Lemma finished_plan_legs (total_miles : float) (total_drive_minutes : Z)
    (leg1_miles : option float) (leg1_minutes : option Z)
    (leg2_miles : option float) (leg2_minutes : option Z) :
  finished (plan_legs total_miles total_drive_minutes
              leg1_miles leg1_minutes leg2_miles leg2_minutes) = true.
Proof.
  unfold plan_legs.
  apply finished_bind; [| reflexivity].
  destruct leg1_miles, leg1_minutes; try reflexivity;
    (apply finished_bind; [apply finished_of_int | intros t _];
     apply finished_bind; [apply finished_to_int | reflexivity]).
Qed.

(** C9.  [compute_plan] terminates on every input, so on every finite
    non-negative one: it returns or raises, the loop never runs out of
    passes and more passes change nothing; and every pass of the leg
    loop either aborts on an exhausted cycle, or drives a chunk of at
    least one minute that comes off the remaining minutes, or inserts a
    stop that clears its own trigger. *)
Theorem C9_compute_plan_terminates
    (today : date) (total_miles : float) (total_drive_minutes : Z)
    (cycle_used_hours : float) (pickup_label dropoff_label : string)
    (pickup_coords dropoff_coords : float * float) (start_date : option date)
    (leg1_miles : option float) (leg1_minutes : option Z)
    (leg2_miles : option float) (leg2_minutes : option Z) :
  finished
    (compute_plan today total_miles total_drive_minutes cycle_used_hours
       pickup_label dropoff_label pickup_coords dropoff_coords start_date
       leg1_miles leg1_minutes leg2_miles leg2_minutes) = true
  /\ (forall st miles minutes label passes,
         (leg_passes minutes <= passes)%nat ->
         drive_leg_loop passes st label miles minutes
         = _drive_leg st miles minutes label)
  /\ (forall st label rm rmin step,
         0 < rmin ->
         drive_leg_body st label rm rmin = Ok step ->
         (step = LoopBreak /\ CYCLE_LIMIT - cycle_minutes st <= 0)
         \/ (exists d chunk_miles st' rm',
                step = LoopNext st' rm' (rmin - d)
                /\ 1 <= d <= rmin
                /\ timeline st' = timeline st ++
                     [mkTimelineEvent (global_minute st)
                        (global_minute st + d) DRIVING label chunk_miles])
         \/ (step = LoopNext (_insert_reset st) rm rmin
             /\ 0 < WINDOW_LIMIT - on_duty_minutes (_insert_reset st)
             /\ 0 < DRIVE_LIMIT - drive_minutes (_insert_reset st))
         \/ (step = LoopNext (_insert_break st label) rm rmin
             /\ cumulative_drive (_insert_break st label) < BREAK_TRIGGER)
         \/ (step = LoopNext (_insert_fuel_stop st label) rm rmin
             /\ leb (lit FUEL_INTERVAL_MILES)
                  (miles_since_fuel (_insert_fuel_stop st label)) = false)).
Proof.
  split; [| split].
  - unfold compute_plan.
    apply finished_bind; [apply finished_initial_state | intros st0 _].
    apply finished_bind; [apply finished_plan_legs | intros legs _].
    apply finished_bind; [apply finished_drive_leg | intros st1 _].
    cbv zeta.
    apply finished_bind; [apply finished_drive_leg | intros st2 _].
    apply finished_bind; [apply finished_truediv | intros q _].
    apply finished_bind; [apply finished_to_int | intros n _].
    apply finished_bind; [apply finished_build_daily_sheets | intros ds _].
    reflexivity.
  - intros st miles minutes label passes Hp. unfold _drive_leg.
    apply drive_leg_loop_stable; apply leg_passes_enough; auto.
  - intros st label rm rmin step Hm Hs.
    apply drive_leg_body_spec in Hs; [| exact Hm].
    inversion Hs; subst.
    + left. split; [reflexivity | assumption].
    + right; right; left. repeat split.
    + right; right; right; left. split; [reflexivity |].
      unfold BREAK_TRIGGER; cbn; lia.
    + right; right; right; right. split; reflexivity.
    + right; left.
      match goal with H : drove _ _ _ _ _ |- _ =>
        destruct H as (_ & _ & _ & _ & _ & Et & _) end.
      exists d, chunk_miles, st', rm'. repeat split; auto.
Qed.

(** ** Day sheets *)

(** The segments a day keeps of a list of events: what the inner loop of
    [_build_daily_sheets] appends, apart from the miles. *)
Fixpoint clip (events : list TimelineEvent) (day_start day_end : Z)
  : list Segment :=
  match events with
  | [] => []
  | evt :: rest =>
      if (te_end evt <=? day_start) || (day_end <=? te_start evt)
      then clip rest day_start day_end
      else
        let seg_start := Z.max (te_start evt) day_start - day_start in
        let seg_end := Z.min (te_end evt) day_end - day_start in
        if seg_end <=? seg_start then clip rest day_start day_end
        else mkSegment seg_start seg_end (te_status evt) (te_label evt)
             :: clip rest day_start day_end
  end.

Lemma day_events_segments (events : list TimelineEvent) (ds de : Z) :
  forall (segs : list Segment) (m : float) (segs' : list Segment) (m' : float),
    day_events events ds de segs m = Ok (segs', m') ->
    segs' = segs ++ clip events ds de.
Proof.
  induction events as [| e rest IH]; intros segs m segs' m' H;
    cbn [day_events clip] in *.
  - apply Ok_inj in H. injection H as <- _. now rewrite app_nil_r.
  - destruct (_ || _); [eauto |].
    destruct (_ <=? _); [eauto |].
    cbv zeta in H. inv_bind H. apply IH in H.
    rewrite H, <- app_assoc. reflexivity.
Qed.

(** The segments of a day are a chain over the part of the day the
    events cover. *)
Lemma clip_chain (ds de : Z) (events : list TimelineEvent) :
  ds < de ->
  forall a b,
    chain te_start te_end a events b ->
    (Z.max a ds < Z.min b de ->
     chain start_minute end_minute
       (Z.max a ds - ds) (clip events ds de) (Z.min b de - ds))
    /\ (Z.min b de <= Z.max a ds -> clip events ds de = []).
Proof.
  intros Hd. induction events as [| e rest IH]; intros a b H; cbn [clip].
  - simpl in H. subst b. split; [lia | reflexivity].
  - destruct H as (Hs & Hlt & H).
    assert (Hle := chain_le _ _ _ _ _ H).
    destruct (IH _ _ H) as (IH1 & IH2).
    destruct (Z.leb_spec (te_end e) ds) as [E1 | E1]; cbn [orb].
    { split; intros Hc.
      - replace (Z.max a ds) with (Z.max (te_end e) ds) by lia.
        apply IH1; lia.
      - apply IH2; lia. }
    destruct (Z.leb_spec de (te_start e)) as [E2 | E2].
    { split; intros Hc; [lia | apply IH2; lia]. }
    cbv zeta.
    destruct (Z.leb_spec (Z.min (te_end e) de - ds)
                (Z.max (te_start e) ds - ds)) as [E3 | E3]; [lia |].
    split; intros Hc; [| lia].
    cbn [chain start_minute end_minute].
    split; [lia |]. split; [lia |].
    destruct (Z_lt_le_dec (Z.max (te_end e) ds) (Z.min b de)) as [L | L].
    + replace (Z.min (te_end e) de - ds) with (Z.max (te_end e) ds - ds)
        by lia.
      now apply IH1.
    + rewrite (IH2 L). cbn [chain]. lia.
Qed.

Lemma merge_loop_chain (segs : list Segment) :
  forall (init : list Segment) (cur : Segment) (a c b : Z),
    chain start_minute end_minute a (init ++ [cur]) c ->
    chain start_minute end_minute c segs b ->
    chain start_minute end_minute a (merge_loop init cur segs) b.
Proof.
  induction segs as [| seg rest IH]; intros init cur a c b H1 H2;
    cbn [merge_loop].
  - simpl in H2. now subst b.
  - destruct H2 as (Hs & Hlt & H2).
    destruct (_ && _).
    + apply chain_app_inv in H1. destruct H1 as (x & Hi & Hc).
      destruct Hc as (Hcs & Hclt & Hce). simpl in Hce.
      eapply IH; [| exact H2].
      eapply chain_app; [exact Hi |].
      cbn [chain start_minute end_minute]. repeat split; lia.
    + eapply IH; [| exact H2].
      apply chain_snoc; [now rewrite Hs | exact Hlt | reflexivity].
Qed.

Lemma merge_segments_chain (segs : list Segment) (a b : Z) :
  chain start_minute end_minute a segs b ->
  chain start_minute end_minute a (_merge_segments segs) b.
Proof.
  destruct segs as [| seg rest]; [auto |].
  intros (Hs & Hlt & H). unfold _merge_segments.
  eapply merge_loop_chain; [| exact H].
  cbn [app chain]. auto.
Qed.

(** The sheet of a day the timeline covers. *)
Lemma day_sheet_chain (tl : list TimelineEvent) (g : Z) (d : date) (i : Z)
    (sheet : DaySheet) :
  chain te_start te_end 0 tl g ->
  0 <= i -> (i + 1) * MINUTES_IN_DAY <= g ->
  day_sheet tl d i = Ok sheet ->
  chain start_minute end_minute 0 (ds_segments sheet) MINUTES_IN_DAY.
Proof.
  intros Hc Hi Hg H. unfold day_sheet in H.
  inv_bind H. inv_bind H. destruct a0 as (segs & m).
  apply Ok_inj in H. subst sheet. cbn [ds_segments].
  apply day_events_segments in Ha0. cbn [app] in Ha0. subst segs.
  apply merge_segments_chain.
  set (ds := i * MINUTES_IN_DAY) in *.
  assert (Hds : 0 <= ds) by (unfold ds, MINUTES_IN_DAY; lia).
  assert (Hde : ds + MINUTES_IN_DAY <= g)
    by (unfold ds, MINUTES_IN_DAY in *; lia).
  destruct (clip_chain ds (ds + MINUTES_IN_DAY) tl) with (a := 0) (b := g)
    as (C & _); [unfold MINUTES_IN_DAY; lia | exact Hc |].
  replace (Z.max 0 ds - ds) with 0 in C by lia.
  replace (Z.min g (ds + MINUTES_IN_DAY) - ds) with MINUTES_IN_DAY in C by lia.
  apply C. unfold MINUTES_IN_DAY in *; lia.
Qed.

Lemma for_each_In {A B : Type} (f : A -> outcome B) (l : list A) :
  forall bs b,
    for_each f l = Ok bs -> In b bs -> exists a, In a l /\ f a = Ok b.
Proof.
  induction l as [| a l IH]; cbn [for_each]; intros bs b H Hin.
  - apply Ok_inj in H. subst bs. contradiction.
  - inv_bind H. inv_bind H. apply Ok_inj in H. subst bs.
    destruct Hin as [<- | Hin].
    + exists a; split; [now left | assumption].
    + match goal with Hr : for_each f l = Ok _ |- _ =>
        destruct (IH _ _ Hr Hin) as (x & Hx & Hf) end.
      exists x; split; [now right | assumption].
Qed.

Lemma for_each_length {A B : Type} (f : A -> outcome B) (l : list A) :
  forall bs, for_each f l = Ok bs -> List.length bs = List.length l.
Proof.
  induction l as [| a l IH]; cbn [for_each]; intros bs H.
  - apply Ok_inj in H. now subst bs.
  - inv_bind H. inv_bind H. apply Ok_inj in H. subst bs.
    cbn [List.length]. f_equal. auto.
Qed.

Lemma In_range (n i : Z) : In i (range n) -> 0 <= i < n.
Proof.
  unfold range. intros H. apply in_map_iff in H.
  destruct H as (k & <- & Hk). apply in_seq in Hk. lia.
Qed.

Lemma length_range (n : Z) : List.length (range n) = Z.to_nat n.
Proof. unfold range. now rewrite length_map, length_seq. Qed.

(** The sheets of a timeline that ends on a day boundary. *)
Lemma build_daily_sheets_chain (tl : list TimelineEvent) (g : Z) (d : date)
    (sheets : list DaySheet) :
  chain te_start te_end 0 tl g -> 0 < g -> g mod MINUTES_IN_DAY = 0 ->
  _build_daily_sheets tl d = Ok sheets ->
  Z.of_nat (List.length sheets) * MINUTES_IN_DAY = g
  /\ forall sheet, In sheet sheets ->
       chain start_minute end_minute 0 (ds_segments sheet) MINUTES_IN_DAY.
Proof.
  intros Hc Hg Hm H. unfold _build_daily_sheets in H.
  destruct tl as [| e tl']; [simpl in Hc; lia |].
  set (tl := e :: tl') in *.
  assert (Hlast : te_end (last tl e) = g).
  { eapply chain_last; [exact Hc | discriminate]. }
  rewrite Hlast, ceil_div_exact in H by (auto; reflexivity).
  assert (Hdiv : g = MINUTES_IN_DAY * (g / MINUTES_IN_DAY)).
  { rewrite (Z.div_mod g MINUTES_IN_DAY) at 1 by discriminate. lia. }
  split.
  - rewrite (for_each_length _ _ _ H), length_range.
    unfold MINUTES_IN_DAY in *. lia.
  - intros sheet Hin.
    destruct (for_each_In _ _ _ _ H Hin) as (i & Hi & Hs).
    apply In_range in Hi.
    apply (day_sheet_chain tl g d i sheet Hc); [lia | | exact Hs].
    unfold MINUTES_IN_DAY in *. lia.
Qed.

(** What the tail fill appends when the trip has reached minute [g]:
    nothing on a day boundary, else one [OFF_DUTY] event of
    [1440 - g mod 1440] minutes. *)
Definition tail_fill (g : Z) : list TimelineEvent :=
  if 0 <? g mod MINUTES_IN_DAY
  then [mkTimelineEvent g (g + (MINUTES_IN_DAY - g mod MINUTES_IN_DAY))
          OFF_DUTY "Off Duty"%string zero]
  else [].

Lemma fill_last_day_tail (st : DriverState) :
  timeline (fill_last_day st) = timeline st ++ tail_fill (global_minute st)
  /\ stops (fill_last_day st) = stops st.
Proof.
  unfold fill_last_day, tail_fill. destruct (0 <? _); cbn.
  - auto.
  - now rewrite app_nil_r.
Qed.

(** A stop of a sound state has ended by the minute the state has
    reached. *)
Lemma Inv_stops_ended (st : DriverState) :
  Inv st ->
  Forall (fun s => se_global_minute s + se_duration s <= global_minute st)
    (stops st).
Proof.
  intros [[Hc _ _] _ _ Hs]. eapply Forall_impl; [| exact Hs].
  cbv beta. intros s (e & Hf & _ & He & _).
  assert (Hin : In e (timeline st)).
  { assert (H : In e (filter (meets s) (timeline st)))
      by (rewrite Hf; now left).
    apply filter_In in H. tauto. }
  destruct (chain_In _ _ _ _ _ _ Hc Hin) as (_ & _ & Hle). lia.
Qed.

Section Sheets.

Variables (today : date) (total_miles : float) (total_drive_minutes : Z)
  (cycle_used_hours : float) (pickup_label dropoff_label : string)
  (pickup_coords dropoff_coords : float * float) (start_date : option date)
  (leg1_miles : option float) (leg1_minutes : option Z)
  (leg2_miles : option float) (leg2_minutes : option Z).

(** C8.  The segments of every returned day sheet are contiguous, cover
    exactly [0, 1440) and their lengths sum to 1440.  The tail fill is
    what makes the last day whole: the stops end with the dropoff stop,
    and where that stop ends, at minute [g], the timeline goes on with
    nothing when [g] is a day boundary and else with one [OFF_DUTY]
    event of [1440 - g mod 1440] minutes; every stop has ended by [g],
    so none meets that event.  The timeline so filled is contiguous to
    a day boundary, there is one sheet per day of it, and below [2^53]
    days that is the number the float division of the source gives. *)
Theorem C8_day_sheets_cover_the_day (p : Plan) :
  compute_plan today total_miles total_drive_minutes cycle_used_hours
    pickup_label dropoff_label pickup_coords dropoff_coords start_date
    leg1_miles leg1_minutes leg2_miles leg2_minutes = Ok p ->
  (forall sheet, In sheet (daily_sheets p) ->
     let segs := ds_segments sheet in
     chain start_minute end_minute 0 segs MINUTES_IN_DAY
     /\ (exists first, hd_error segs = Some first /\ start_minute first = 0)
     /\ (forall s, end_minute (last segs s) = MINUTES_IN_DAY)
     /\ (forall s, In s segs ->
           0 <= start_minute s /\ start_minute s < end_minute s
           /\ end_minute s <= MINUTES_IN_DAY)
     /\ (forall i s1 s2,
           nth_error segs i = Some s1 -> nth_error segs (S i) = Some s2 ->
           end_minute s1 = start_minute s2)
     /\ total_length start_minute end_minute segs = MINUTES_IN_DAY)
  /\ (exists before dropoff tl,
         plan_stops p = before ++ [dropoff]
         /\ se_kind dropoff = DROPOFF
         /\ contiguous 0 tl (se_global_minute dropoff + se_duration dropoff)
         /\ plan_timeline p
            = tl ++ tail_fill (se_global_minute dropoff + se_duration dropoff)
         /\ Forall (fun s => se_global_minute s + se_duration s
                             <= se_global_minute dropoff + se_duration dropoff)
              (plan_stops p)
         /\ (forall s e,
               In s (plan_stops p) ->
               In e (tail_fill (se_global_minute dropoff
                                + se_duration dropoff)) ->
               meets s e = false))
  /\ contiguous 0 (plan_timeline p)
       (Z.of_nat (List.length (daily_sheets p)) * MINUTES_IN_DAY)
  /\ (Z.of_nat (List.length (daily_sheets p)) < 2 ^ 53 ->
      forall e,
        float_ceil_div (te_end (last (plan_timeline p) e)) MINUTES_IN_DAY
        = Ok (Z.of_nat (List.length (daily_sheets p)))).
Proof.
  intros H. apply compute_plan_run in H.
  destruct H as (legs & st0 & st1 & st2 & R).
  destruct (plan_ok _ _ _ _ _ _ _ _ _ _ _ _ _ _ _ _ _ _ R)
    as ([Hc _ _] & _ & Hg & Hm).
  destruct R as [Hi _ H1 H2 Ht Hs _ _ Hsh].
  set (st := at_dropoff dropoff_label dropoff_coords st2) in *.
  destruct (build_daily_sheets_chain _ _ _ _ Hc Hg Hm Hsh) as (Hlen & Hall).
  split; [| split; [| split]].
  - intros sheet Hin segs. assert (C := Hall sheet Hin). fold segs in C.
    split; [exact C |].
    assert (Hne : segs <> []).
    { intros E. rewrite E in C. simpl in C. discriminate. }
    split; [| split; [| split; [| split]]].
    + destruct segs as [| s0 l]; [contradiction |].
      exists s0. split; [reflexivity | apply C].
    + intros s. eapply chain_last; eauto.
    + intros s Hs'. destruct (chain_In _ _ _ _ _ _ C Hs') as (A1 & A2 & A3).
      auto.
    + intros i s1 s2 E1 E2. eapply chain_adjacent; eauto.
    + rewrite (chain_total_length _ _ _ _ _ C). lia.
  - assert (I2 : Inv st).
    { apply Inv_insert_on_duty_stop; [reflexivity | reflexivity |].
      eapply Inv_drive_leg; [| exact H2].
      apply Inv_insert_on_duty_stop; [reflexivity | reflexivity |].
      eapply Inv_drive_leg; [| exact H1].
      eapply Inv_initial_state; eauto. }
    destruct (fill_last_day_tail st) as (Ft & Fs).
    assert (Hd : exists before dropoff,
               stops st = before ++ [dropoff]
               /\ se_kind dropoff = DROPOFF
               /\ se_global_minute dropoff + se_duration dropoff
                  = global_minute st).
    { unfold st, at_dropoff, _insert_on_duty_stop.
      destruct (_ <? DROPOFF_DURATION); cbn [stops global_minute];
        eexists; eexists; (split; [reflexivity |]);
        (split; [reflexivity |]); reflexivity. }
    destruct Hd as (before & dropoff & Es & Ek & Eg).
    exists before, dropoff, (timeline st). rewrite Eg.
    assert (Hend := Inv_stops_ended _ I2).
    split; [now rewrite Hs, Fs |]. split; [exact Ek |].
    split; [exact (tl_contiguous _ _ (inv_timeline _ I2)) |].
    split; [now rewrite Ht |].
    split; [now rewrite Hs, Fs |].
    intros s e Hin He. rewrite Hs, Fs in Hin.
    rewrite Forall_forall in Hend. specialize (Hend s Hin).
    unfold tail_fill in He. destruct (0 <? _); [| contradiction].
    destruct He as [<- | []]. unfold meets. cbn [te_start te_end].
    replace (global_minute st <? se_global_minute s + se_duration s)
      with false by (symmetry; apply Z.ltb_ge; lia).
    reflexivity.
  - rewrite Hlen. exact Hc.
  - intros Hk e.
    assert (Hne : plan_timeline p <> []).
    { intros E. rewrite E in Hc. simpl in Hc. lia. }
    rewrite (chain_last _ _ _ _ _ e Hc Hne), <- Hlen.
    rewrite float_ceil_div_days by (unfold MINUTES_IN_DAY in *; lia).
    rewrite ceil_div_exact by (try reflexivity; apply Z.mod_mul; discriminate).
    now rewrite Z.div_mul by discriminate.
Qed.

End Sheets.

Lemma C8_witness :
  exists p,
    long_haul = Ok p
    /\ ((forall sheet, In sheet (daily_sheets p) ->
           let segs := ds_segments sheet in
           chain start_minute end_minute 0 segs MINUTES_IN_DAY
           /\ (exists first,
                  hd_error segs = Some first /\ start_minute first = 0)
           /\ (forall s, end_minute (last segs s) = MINUTES_IN_DAY)
           /\ (forall s, In s segs ->
                 0 <= start_minute s /\ start_minute s < end_minute s
                 /\ end_minute s <= MINUTES_IN_DAY)
           /\ (forall i s1 s2,
                 nth_error segs i = Some s1 ->
                 nth_error segs (S i) = Some s2 ->
                 end_minute s1 = start_minute s2)
           /\ total_length start_minute end_minute segs = MINUTES_IN_DAY)
        /\ (exists before dropoff tl,
               plan_stops p = before ++ [dropoff]
               /\ se_kind dropoff = DROPOFF
               /\ contiguous 0 tl
                    (se_global_minute dropoff + se_duration dropoff)
               /\ plan_timeline p
                  = tl ++ tail_fill (se_global_minute dropoff
                                     + se_duration dropoff)
               /\ Forall (fun s => se_global_minute s + se_duration s
                                   <= se_global_minute dropoff
                                      + se_duration dropoff)
                    (plan_stops p)
               /\ (forall s e,
                     In s (plan_stops p) ->
                     In e (tail_fill (se_global_minute dropoff
                                      + se_duration dropoff)) ->
                     meets s e = false))
        /\ contiguous 0 (plan_timeline p)
             (Z.of_nat (List.length (daily_sheets p)) * MINUTES_IN_DAY)
        /\ (Z.of_nat (List.length (daily_sheets p)) < 2 ^ 53 ->
            forall e,
              float_ceil_div (te_end (last (plan_timeline p) e))
                MINUTES_IN_DAY
              = Ok (Z.of_nat (List.length (daily_sheets p))))).
Proof.
  eexists. split.
  - vm_compute. reflexivity.
  - apply (C8_day_sheets_cover_the_day 739252 (lit 2504) 3489 (lit 0)
             "Pickup" "Dropoff" (zero, zero) (zero, zero) (Some 739403)
             None None None None).
    vm_compute. reflexivity.
Defined.

(** * The window, the cycle and the stops *)

(** ** Vocabulary *)

(** A property of every event of a list, given the events before it. *)
Definition every_event {A : Type} (P : list A -> A -> Prop) (l : list A)
  : Prop :=
  forall pre e post, l = pre ++ e :: post -> P pre e.

Lemma every_event_nil {A : Type} (P : list A -> A -> Prop) : every_event P [].
Proof. intros pre e post E. destruct pre; discriminate. Qed.

Lemma every_event_snoc {A : Type} (P : list A -> A -> Prop) (l : list A)
    (x : A) :
  every_event P l -> P l x -> every_event P (l ++ [x]).
Proof.
  intros Hl Hx pre e post E.
  change (pre ++ e :: post) with (pre ++ [e] ++ post) in E.
  rewrite app_assoc in E. apply snoc_split in E.
  destruct E as [(-> & E) | (post' & -> & ->)].
  - apply app_inj_tail in E. destruct E as (-> & ->). exact Hx.
  - apply (Hl pre e post'). now rewrite <- app_assoc.
Qed.

(** Minutes of a list of events. *)
Definition minutes_of (tl : list TimelineEvent) : Z :=
  total_length te_start te_end tl.

(** Minutes since the end of the last 600-minute [SLEEPER] event: the
    14-hour window runs on all of them. *)
Definition window_minutes (tl : list TimelineEvent) : Z :=
  minutes_of (current_span is_reset tl).

(** The statuses that count toward the 70-hour cycle. *)
Definition is_on_duty (e : TimelineEvent) : bool :=
  match te_status e with
  | DRIVING | ON_DUTY_NOT_DRIVING => true
  | OFF_DUTY | SLEEPER => false
  end.

(** Minutes on duty, driving or not. *)
Definition duty_minutes (tl : list TimelineEvent) : Z :=
  minutes_of (filter is_on_duty tl).

Lemma minutes_of_app (l1 l2 : list TimelineEvent) :
  minutes_of (l1 ++ l2) = minutes_of l1 + minutes_of l2.
Proof.
  unfold minutes_of, total_length. rewrite map_app.
  induction (map _ l1) as [| z l IH]; simpl; lia.
Qed.

Lemma minutes_of_one (e : TimelineEvent) : minutes_of [e] = duration e.
Proof. unfold minutes_of, total_length, duration; simpl; lia. Qed.

Lemma window_minutes_snoc (tl : list TimelineEvent) (e : TimelineEvent) :
  window_minutes (tl ++ [e]) =
  if is_reset e then 0 else window_minutes tl + duration e.
Proof.
  unfold window_minutes. rewrite current_span_snoc.
  destruct (is_reset e); [reflexivity |].
  now rewrite minutes_of_app, minutes_of_one.
Qed.

Lemma duty_minutes_snoc (tl : list TimelineEvent) (e : TimelineEvent) :
  duty_minutes (tl ++ [e]) =
  duty_minutes tl + (if is_on_duty e then duration e else 0).
Proof.
  unfold duty_minutes. rewrite filter_app, minutes_of_app. cbn [filter].
  destruct (is_on_duty e); [now rewrite minutes_of_one | reflexivity].
Qed.

(** The interval and status of a timeline event, and the ones a stop
    announces. *)
Definition event_block (e : TimelineEvent) : Z * Z * Status :=
  (te_start e, te_end e, te_status e).

Definition stop_block (s : StopEvent) : Z * Z * Status :=
  (se_global_minute s, se_global_minute s + se_duration s,
   covering_status (se_kind s)).

(** The stops the leg driver inserts on its own: their kind fixes their
    duration, and they carry no coordinates. *)
Definition inserted_stop (s : StopEvent) : Prop :=
  (se_kind s = BREAK_30 /\ se_duration s = BREAK_DURATION
   \/ se_kind s = OFF_DUTY_10 /\ se_duration s = OFF_DUTY_RESET
   \/ se_kind s = FUEL /\ se_duration s = FUEL_DURATION)
  /\ se_lat s = zero /\ se_lng s = zero.

(** Stops in chronological order between minutes [a] and [b], none
    starting before the one before it has ended. *)
Fixpoint in_order (a : Z) (l : list StopEvent) (b : Z) : Prop :=
  match l with
  | [] => a <= b
  | s :: rest =>
      a <= se_global_minute s /\ 0 < se_duration s
      /\ in_order (se_global_minute s + se_duration s) rest b
  end.

Lemma in_order_le (l : list StopEvent) (a b : Z) : in_order a l b -> a <= b.
Proof.
  revert a; induction l as [| s l IH]; simpl; intros a H; [exact H |].
  destruct H as (H1 & H2 & H3). apply IH in H3. lia.
Qed.

Lemma in_order_weaken (l : list StopEvent) (a b b' : Z) :
  in_order a l b -> b <= b' -> in_order a l b'.
Proof.
  revert a; induction l as [| s l IH]; simpl; intros a H Hb; [lia |].
  destruct H as (H1 & H2 & H3). eauto.
Qed.

Lemma in_order_app (l1 l2 : list StopEvent) (a b c : Z) :
  in_order a l1 b -> in_order b l2 c -> in_order a (l1 ++ l2) c.
Proof.
  revert a; induction l1 as [| s l1 IH]; simpl; intros a H1 H2.
  - destruct l2 as [| s2 l2]; simpl in *; [lia |].
    destruct H2 as (H2 & H3 & H4). repeat split; auto; lia.
  - destruct H1 as (Ha & Hd & H1). repeat split; eauto.
Qed.

Lemma in_order_pair (l : list StopEvent) (a b : Z) (i j : nat)
    (s1 s2 : StopEvent) :
  in_order a l b -> (i < j)%nat ->
  nth_error l i = Some s1 -> nth_error l j = Some s2 ->
  a <= se_global_minute s1 /\ 0 < se_duration s1
  /\ se_global_minute s1 + se_duration s1 <= se_global_minute s2
  /\ se_global_minute s2 + se_duration s2 <= b.
Proof.
  revert a i j; induction l as [| s l IH]; intros a i j H Hij H1 H2.
  - destruct i; discriminate.
  - destruct H as (Ha & Hd & H).
    destruct j as [| j]; [lia |]. cbn [nth_error] in H2.
    destruct i as [| i]; cbn [nth_error] in H1.
    + injection H1 as <-. split; [exact Ha |]. split; [exact Hd |].
      clear IH Hij. revert j H H2.
      generalize (se_global_minute s + se_duration s) as c.
      induction l as [| t l IHl]; intros c j H H2; [destruct j; discriminate |].
      destruct H as (Hc & Ht & H). destruct j as [| j]; cbn [nth_error] in H2.
      * injection H2 as <-. apply in_order_le in H. lia.
      * destruct (IHl _ _ H H2). lia.
    + destruct (IH _ i j H ltac:(lia) H1 H2) as (A1 & A2 & A3 & A4).
      repeat split; auto; lia.
Qed.

(** ** The ledger of the simulation

    The counters of the window and of the cycle agree with the timeline,
    [c0] being the cycle minutes at the start; every driving block fits
    in the window and in the cycle; and the stops are the timeline
    events other than driving, in order. *)

Definition not_driving (e : TimelineEvent) : bool := negb (is_driving e).

Definition driving_fits (c0 : Z) (pre : list TimelineEvent)
    (e : TimelineEvent) : Prop :=
  te_status e = DRIVING ->
  window_minutes pre + duration e <= WINDOW_LIMIT
  /\ c0 + duty_minutes pre + duration e <= CYCLE_LIMIT.

Definition on_duty_stop_fits (pre : list TimelineEvent) (e : TimelineEvent)
  : Prop :=
  te_status e = ON_DUTY_NOT_DRIVING -> duration e = PICKUP_DURATION ->
  window_minutes pre + duration e <= WINDOW_LIMIT.

Record Ledger (c0 : Z) (st : DriverState) : Prop := {
  led_window : window_minutes (timeline st) = on_duty_minutes st;
  led_cycle : c0 + duty_minutes (timeline st) = cycle_minutes st;
  led_driving : every_event (driving_fits c0) (timeline st);
  led_on_duty : every_event on_duty_stop_fits (timeline st);
  led_blocks :
    map stop_block (stops st)
    = map event_block (filter not_driving (timeline st));
  led_order : in_order 0 (stops st) (global_minute st)
}.

Lemma Ledger_step (c0 : Z) (st st' : DriverState) (e : TimelineEvent)
    (new_stops : list StopEvent) :
  Ledger c0 st ->
  timeline st' = timeline st ++ [e] ->
  stops st' = stops st ++ new_stops ->
  te_start e = global_minute st ->
  te_end e = global_minute st' ->
  global_minute st < global_minute st' ->
  on_duty_minutes st' =
    (if is_reset e then 0 else on_duty_minutes st + duration e) ->
  cycle_minutes st' =
    cycle_minutes st + (if is_on_duty e then duration e else 0) ->
  (te_status e = DRIVING ->
   on_duty_minutes st + duration e <= WINDOW_LIMIT
   /\ cycle_minutes st + duration e <= CYCLE_LIMIT) ->
  (te_status e = ON_DUTY_NOT_DRIVING -> duration e = PICKUP_DURATION ->
   on_duty_minutes st + duration e <= WINDOW_LIMIT) ->
  map stop_block new_stops = (if is_driving e then [] else [event_block e]) ->
  Ledger c0 st'.
Proof.
  intros [Hw Hc Hd Ho Hb Hord] Etl Est Es Ee Hlt Ew Ec Hdrv Hstop Hnew.
  split.
  - rewrite Etl, window_minutes_snoc, Hw. auto.
  - rewrite Etl, duty_minutes_snoc, <- Hc in *. lia.
  - rewrite Etl. apply every_event_snoc; [exact Hd |].
    intros D. rewrite Hw, Hc. destruct (Hdrv D). lia.
  - rewrite Etl. apply every_event_snoc; [exact Ho |].
    intros D1 D2. rewrite Hw. auto.
  - rewrite Etl, Est, map_app, filter_app, map_app, Hb, Hnew.
    cbn [filter].
    replace (not_driving e) with (negb (is_driving e)) by reflexivity.
    destruct (is_driving e); reflexivity.
  - rewrite Est.
    destruct (is_driving e).
    + destruct new_stops; [| discriminate]. rewrite app_nil_r.
      eapply in_order_weaken; [exact Hord | lia].
    + destruct new_stops as [| s [| s' l]]; try discriminate.
      cbn [map] in Hnew. injection Hnew as H1 H2 H3.
      eapply in_order_app; [exact Hord |].
      cbn [in_order]. lia.
Qed.

Lemma is_on_duty_mk (g d : Z) (s : Status) (l : string) (m : float) :
  is_on_duty (mkTimelineEvent g d s l m) =
  match s with DRIVING | ON_DUTY_NOT_DRIVING => true | _ => false end.
Proof. reflexivity. Qed.

Ltac step_ledger H :=
  eapply Ledger_step; try exact H; try reflexivity;
  autorewrite with events; cbn;
  unfold OFF_DUTY_RESET, BREAK_DURATION, FUEL_DURATION, PICKUP_DURATION,
    WINDOW_LIMIT, CYCLE_LIMIT in *;
  cbn; try lia; try discriminate; try reflexivity.

Lemma Ledger_insert_reset (c0 : Z) (st : DriverState) :
  Ledger c0 st -> Ledger c0 (_insert_reset st).
Proof. intros H. step_ledger H. Qed.

Lemma Ledger_insert_break (c0 : Z) (st : DriverState) (label : string) :
  Ledger c0 st -> Ledger c0 (_insert_break st label).
Proof. intros H. step_ledger H. Qed.

Lemma Ledger_insert_fuel_stop (c0 : Z) (st : DriverState) (label : string) :
  Ledger c0 st -> Ledger c0 (_insert_fuel_stop st label).
Proof. intros H. step_ledger H. Qed.

Lemma Ledger_insert_on_duty_stop (c0 : Z) (st : DriverState) (d : Z)
    (kind : StopKind) (label : string) (lat lng : float) :
  0 < d -> d <= WINDOW_LIMIT -> covering_status kind = ON_DUTY_NOT_DRIVING ->
  Ledger c0 st -> Ledger c0 (_insert_on_duty_stop st d kind label lat lng).
Proof.
  intros Hd Hd' Hk H. unfold _insert_on_duty_stop.
  destruct (Z.ltb_spec (WINDOW_LIMIT - on_duty_minutes st) d) as [E | E].
  - apply Ledger_insert_reset in H.
    eapply Ledger_step; try exact H; try reflexivity;
      autorewrite with events; cbn; try lia; try discriminate.
    unfold stop_block, event_block; cbn. now rewrite Hk.
  - eapply Ledger_step; try exact H; try reflexivity;
      autorewrite with events; cbn; try lia; try discriminate.
    unfold stop_block, event_block; cbn. now rewrite Hk.
Qed.

Lemma Ledger_drove (c0 : Z) (st st' : DriverState) (label : string) (d : Z)
    (cm : float) :
  Ledger c0 st -> 1 <= d ->
  d <= WINDOW_LIMIT - on_duty_minutes st ->
  d <= CYCLE_LIMIT - cycle_minutes st ->
  drove st label d cm st' -> Ledger c0 st'.
Proof.
  intros H H1 H2 H3 (Eg & _ & Ew & _ & Ec & Et & Es).
  eapply Ledger_step with (new_stops := []); try exact H; try exact Et;
    autorewrite with events; cbn; try rewrite app_nil_r; auto; try lia.
Qed.

Lemma Ledger_body (c0 : Z) (st : DriverState) (label : string) (rm : float)
    (rmin : Z) (st' : DriverState) (rm' : float) (rmin' : Z) :
  Ledger c0 st ->
  BodySpec st label rm rmin (LoopNext st' rm' rmin') -> Ledger c0 st'.
Proof.
  intros H B. inversion B; subst.
  - now apply Ledger_insert_reset.
  - now apply Ledger_insert_break.
  - now apply Ledger_insert_fuel_stop.
  - eapply Ledger_drove; eauto.
Qed.

(** The rule of the loop, with what holds when it is left: the minutes
    of the leg are driven, or the cycle is exhausted. *)
Lemma drive_leg_loop_exit (P : DriverState -> Z -> Prop) (label : string) :
  (forall st rm rmin st' rm' rmin',
      0 < rmin -> P st rmin ->
      BodySpec st label rm rmin (LoopNext st' rm' rmin') -> P st' rmin') ->
  forall passes st rm rmin st',
    P st rmin ->
    drive_leg_loop passes st label rm rmin = Ok st' ->
    exists rmin',
      P st' rmin' /\ (rmin' <= 0 \/ CYCLE_LIMIT <= cycle_minutes st').
Proof.
  intros Hstep passes. induction passes as [| n IH];
    intros st rm rmin st' HP H; cbn [drive_leg_loop] in H.
  - destruct (Z.ltb_spec 0 rmin); [discriminate |].
    apply Ok_inj in H. subst st'. exists rmin. split; [exact HP | lia].
  - destruct (Z.ltb_spec 0 rmin) as [Em | Em].
    + inv_bind H. apply drive_leg_body_spec in Ha; [| exact Em].
      destruct a as [| st1 rm1 rmin1].
      * apply Ok_inj in H. subst st'. exists rmin. split; [exact HP |].
        right. inversion Ha. lia.
      * eapply IH; [| exact H]. eapply Hstep; eauto.
    + apply Ok_inj in H. subst st'. exists rmin. split; [exact HP | lia].
Qed.

Lemma Ledger_drive_leg (c0 : Z) (st st' : DriverState) (miles : float)
    (minutes : Z) (label : string) :
  Ledger c0 st -> _drive_leg st miles minutes label = Ok st' -> Ledger c0 st'.
Proof.
  intros H E. unfold _drive_leg in E.
  destruct (drive_leg_loop_rule (fun s _ => Ledger c0 s) label) with
    (passes := leg_passes minutes) (st := st) (rm := miles)
    (rmin := minutes) (st' := st') as (_ & H'); auto.
  intros; eapply Ledger_body; eauto.
Qed.

Lemma Ledger_initial_state (c : float) (st : DriverState) :
  initial_state c = Ok st ->
  Ledger (cycle_minutes st) st /\ to_int (mul c (lit 60)) = Ok (cycle_minutes st).
Proof.
  unfold initial_state; intros H. inv_bind H. apply Ok_inj in H. subst st.
  split; [| exact Ha]. split; cbn.
  - reflexivity.
  - unfold duty_minutes, minutes_of, total_length; cbn; lia.
  - apply every_event_nil.
  - apply every_event_nil.
  - reflexivity.
  - lia.
Qed.

(** What [fill_last_day] appends: nothing, or one [OFF_DUTY] block that
    no stop announces. *)
Definition filler (st : DriverState) : list TimelineEvent :=
  let day_minute := global_minute st mod MINUTES_IN_DAY in
  if 0 <? day_minute
  then [mkTimelineEvent (global_minute st)
          (global_minute st + (MINUTES_IN_DAY - day_minute)) OFF_DUTY
          "Off Duty"%string zero]
  else [].

Lemma fill_last_day_filler (st : DriverState) :
  timeline (fill_last_day st) = timeline st ++ filler st
  /\ stops (fill_last_day st) = stops st.
Proof.
  unfold fill_last_day, filler. destruct (0 <? _); cbn.
  - auto.
  - now rewrite app_nil_r.
Qed.

Lemma every_event_filler {P : list TimelineEvent -> TimelineEvent -> Prop}
    (st : DriverState) :
  (forall pre e, te_status e = OFF_DUTY -> P pre e) ->
  every_event P (timeline st) -> every_event P (timeline st ++ filler st).
Proof.
  intros HP H. unfold filler. destruct (0 <? _).
  - apply every_event_snoc; [exact H |]. now apply HP.
  - now rewrite app_nil_r.
Qed.

Section PlanLedger.

Variables (today : date) (total_miles : float) (total_drive_minutes : Z)
  (cycle_used_hours : float) (pickup_label dropoff_label : string)
  (pickup_coords dropoff_coords : float * float) (start_date : option date)
  (leg1_miles : option float) (leg1_minutes : option Z)
  (leg2_miles : option float) (leg2_minutes : option Z).

Lemma plan_ledger (p : Plan) (legs : (float * Z) * (float * Z))
    (st0 st1 st2 : DriverState) :
  PlanRun today total_miles total_drive_minutes cycle_used_hours
    pickup_label dropoff_label pickup_coords dropoff_coords start_date
    leg1_miles leg1_minutes leg2_miles leg2_minutes legs st0 st1 st2 p ->
  let st := at_dropoff dropoff_label dropoff_coords st2 in
  Ledger (cycle_minutes st0) st
  /\ to_int (mul cycle_used_hours (lit 60)) = Ok (cycle_minutes st0)
  /\ plan_timeline p = timeline st ++ filler st
  /\ plan_stops p = stops st.
Proof.
  intros R st. destruct R as [Hi _ H1 H2 Ht Hs _ _ _].
  destruct (Ledger_initial_state _ _ Hi) as (L0 & Hc).
  destruct (fill_last_day_filler st) as (F1 & F2).
  fold st in Ht, Hs. rewrite Ht, Hs.
  refine (conj _ (conj Hc (conj F1 F2))).
  apply Ledger_insert_on_duty_stop; try reflexivity;
    [unfold DROPOFF_DURATION, WINDOW_LIMIT; lia |].
  eapply Ledger_drive_leg; [| exact H2].
  apply Ledger_insert_on_duty_stop; try reflexivity;
    [unfold PICKUP_DURATION, WINDOW_LIMIT; lia |].
  eapply Ledger_drive_leg; [| exact H1]. exact L0.
Qed.

(** X1.  Every DRIVING block of the plan, and the pickup and the dropoff
    (the 60-minute ON_DUTY_NOT_DRIVING blocks), ends within the 14-hour
    window: at most 840 minutes after the end of the last 10-hour reset,
    or after the start of the trip. *)
Theorem X1_driving_within_the_window (p : Plan) :
  compute_plan today total_miles total_drive_minutes cycle_used_hours
    pickup_label dropoff_label pickup_coords dropoff_coords start_date
    leg1_miles leg1_minutes leg2_miles leg2_minutes = Ok p ->
  forall pre e post,
    plan_timeline p = pre ++ e :: post ->
    te_status e = DRIVING
    \/ (te_status e = ON_DUTY_NOT_DRIVING /\ duration e = PICKUP_DURATION) ->
    window_minutes pre + duration e <= WINDOW_LIMIT.
Proof.
  intros H pre e post E Hs. apply compute_plan_run in H.
  destruct H as (legs & st0 & st1 & st2 & R).
  destruct (plan_ledger _ _ _ _ _ R) as (L & _ & Ht & _).
  rewrite Ht in E. destruct L as [_ _ Hd Ho _ _].
  destruct Hs as [D | (D1 & D2)].
  - apply (every_event_filler (P := driving_fits (cycle_minutes st0))) in Hd.
    + destruct (Hd _ _ _ E D) as (W & _). exact W.
    + intros ? ? S1 S2. congruence.
  - apply (every_event_filler (P := on_duty_stop_fits)) in Ho.
    + exact (Ho _ _ _ E D1 D2).
    + intros ? ? S1 S2. congruence.
Qed.

(** X2.  No DRIVING block takes the cycle past 70 hours: the minutes the
    cycle started with, plus the minutes on duty (DRIVING and
    ON_DUTY_NOT_DRIVING) up to the end of the block, are at most 4200. *)
Theorem X2_driving_within_the_cycle (p : Plan) :
  compute_plan today total_miles total_drive_minutes cycle_used_hours
    pickup_label dropoff_label pickup_coords dropoff_coords start_date
    leg1_miles leg1_minutes leg2_miles leg2_minutes = Ok p ->
  exists c0,
    to_int (mul cycle_used_hours (lit 60)) = Ok c0
    /\ forall pre e post,
         plan_timeline p = pre ++ e :: post -> te_status e = DRIVING ->
         c0 + duty_minutes pre + duration e <= CYCLE_LIMIT.
Proof.
  intros H. apply compute_plan_run in H.
  destruct H as (legs & st0 & st1 & st2 & R).
  destruct (plan_ledger _ _ _ _ _ R) as (L & Hc & Ht & _).
  exists (cycle_minutes st0). split; [exact Hc |].
  intros pre e post E D. rewrite Ht in E. destruct L as [_ _ Hd _ _ _].
  apply (every_event_filler (P := driving_fits (cycle_minutes st0))) in Hd.
  - destruct (Hd _ _ _ E D) as (_ & C). exact C.
  - intros ? ? S1 S2. congruence.
Qed.


(** ** What a leg leaves behind *)

Lemma cycle_body (st : DriverState) (label : string) (rm : float) (rmin : Z)
    (st' : DriverState) (rm' : float) (rmin' : Z) :
  BodySpec st label rm rmin (LoopNext st' rm' rmin') ->
  cycle_minutes st <= cycle_minutes st'.
Proof.
  intros B. inversion B; subst; cbn; unfold FUEL_DURATION; try lia.
  match goal with H : drove _ _ _ _ _ |- _ =>
    destruct H as (_ & _ & _ & _ & Ec & _) end. lia.
Qed.

(** A leg drives all its minutes unless the cycle runs out, and the
    cycle minutes never go down. *)
Lemma drive_leg_done (st st' : DriverState) (miles : float) (minutes : Z)
    (label : string) :
  _drive_leg st miles minutes label = Ok st' ->
  cycle_minutes st <= cycle_minutes st'
  /\ (driven_minutes (timeline st')
      = driven_minutes (timeline st) + Z.max 0 minutes
      \/ CYCLE_LIMIT <= cycle_minutes st').
Proof.
  intros E. unfold _drive_leg in E.
  destruct (drive_leg_loop_exit
              (fun s r => driven_minutes (timeline s) + Z.max 0 r
                          = driven_minutes (timeline st) + Z.max 0 minutes
                          /\ cycle_minutes st <= cycle_minutes s)
              label) with
    (passes := leg_passes minutes) (st := st) (rm := miles)
    (rmin := minutes) (st' := st') as (r & (H1 & H2) & H3); auto; try lia.
  intros s rm rmin s' rm' rmin' Hpos (HP & HC) B.
  destruct (driven_body _ _ _ _ _ _ _ Hpos B).
  assert (C := cycle_body _ _ _ _ _ _ _ B). lia.
Qed.

Lemma cycle_on_duty_stop (st : DriverState) (d : Z) (kind : StopKind)
    (label : string) (lat lng : float) :
  cycle_minutes (_insert_on_duty_stop st d kind label lat lng)
  = cycle_minutes st + d.
Proof.
  unfold _insert_on_duty_stop. destruct (_ <? d); reflexivity.
Qed.

Lemma duty_minutes_filler (st : DriverState) :
  duty_minutes (timeline st ++ filler st) = duty_minutes (timeline st).
Proof.
  unfold filler. destruct (0 <? _).
  - rewrite duty_minutes_snoc. cbn. lia.
  - now rewrite app_nil_r.
Qed.

(** The 30/70 split leaves to the second leg what the first does not
    take. *)
Lemma plan_legs_split (miles : float) (minutes : Z)
    (legs : (float * Z) * (float * Z)) :
  plan_legs miles minutes None None None None = Ok legs ->
  snd (fst legs) + snd (snd legs) = minutes
  /\ (0 <= minutes -> 0 <= snd (fst legs) <= minutes).
Proof.
  unfold plan_legs. intros H. inv_bind H. apply Ok_inj in H. subst legs.
  cbn [fst snd]. split; [lia |]. intros Hpos.
  inv_bind Ha. inv_bind Ha. apply Ok_inj in Ha. subst a. cbn [snd].
  eapply split_minutes_bounds; eauto.
Qed.

(** X4.  The stops are in chronological order and do not overlap: each
    one lasts a positive number of minutes and has ended when the next
    one starts, and none starts before the trip. *)
Theorem X4_stops_in_order (p : Plan) :
  compute_plan today total_miles total_drive_minutes cycle_used_hours
    pickup_label dropoff_label pickup_coords dropoff_coords start_date
    leg1_miles leg1_minutes leg2_miles leg2_minutes = Ok p ->
  forall i j s1 s2,
    (i < j)%nat ->
    nth_error (plan_stops p) i = Some s1 ->
    nth_error (plan_stops p) j = Some s2 ->
    0 <= se_global_minute s1 /\ 0 < se_duration s1
    /\ se_global_minute s1 + se_duration s1 <= se_global_minute s2.
Proof.
  intros H i j s1 s2 Hij E1 E2. apply compute_plan_run in H.
  destruct H as (legs & st0 & st1 & st2 & R).
  destruct (plan_ledger _ _ _ _ _ R) as (L & _ & _ & Hs).
  rewrite Hs in E1, E2.
  destruct (in_order_pair _ _ _ _ _ _ _ (led_order _ _ L) Hij E1 E2)
    as (A1 & A2 & A3 & _).
  auto.
Qed.

(** X6.  Every block of the timeline other than the DRIVING blocks and
    the Off Duty block that fills the last day is announced by a stop:
    the stops, taken as intervals with the status of their kind, are
    these blocks, one for one and in the same order. *)
Theorem X6_stops_are_the_other_blocks (p : Plan) :
  compute_plan today total_miles total_drive_minutes cycle_used_hours
    pickup_label dropoff_label pickup_coords dropoff_coords start_date
    leg1_miles leg1_minutes leg2_miles leg2_minutes = Ok p ->
  exists tl fill,
    plan_timeline p = tl ++ fill
    /\ (fill = []
        \/ exists a b,
             fill = [mkTimelineEvent a b OFF_DUTY "Off Duty"%string zero])
    /\ map stop_block (plan_stops p) = map event_block (filter not_driving tl).
Proof.
  intros H. apply compute_plan_run in H.
  destruct H as (legs & st0 & st1 & st2 & R).
  destruct (plan_ledger _ _ _ _ _ R) as (L & _ & Ht & Hs).
  eexists. eexists. split; [exact Ht |]. split.
  - unfold filler. destruct (0 <? _); [right | now left].
    do 2 eexists. reflexivity.
  - rewrite Hs. exact (led_blocks _ _ L).
Qed.

End PlanLedger.

(** X3.  Without leg overrides a trip is left incomplete only by an
    exhausted cycle: when [trip_completed] is false the cycle minutes,
    those it started with plus the minutes on duty of the plan, have
    reached 4200; and a completed trip of a non-negative
    [total_drive_minutes] drives exactly that many minutes. *)
Theorem X3_incomplete_only_by_the_cycle
    (today : date) (total_miles : float) (total_drive_minutes : Z)
    (cycle_used_hours : float) (pickup_label dropoff_label : string)
    (pickup_coords dropoff_coords : float * float) (start_date : option date)
    (p : Plan) :
  compute_plan today total_miles total_drive_minutes cycle_used_hours
    pickup_label dropoff_label pickup_coords dropoff_coords start_date
    None None None None = Ok p ->
  exists c0,
    to_int (mul cycle_used_hours (lit 60)) = Ok c0
    /\ (trip_completed p = false ->
        CYCLE_LIMIT <= c0 + duty_minutes (plan_timeline p))
    /\ (trip_completed p = true -> 0 <= total_drive_minutes ->
        driven_minutes (plan_timeline p) = total_drive_minutes
        /\ remaining_drive_minutes p = 0).
Proof.
  intros H. apply compute_plan_run in H.
  destruct H as (legs & st0 & st1 & st2 & R).
  destruct (plan_ledger _ _ _ _ _ _ _ _ _ _ _ _ _ _ _ _ _ _ R)
    as (L & Hc & Ht & _).
  destruct R as [Hi Hl H1 H2 Htl _ Hr Hcomp _].
  exists (cycle_minutes st0). split; [exact Hc |].
  destruct (plan_legs_split _ _ _ Hl) as (Hsum & Hsplit).
  assert (Hd : driven_minutes (plan_timeline p)
               = driven_minutes (timeline st2)).
  { rewrite Htl, driven_fill_last_day. unfold at_dropoff.
    now rewrite driven_on_duty_stop. }
  destruct (drive_leg_done _ _ _ _ _ H1) as (C1 & D1).
  destruct (drive_leg_done _ _ _ _ _ H2) as (C2 & D2).
  unfold at_pickup in C2, D2.
  rewrite cycle_on_duty_stop in C2. rewrite driven_on_duty_stop in D2.
  rewrite (driven_initial_state _ _ Hi) in D1.
  assert (Hcyc : cycle_minutes st0 + duty_minutes (plan_timeline p)
                 = cycle_minutes st2 + DROPOFF_DURATION).
  { rewrite Ht, duty_minutes_filler, (led_cycle _ _ L).
    unfold at_dropoff. apply cycle_on_duty_stop. }
  rewrite Hcomp, Hr, Hd. unfold PICKUP_DURATION, DROPOFF_DURATION in *.
  split.
  - intros Hf. apply Z.leb_gt in Hf.
    destruct D2 as [D2 | D2]; [| lia].
    destruct D1 as [D1 | D1]; lia.
  - intros Hf Hpos. apply Z.leb_le in Hf.
    assert (B1 := driven_drive_leg _ _ _ _ _ H1).
    assert (B2 := driven_drive_leg _ _ _ _ _ H2).
    unfold at_pickup in B2. rewrite driven_on_duty_stop in B2.
    rewrite (driven_initial_state _ _ Hi) in B1.
    specialize (Hsplit Hpos). lia.
Qed.

(** One hour is left in the cycle for 2512 minutes of driving. *)
Definition short_of_cycle : outcome Plan :=
  compute_plan 739252 (lit 1793) 2512 (lit 69) "Pickup" "Dropoff"
    (zero, zero) (zero, zero) (Some 739252) None None None None.

Lemma X1_witness :
  exists p, long_haul = Ok p /\
    forall pre e post,
      plan_timeline p = pre ++ e :: post ->
      te_status e = DRIVING
      \/ (te_status e = ON_DUTY_NOT_DRIVING /\ duration e = PICKUP_DURATION) ->
      window_minutes pre + duration e <= WINDOW_LIMIT.
Proof.
  eexists. split.
  - vm_compute. reflexivity.
  - apply (X1_driving_within_the_window 739252 (lit 2504) 3489 (lit 0)
             "Pickup" "Dropoff" (zero, zero) (zero, zero) (Some 739403)
             None None None None).
    vm_compute. reflexivity.
Defined.

Lemma X2_witness :
  exists p, short_of_cycle = Ok p /\
    exists c0,
      to_int (mul (lit 69) (lit 60)) = Ok c0
      /\ forall pre e post,
           plan_timeline p = pre ++ e :: post -> te_status e = DRIVING ->
           c0 + duty_minutes pre + duration e <= CYCLE_LIMIT.
Proof.
  eexists. split.
  - vm_compute. reflexivity.
  - apply (X2_driving_within_the_cycle 739252 (lit 1793) 2512 (lit 69)
             "Pickup" "Dropoff" (zero, zero) (zero, zero) (Some 739252)
             None None None None).
    vm_compute. reflexivity.
Defined.

Lemma X3_witness :
  exists p, short_of_cycle = Ok p /\
    exists c0,
      to_int (mul (lit 69) (lit 60)) = Ok c0
      /\ (trip_completed p = false ->
          CYCLE_LIMIT <= c0 + duty_minutes (plan_timeline p))
      /\ (trip_completed p = true -> 0 <= 2512 ->
          driven_minutes (plan_timeline p) = 2512
          /\ remaining_drive_minutes p = 0).
Proof.
  eexists. split.
  - vm_compute. reflexivity.
  - apply (X3_incomplete_only_by_the_cycle 739252 (lit 1793) 2512 (lit 69)
             "Pickup" "Dropoff" (zero, zero) (zero, zero) (Some 739252)).
    vm_compute. reflexivity.
Defined.

Lemma X4_witness :
  exists p, long_haul = Ok p /\
    forall i j s1 s2,
      (i < j)%nat ->
      nth_error (plan_stops p) i = Some s1 ->
      nth_error (plan_stops p) j = Some s2 ->
      0 <= se_global_minute s1 /\ 0 < se_duration s1
      /\ se_global_minute s1 + se_duration s1 <= se_global_minute s2.
Proof.
  eexists. split.
  - vm_compute. reflexivity.
  - apply (X4_stops_in_order 739252 (lit 2504) 3489 (lit 0)
             "Pickup" "Dropoff" (zero, zero) (zero, zero) (Some 739403)
             None None None None).
    vm_compute. reflexivity.
Defined.

Lemma X6_witness :
  exists p, long_haul = Ok p /\
    exists tl fill,
      plan_timeline p = tl ++ fill
      /\ (fill = []
          \/ exists a b,
               fill = [mkTimelineEvent a b OFF_DUTY "Off Duty"%string zero])
      /\ map stop_block (plan_stops p)
         = map event_block (filter not_driving tl).
Proof.
  eexists. split.
  - vm_compute. reflexivity.
  - apply (X6_stops_are_the_other_blocks 739252 (lit 2504) 3489 (lit 0)
             "Pickup" "Dropoff" (zero, zero) (zero, zero) (Some 739403)
             None None None None).
    vm_compute. reflexivity.
Defined.

(** ** The stops of a plan *)

Lemma inserted_reset (g : Z) :
  inserted_stop (mkStopEvent OFF_DUTY_10 g OFF_DUTY_RESET
                   "10-hour off-duty reset"%string zero zero).
Proof. split; auto. Qed.

Lemma inserted_break (g : Z) (label : string) :
  inserted_stop (mkStopEvent BREAK_30 g BREAK_DURATION label zero zero).
Proof. split; auto. Qed.

Lemma inserted_fuel (g : Z) (label : string) :
  inserted_stop (mkStopEvent FUEL g FUEL_DURATION label zero zero).
Proof. split; auto. Qed.

Lemma stops_body (st : DriverState) (label : string) (rm : float) (rmin : Z)
    (st' : DriverState) (rm' : float) (rmin' : Z) :
  BodySpec st label rm rmin (LoopNext st' rm' rmin') ->
  exists new, stops st' = stops st ++ new /\ Forall inserted_stop new.
Proof.
  intros B. inversion B; subst; cbn [stops _insert_reset _insert_break
                                       _insert_fuel_stop].
  - eexists; split; [reflexivity |].
    constructor; [apply inserted_reset | constructor].
  - eexists; split; [reflexivity |].
    constructor; [apply inserted_break | constructor].
  - eexists; split; [reflexivity |].
    constructor; [apply inserted_fuel | constructor].
  - match goal with H : drove _ _ _ _ _ |- _ =>
      destruct H as (_ & _ & _ & _ & _ & _ & Es) end.
    exists []. rewrite app_nil_r. auto.
Qed.

(** A leg appends breaks, resets and fuel stops only. *)
Lemma stops_drive_leg (st st' : DriverState) (miles : float) (minutes : Z)
    (label : string) :
  _drive_leg st miles minutes label = Ok st' ->
  exists new, stops st' = stops st ++ new /\ Forall inserted_stop new.
Proof.
  intros E. unfold _drive_leg in E.
  destruct (drive_leg_loop_rule
              (fun s _ => exists new, stops s = stops st ++ new
                                      /\ Forall inserted_stop new)
              label) with
    (passes := leg_passes minutes) (st := st) (rm := miles)
    (rmin := minutes) (st' := st') as (_ & H'); auto.
  - intros s rm rmin s' rm' rmin' _ (new & E1 & F1) B.
    destruct (stops_body _ _ _ _ _ _ _ B) as (new' & E2 & F2).
    exists (new ++ new'). rewrite E2, E1, app_assoc. split; [reflexivity |].
    apply Forall_app; auto.
  - exists []. now rewrite app_nil_r.
Qed.

(** A pickup or dropoff appends its stop, after a reset when one was
    needed. *)
Lemma stops_on_duty_stop (st : DriverState) (d : Z) (kind : StopKind)
    (label : string) (lat lng : float) :
  exists new t,
    stops (_insert_on_duty_stop st d kind label lat lng)
    = stops st ++ new ++ [mkStopEvent kind t d label lat lng]
    /\ Forall inserted_stop new.
Proof.
  unfold _insert_on_duty_stop. destruct (_ <? d); cbn [stops _insert_reset].
  - eexists [_], _. rewrite <- app_assoc. split; [reflexivity |].
    constructor; [apply inserted_reset | constructor].
  - exists [], (global_minute st). split; [reflexivity | constructor].
Qed.

Section PlanStops.

Variables (today : date) (total_miles : float) (total_drive_minutes : Z)
  (cycle_used_hours : float) (pickup_label dropoff_label : string)
  (pickup_coords dropoff_coords : float * float) (start_date : option date)
  (leg1_miles : option float) (leg1_minutes : option Z)
  (leg2_miles : option float) (leg2_minutes : option Z).

(** X5.  Every plan has one PICKUP stop and one DROPOFF stop, of 60
    minutes each and with the labels and coordinates of the call, the
    pickup first and the dropoff last of all stops; every other stop is
    a break, a reset or a fuel stop, with the duration of its kind (30,
    600, 30) and no coordinates. *)
Theorem X5_one_pickup_one_dropoff (p : Plan) :
  compute_plan today total_miles total_drive_minutes cycle_used_hours
    pickup_label dropoff_label pickup_coords dropoff_coords start_date
    leg1_miles leg1_minutes leg2_miles leg2_minutes = Ok p ->
  exists before between t1 t2,
    plan_stops p
    = before
      ++ mkStopEvent PICKUP t1 PICKUP_DURATION pickup_label
           (fst pickup_coords) (snd pickup_coords)
      :: between
      ++ [mkStopEvent DROPOFF t2 DROPOFF_DURATION dropoff_label
            (fst dropoff_coords) (snd dropoff_coords)]
    /\ Forall inserted_stop before /\ Forall inserted_stop between.
Proof.
  intros H. apply compute_plan_run in H.
  destruct H as (legs & st0 & st1 & st2 & [Hi _ H1 H2 _ Hs _ _ _]).
  destruct (fill_last_day_filler
              (at_dropoff dropoff_label dropoff_coords st2)) as (_ & F).
  rewrite F in Hs. unfold at_dropoff in Hs.
  destruct (stops_on_duty_stop st2 DROPOFF_DURATION DROPOFF dropoff_label
              (fst dropoff_coords) (snd dropoff_coords))
    as (n4 & t2 & E4 & F4).
  destruct (stops_drive_leg _ _ _ _ _ H2) as (n3 & E3 & F3).
  unfold at_pickup in E3.
  destruct (stops_on_duty_stop st1 PICKUP_DURATION PICKUP pickup_label
              (fst pickup_coords) (snd pickup_coords))
    as (n2 & t1 & E2 & F2).
  destruct (stops_drive_leg _ _ _ _ _ H1) as (n1 & E1 & F1).
  assert (E0 : stops st0 = []).
  { unfold initial_state in Hi. inv_bind Hi. apply Ok_inj in Hi.
    now subst st0. }
  exists (n1 ++ n2), (n3 ++ n4), t1, t2. split.
  - rewrite Hs, E4, E3, E2, E1, E0. cbn [app].
    repeat rewrite <- app_assoc. reflexivity.
  - split; apply Forall_app; auto.
Qed.

End PlanStops.

Lemma X5_witness :
  exists p, long_haul = Ok p /\
    exists before between t1 t2,
      plan_stops p
      = before
        ++ mkStopEvent PICKUP t1 PICKUP_DURATION "Pickup" zero zero
        :: between
        ++ [mkStopEvent DROPOFF t2 DROPOFF_DURATION "Dropoff" zero zero]
      /\ Forall inserted_stop before /\ Forall inserted_stop between.
Proof.
  eexists. split.
  - vm_compute. reflexivity.
  - apply (X5_one_pickup_one_dropoff 739252 (lit 2504) 3489 (lit 0)
             "Pickup" "Dropoff" (zero, zero) (zero, zero) (Some 739403)
             None None None None).
    vm_compute. reflexivity.
Defined.

(** ** Fuel stops *)

(** A DRIVING block of the timeline that starts after every fuel stop of
    [l] has ended. *)
Definition drove_since_fuel (tl : list TimelineEvent) (l : list StopEvent)
    (e : TimelineEvent) : Prop :=
  In e tl /\ te_status e = DRIVING
  /\ forall s, In s l -> se_kind s = FUEL ->
       se_global_minute s + se_duration s <= te_start e.

(** A fuel stop comes after a DRIVING block that the fuel stops before
    it precede. *)
Definition fuel_after_driving (tl : list TimelineEvent)
    (before : list StopEvent) (s : StopEvent) : Prop :=
  se_kind s = FUEL ->
  exists e, drove_since_fuel tl before e /\ te_end e <= se_global_minute s.

Record Tank (st : DriverState) : Prop := {
  tank_due :
    leb (lit FUEL_INTERVAL_MILES) (miles_since_fuel st) = true ->
    exists e, drove_since_fuel (timeline st) (stops st) e;
  tank_stops : every_event (fuel_after_driving (timeline st)) (stops st)
}.

Lemma drove_since_fuel_later (tl : list TimelineEvent) (l : list StopEvent)
    (e x : TimelineEvent) :
  drove_since_fuel tl l e -> drove_since_fuel (tl ++ [x]) l e.
Proof.
  intros (H1 & H2 & H3). split; [apply in_or_app; now left | auto].
Qed.

Lemma fuel_after_driving_later (tl : list TimelineEvent) (x : TimelineEvent)
    (l : list StopEvent) :
  every_event (fuel_after_driving tl) l ->
  every_event (fuel_after_driving (tl ++ [x])) l.
Proof.
  intros H pre s post E K. destruct (H pre s post E K) as (e & He & Hle).
  exists e. split; [now apply drove_since_fuel_later | exact Hle].
Qed.

Lemma in_order_In (l : list StopEvent) (a b : Z) (s : StopEvent) :
  in_order a l b -> In s l ->
  a <= se_global_minute s /\ se_global_minute s + se_duration s <= b.
Proof.
  revert a; induction l as [| t l IH]; intros a H Hin; [contradiction |].
  destruct H as (Ha & Hd & H). destruct Hin as [<- | Hin].
  - apply in_order_le in H. lia.
  - destruct (IH _ H Hin). lia.
Qed.

(** A stop other than a fuel stop, that leaves the miles alone. *)
Lemma Tank_quiet (st st' : DriverState) (e : TimelineEvent) (s : StopEvent) :
  Tank st ->
  timeline st' = timeline st ++ [e] ->
  stops st' = stops st ++ [s] ->
  se_kind s <> FUEL ->
  miles_since_fuel st' = miles_since_fuel st ->
  Tank st'.
Proof.
  intros [Hd Hs] Et Es Hk Em. split.
  - rewrite Em, Et, Es. intros D. destruct (Hd D) as (e0 & H1 & H2 & H3).
    exists e0. split; [apply in_or_app; now left |]. split; [exact H2 |].
    intros t Hin K. apply in_app_or in Hin. destruct Hin as [Hin | [<- | []]].
    + auto.
    + contradiction.
  - rewrite Et, Es. apply every_event_snoc.
    + now apply fuel_after_driving_later.
    + intros K. contradiction.
Qed.

Lemma Tank_insert_reset (st : DriverState) : Tank st -> Tank (_insert_reset st).
Proof.
  intros H. eapply Tank_quiet; try exact H; try reflexivity. discriminate.
Qed.

Lemma Tank_insert_break (st : DriverState) (label : string) :
  Tank st -> Tank (_insert_break st label).
Proof.
  intros H. eapply Tank_quiet; try exact H; try reflexivity. discriminate.
Qed.

Lemma Tank_insert_on_duty_stop (st : DriverState) (d : Z) (kind : StopKind)
    (label : string) (lat lng : float) :
  kind <> FUEL ->
  Tank st -> Tank (_insert_on_duty_stop st d kind label lat lng).
Proof.
  intros Hk H. unfold _insert_on_duty_stop.
  destruct (_ <? d).
  - apply Tank_insert_reset in H.
    eapply Tank_quiet; try exact H; try reflexivity. exact Hk.
  - eapply Tank_quiet; try exact H; try reflexivity. exact Hk.
Qed.

(** A fuel stop is inserted when the miles are due. *)
Lemma Tank_insert_fuel_stop (st : DriverState) (label : string) :
  Inv st ->
  leb (lit FUEL_INTERVAL_MILES) (miles_since_fuel st) = true ->
  Tank st -> Tank (_insert_fuel_stop st label).
Proof.
  intros I D [Hd Hs]. split.
  - cbn [miles_since_fuel _insert_fuel_stop]. intros F.
    vm_compute in F. discriminate.
  - cbn [timeline stops _insert_fuel_stop]. apply every_event_snoc.
    + now apply fuel_after_driving_later.
    + intros _. destruct (Hd D) as (e0 & H0). exists e0.
      split; [now apply drove_since_fuel_later |].
      cbn [se_global_minute]. destruct H0 as (Hin & _).
      destruct I as [[Hc _ _] _ _ _].
      destruct (chain_In _ _ _ _ _ _ Hc Hin) as (_ & _ & Hle). exact Hle.
Qed.

(** A driving block starts when every stop has ended. *)
Lemma Tank_drove (c0 : Z) (st st' : DriverState) (label : string) (d : Z)
    (cm : float) :
  Ledger c0 st -> Tank st -> drove st label d cm st' -> Tank st'.
Proof.
  intros L [Hd Hs] (_ & _ & _ & _ & _ & Et & Es). split.
  - intros _. rewrite Et, Es. eexists. split; [| split].
    + apply in_or_app; right; left; reflexivity.
    + reflexivity.
    + intros s Hin _. cbn [te_start].
      destruct (in_order_In _ _ _ _ (led_order _ _ L) Hin). lia.
  - rewrite Et, Es. now apply fuel_after_driving_later.
Qed.

Lemma Tank_body (c0 : Z) (st : DriverState) (label : string) (rm : float)
    (rmin : Z) (st' : DriverState) (rm' : float) (rmin' : Z) :
  Inv st -> Ledger c0 st -> Tank st ->
  BodySpec st label rm rmin (LoopNext st' rm' rmin') -> Tank st'.
Proof.
  intros I L T B. inversion B; subst.
  - now apply Tank_insert_reset.
  - now apply Tank_insert_break.
  - now apply Tank_insert_fuel_stop.
  - eapply Tank_drove; eauto.
Qed.

Lemma Tank_drive_leg (c0 : Z) (st st' : DriverState) (miles : float)
    (minutes : Z) (label : string) :
  Inv st -> Ledger c0 st -> Tank st ->
  _drive_leg st miles minutes label = Ok st' -> Tank st'.
Proof.
  intros I L T E. unfold _drive_leg in E.
  destruct (drive_leg_loop_rule
              (fun s _ => Inv s /\ Ledger c0 s /\ Tank s) label) with
    (passes := leg_passes minutes) (st := st) (rm := miles)
    (rmin := minutes) (st' := st') as (_ & _ & _ & H'); auto.
  intros s rm rmin s' rm' rmin' _ (I1 & L1 & T1) B.
  split; [eapply Inv_body; eauto |].
  split; [eapply Ledger_body; eauto | eapply Tank_body; eauto].
Qed.

Section PlanFuel.

Variables (today : date) (total_miles : float) (total_drive_minutes : Z)
  (cycle_used_hours : float) (pickup_label dropoff_label : string)
  (pickup_coords dropoff_coords : float * float) (start_date : option date)
  (leg1_miles : option float) (leg1_minutes : option Z)
  (leg2_miles : option float) (leg2_minutes : option Z).

(** X7.  A fuel stop is never the first thing that happens, and two
    fuel stops never come without driving in between: before every FUEL
    stop there is a DRIVING block that has ended when the stop starts
    and that starts after every earlier FUEL stop has ended. *)
Theorem X7_fuel_stops_follow_driving (p : Plan) :
  compute_plan today total_miles total_drive_minutes cycle_used_hours
    pickup_label dropoff_label pickup_coords dropoff_coords start_date
    leg1_miles leg1_minutes leg2_miles leg2_minutes = Ok p ->
  forall before s after,
    plan_stops p = before ++ s :: after -> se_kind s = FUEL ->
    exists e,
      In e (plan_timeline p) /\ te_status e = DRIVING
      /\ te_end e <= se_global_minute s
      /\ forall s', In s' before -> se_kind s' = FUEL ->
           se_global_minute s' + se_duration s' <= te_start e.
Proof.
  intros H before s after E K. apply compute_plan_run in H.
  destruct H as (legs & st0 & st1 & st2 & R).
  destruct (plan_ledger _ _ _ _ _ _ _ _ _ _ _ _ _ _ _ _ _ _ R)
    as (_ & _ & Ht & Hs).
  destruct R as [Hi _ H1 H2 _ _ _ _ _].
  destruct (Ledger_initial_state _ _ Hi) as (L0 & _).
  assert (I0 := Inv_initial_state _ _ Hi).
  assert (T0 : Tank st0).
  { unfold initial_state in Hi. inv_bind Hi. apply Ok_inj in Hi. subst st0.
    split; cbn.
    - intros F. vm_compute in F. discriminate.
    - apply every_event_nil. }
  assert (T1 := Tank_drive_leg _ _ _ _ _ _ I0 L0 T0 H1).
  assert (I1 := Inv_drive_leg _ _ _ _ _ I0 H1).
  assert (L1 := Ledger_drive_leg _ _ _ _ _ _ L0 H1).
  assert (T2 : Tank st2).
  { eapply Tank_drive_leg; [| | | exact H2].
    - apply Inv_insert_on_duty_stop; [reflexivity | reflexivity | exact I1].
    - apply Ledger_insert_on_duty_stop; try reflexivity; [| exact L1].
      unfold PICKUP_DURATION, WINDOW_LIMIT; lia.
    - apply Tank_insert_on_duty_stop; [discriminate | exact T1]. }
  assert (T3 : Tank (at_dropoff dropoff_label dropoff_coords st2)).
  { apply Tank_insert_on_duty_stop; [discriminate | exact T2]. }
  rewrite Hs in E.
  destruct (tank_stops _ T3 _ _ _ E K) as (e & (A1 & A2 & A3) & A4).
  exists e. rewrite Ht. split; [apply in_or_app; now left |]. auto.
Qed.

End PlanFuel.

Lemma X7_witness :
  exists p, long_haul = Ok p /\
    forall before s after,
      plan_stops p = before ++ s :: after -> se_kind s = FUEL ->
      exists e,
        In e (plan_timeline p) /\ te_status e = DRIVING
        /\ te_end e <= se_global_minute s
        /\ forall s', In s' before -> se_kind s' = FUEL ->
             se_global_minute s' + se_duration s' <= te_start e.
Proof.
  eexists. split.
  - vm_compute. reflexivity.
  - apply (X7_fuel_stops_follow_driving 739252 (lit 2504) 3489 (lit 0)
             "Pickup" "Dropoff" (zero, zero) (zero, zero) (Some 739403)
             None None None None).
    vm_compute. reflexivity.
Defined.

(** ** Stops are inserted only when a limit is reached *)

(** What the timeline shows at the minute a stop starts: a break comes
    when exactly eight hours have been driven since the last break or
    reset; a reset when the eleven hours of the duty period are driven,
    or when the window has less than an hour left. *)
Definition stop_due (tl : list TimelineEvent) (s : StopEvent) : Prop :=
  match se_kind s with
  | BREAK_30 =>
      exists pre e post,
        tl = pre ++ e :: post /\ te_start e = se_global_minute s
        /\ running_drive pre = BREAK_TRIGGER
  | OFF_DUTY_10 =>
      exists pre e post,
        tl = pre ++ e :: post /\ te_start e = se_global_minute s
        /\ (period_drive pre = DRIVE_LIMIT
            \/ WINDOW_LIMIT - PICKUP_DURATION < window_minutes pre)
  | FUEL | PICKUP | DROPOFF => True
  end.

Lemma stop_due_later (tl : list TimelineEvent) (x : TimelineEvent)
    (s : StopEvent) :
  stop_due tl s -> stop_due (tl ++ [x]) s.
Proof.
  unfold stop_due. destruct (se_kind s); auto;
    intros (pre & e & post & -> & H1 & H2);
    exists pre, e, (post ++ [x]); rewrite <- app_assoc; auto.
Qed.

Lemma stops_due_later (tl : list TimelineEvent) (x : TimelineEvent)
    (l : list StopEvent) :
  Forall (stop_due tl) l -> Forall (stop_due (tl ++ [x])) l.
Proof.
  intros H. eapply Forall_impl; [| exact H]. intros s. apply stop_due_later.
Qed.

Definition stops_due (st : DriverState) : Prop :=
  Forall (stop_due (timeline st)) (stops st).

Lemma stops_due_insert_reset (c0 : Z) (st : DriverState) :
  Inv st -> Ledger c0 st ->
  DRIVE_LIMIT <= drive_minutes st
  \/ WINDOW_LIMIT - PICKUP_DURATION < on_duty_minutes st ->
  stops_due st -> stops_due (_insert_reset st).
Proof.
  intros I L Hd H. unfold stops_due. cbn [timeline stops _insert_reset].
  apply Forall_app. split; [now apply stops_due_later |].
  constructor; [| constructor]. unfold stop_due. cbn [se_kind se_global_minute].
  eexists (timeline st), _, []. split; [reflexivity |]. split; [reflexivity |].
  destruct (Inv_bounds _ I) as (B1 & _).
  rewrite (inv_drive _ I), (led_window _ _ L). lia.
Qed.

Lemma stops_due_insert_break (st : DriverState) (label : string) :
  Inv st -> BREAK_TRIGGER <= cumulative_drive st ->
  stops_due st -> stops_due (_insert_break st label).
Proof.
  intros I Hd H. unfold stops_due. cbn [timeline stops _insert_break].
  apply Forall_app. split; [now apply stops_due_later |].
  constructor; [| constructor]. unfold stop_due. cbn [se_kind se_global_minute].
  eexists (timeline st), _, []. split; [reflexivity |]. split; [reflexivity |].
  destruct (Inv_bounds _ I) as (_ & B2).
  rewrite (inv_running _ I). lia.
Qed.

Lemma stops_due_insert_fuel_stop (st : DriverState) (label : string) :
  stops_due st -> stops_due (_insert_fuel_stop st label).
Proof.
  intros H. unfold stops_due. cbn [timeline stops _insert_fuel_stop].
  apply Forall_app. split; [now apply stops_due_later |].
  constructor; [exact I | constructor].
Qed.

Lemma stops_due_insert_on_duty_stop (c0 : Z) (st : DriverState)
    (kind : StopKind) (label : string) (lat lng : float) :
  kind = PICKUP \/ kind = DROPOFF ->
  Inv st -> Ledger c0 st ->
  stops_due st ->
  stops_due (_insert_on_duty_stop st PICKUP_DURATION kind label lat lng).
Proof.
  intros Hk I L H. unfold _insert_on_duty_stop.
  assert (Hs : forall st0, stops_due st0 ->
             stops_due
               {| global_minute := global_minute st0 + PICKUP_DURATION;
                  drive_minutes := drive_minutes st0;
                  on_duty_minutes := on_duty_minutes st0 + PICKUP_DURATION;
                  cumulative_drive := cumulative_drive st0;
                  cycle_minutes := cycle_minutes st0 + PICKUP_DURATION;
                  miles_since_fuel := miles_since_fuel st0;
                  timeline := timeline st0 ++
                    [mkTimelineEvent (global_minute st0)
                       (global_minute st0 + PICKUP_DURATION)
                       ON_DUTY_NOT_DRIVING label zero];
                  stops := stops st0 ++
                    [mkStopEvent kind (global_minute st0) PICKUP_DURATION
                       label lat lng] |}).
  { intros st0 H0. unfold stops_due. cbn [timeline stops].
    apply Forall_app. split; [now apply stops_due_later |].
    constructor; [| constructor]. unfold stop_due. cbn [se_kind].
    destruct Hk as [-> | ->]; exact Logic.I. }
  destruct (Z.ltb_spec (WINDOW_LIMIT - on_duty_minutes st) PICKUP_DURATION).
  - apply Hs. eapply stops_due_insert_reset; eauto. right. lia.
  - apply Hs. exact H.
Qed.

Lemma stops_due_body (c0 : Z) (st : DriverState) (label : string)
    (rm : float) (rmin : Z) (st' : DriverState) (rm' : float) (rmin' : Z) :
  Inv st -> Ledger c0 st -> stops_due st ->
  BodySpec st label rm rmin (LoopNext st' rm' rmin') -> stops_due st'.
Proof.
  intros I L H B. inversion B; subst.
  - eapply stops_due_insert_reset; eauto.
    unfold PICKUP_DURATION. lia.
  - apply stops_due_insert_break; auto.
  - now apply stops_due_insert_fuel_stop.
  - match goal with D : drove _ _ _ _ _ |- _ =>
      destruct D as (_ & _ & _ & _ & _ & Et & Es) end.
    unfold stops_due. rewrite Et, Es. now apply stops_due_later.
Qed.

Lemma stops_due_drive_leg (c0 : Z) (st st' : DriverState) (miles : float)
    (minutes : Z) (label : string) :
  Inv st -> Ledger c0 st -> stops_due st ->
  _drive_leg st miles minutes label = Ok st' -> stops_due st'.
Proof.
  intros I L T E. unfold _drive_leg in E.
  destruct (drive_leg_loop_rule
              (fun s _ => Inv s /\ Ledger c0 s /\ stops_due s) label) with
    (passes := leg_passes minutes) (st := st) (rm := miles)
    (rmin := minutes) (st' := st') as (_ & _ & _ & H'); auto.
  intros s rm rmin s' rm' rmin' _ (I1 & L1 & T1) B.
  split; [eapply Inv_body; eauto |].
  split; [eapply Ledger_body; eauto | eapply stops_due_body; eauto].
Qed.

Section PlanDue.

Variables (today : date) (total_miles : float) (total_drive_minutes : Z)
  (cycle_used_hours : float) (pickup_label dropoff_label : string)
  (pickup_coords dropoff_coords : float * float) (start_date : option date)
  (leg1_miles : option float) (leg1_minutes : option Z)
  (leg2_miles : option float) (leg2_minutes : option Z).

(** X16.  No break and no reset is inserted before it is due.  At the
    minute a BREAK_30 stop starts, exactly 480 minutes have been driven
    since the last break or reset; at the minute an OFF_DUTY_10 stop
    starts, the 660 minutes of the duty period are driven or more than
    780 minutes of the 14-hour window have passed (less than the hour a
    pickup or dropoff takes is left). *)
Theorem X16_stops_only_when_due (p : Plan) :
  compute_plan today total_miles total_drive_minutes cycle_used_hours
    pickup_label dropoff_label pickup_coords dropoff_coords start_date
    leg1_miles leg1_minutes leg2_miles leg2_minutes = Ok p ->
  forall s, In s (plan_stops p) ->
    (se_kind s = BREAK_30 ->
     exists pre e post,
       plan_timeline p = pre ++ e :: post
       /\ te_start e = se_global_minute s
       /\ running_drive pre = BREAK_TRIGGER)
    /\ (se_kind s = OFF_DUTY_10 ->
        exists pre e post,
          plan_timeline p = pre ++ e :: post
          /\ te_start e = se_global_minute s
          /\ (period_drive pre = DRIVE_LIMIT
              \/ WINDOW_LIMIT - PICKUP_DURATION < window_minutes pre)).
Proof.
  intros H s Hin. apply compute_plan_run in H.
  destruct H as (legs & st0 & st1 & st2 & R).
  destruct (plan_ledger _ _ _ _ _ _ _ _ _ _ _ _ _ _ _ _ _ _ R)
    as (_ & _ & Ht & Hs).
  destruct R as [Hi _ H1 H2 _ _ _ _ _].
  destruct (Ledger_initial_state _ _ Hi) as (L0 & _).
  assert (I0 := Inv_initial_state _ _ Hi).
  assert (T0 : stops_due st0).
  { unfold initial_state in Hi. inv_bind Hi. apply Ok_inj in Hi. subst st0.
    constructor. }
  assert (T1 := stops_due_drive_leg _ _ _ _ _ _ I0 L0 T0 H1).
  assert (I1 := Inv_drive_leg _ _ _ _ _ I0 H1).
  assert (L1 := Ledger_drive_leg _ _ _ _ _ _ L0 H1).
  assert (I1' : Inv (at_pickup pickup_label pickup_coords st1)).
  { apply Inv_insert_on_duty_stop; [reflexivity | reflexivity | exact I1]. }
  assert (L1' : Ledger (cycle_minutes st0)
                  (at_pickup pickup_label pickup_coords st1)).
  { apply Ledger_insert_on_duty_stop; try reflexivity; [| exact L1].
    unfold PICKUP_DURATION, WINDOW_LIMIT; lia. }
  assert (T1' : stops_due (at_pickup pickup_label pickup_coords st1)).
  { eapply stops_due_insert_on_duty_stop; eauto. }
  assert (T2 := stops_due_drive_leg _ _ _ _ _ _ I1' L1' T1' H2).
  assert (I2 := Inv_drive_leg _ _ _ _ _ I1' H2).
  assert (L2 := Ledger_drive_leg _ _ _ _ _ _ L1' H2).
  assert (T3 : stops_due (at_dropoff dropoff_label dropoff_coords st2)).
  { unfold at_dropoff.
    change DROPOFF_DURATION with PICKUP_DURATION.
    eapply stops_due_insert_on_duty_stop; eauto. }
  unfold stops_due in T3. rewrite <- Hs in T3.
  rewrite Forall_forall in T3. specialize (T3 s Hin).
  assert (D : stop_due (plan_timeline p) s).
  { rewrite Ht. unfold filler. destruct (0 <? _).
    - now apply stop_due_later.
    - now rewrite app_nil_r. }
  unfold stop_due in D. split; intros K; rewrite K in D; exact D.
Qed.

End PlanDue.

Lemma X16_witness :
  exists p, long_haul = Ok p /\
    forall s, In s (plan_stops p) ->
      (se_kind s = BREAK_30 ->
       exists pre e post,
         plan_timeline p = pre ++ e :: post
         /\ te_start e = se_global_minute s
         /\ running_drive pre = BREAK_TRIGGER)
      /\ (se_kind s = OFF_DUTY_10 ->
          exists pre e post,
            plan_timeline p = pre ++ e :: post
            /\ te_start e = se_global_minute s
            /\ (period_drive pre = DRIVE_LIMIT
                \/ WINDOW_LIMIT - PICKUP_DURATION < window_minutes pre)).
Proof.
  eexists. split.
  - vm_compute. reflexivity.
  - apply (X16_stops_only_when_due 739252 (lit 2504) 3489 (lit 0)
             "Pickup" "Dropoff" (zero, zero) (zero, zero) (Some 739403)
             None None None None).
    vm_compute. reflexivity.
Defined.

(** ** Exceptions *)





(** * Merging segments *)

Lemma Status_eqb_eq (a b : Status) : Status_eqb a b = true <-> a = b.
Proof. destruct a, b; cbn; split; intros H; congruence. Qed.

Lemma Status_eqb_refl (a : Status) : Status_eqb a a = true.
Proof. now apply Status_eqb_eq. Qed.

(** The test of [_merge_segments]: [b] has the status of [a] and
    starts where [a] ends. *)
Definition mergeable (a b : Segment) : bool :=
  Status_eqb (seg_status b) (seg_status a)
  && (start_minute b =? end_minute a).

(** No segment can be merged into the one before it. *)
Fixpoint fully_merged (l : list Segment) : Prop :=
  match l with
  | a :: (b :: _) as rest => mergeable a b = false /\ fully_merged rest
  | _ => True
  end.

Lemma fully_merged_snoc (l : list Segment) (a b : Segment) :
  fully_merged (l ++ [a]) -> mergeable a b = false ->
  fully_merged ((l ++ [a]) ++ [b]).
Proof.
  induction l as [| x l IH]; intros H Hm.
  - cbn. auto.
  - destruct l as [| y l]; cbn in *.
    + destruct H as (H & _). auto.
    + destruct H as (H & H'). split; [exact H |]. apply IH; auto.
Qed.

Lemma fully_merged_last (l : list Segment) (a a' : Segment) :
  fully_merged (l ++ [a]) ->
  seg_status a' = seg_status a -> start_minute a' = start_minute a ->
  fully_merged (l ++ [a']).
Proof.
  intros H Es Em. induction l as [| x l IH]; [exact I |].
  destruct l as [| y l]; cbn in *.
  - destruct H as (H & _). split; [| exact I].
    unfold mergeable in *. now rewrite Es, Em.
  - destruct H as (H & H'). split; [exact H |]. apply IH; auto.
Qed.

Lemma fully_merged_nth (l : list Segment) (i : nat) (a b : Segment) :
  fully_merged l ->
  nth_error l i = Some a -> nth_error l (S i) = Some b ->
  mergeable a b = false.
Proof.
  revert i; induction l as [| x l IH]; intros i H Ha Hb;
    [destruct i; discriminate |].
  destruct l as [| y l]; [destruct i as [| [| i]]; discriminate |].
  destruct H as (H & H'). destruct i as [| i].
  - cbn in Ha, Hb. injection Ha as <-. injection Hb as <-. exact H.
  - cbn [nth_error] in Ha. apply (IH i H' Ha Hb).
Qed.

Lemma merge_loop_fully_merged (segs : list Segment) :
  forall (init : list Segment) (cur : Segment),
    fully_merged (init ++ [cur]) ->
    fully_merged (merge_loop init cur segs).
Proof.
  induction segs as [| seg rest IH]; intros init cur H; cbn [merge_loop].
  - exact H.
  - fold (mergeable cur seg). destruct (mergeable cur seg) eqn:Hm.
    + apply IH. eapply fully_merged_last; [exact H | reflexivity..].
    + apply IH. now apply fully_merged_snoc.
Qed.

(** On a list in which nothing can be merged the loop is the identity. *)
Lemma merge_loop_id (segs : list Segment) :
  forall (init : list Segment) (cur : Segment),
    fully_merged (cur :: segs) ->
    merge_loop init cur segs = init ++ cur :: segs.
Proof.
  induction segs as [| seg rest IH]; intros init cur H; cbn [merge_loop].
  - reflexivity.
  - destruct H as (Hm & H). fold (mergeable cur seg). rewrite Hm.
    rewrite IH by exact H. now rewrite <- app_assoc.
Qed.

(** Minutes of a list of segments, and those of one status. *)
Definition segment_minutes (segs : list Segment) : Z :=
  total_length start_minute end_minute segs.

Definition has_status (s : Status) (seg : Segment) : bool :=
  Status_eqb (seg_status seg) s.

Definition status_minutes (s : Status) (segs : list Segment) : Z :=
  segment_minutes (filter (has_status s) segs).

Lemma segment_minutes_app (l1 l2 : list Segment) :
  segment_minutes (l1 ++ l2) = segment_minutes l1 + segment_minutes l2.
Proof.
  unfold segment_minutes, total_length. rewrite map_app.
  induction (map _ l1) as [| z l IH]; simpl; lia.
Qed.

Lemma status_minutes_app (s : Status) (l1 l2 : list Segment) :
  status_minutes s (l1 ++ l2) = status_minutes s l1 + status_minutes s l2.
Proof.
  unfold status_minutes. now rewrite filter_app, segment_minutes_app.
Qed.

Lemma status_minutes_cons (s : Status) (seg : Segment) (l : list Segment) :
  status_minutes s (seg :: l) =
  (if has_status s seg then end_minute seg - start_minute seg else 0)
  + status_minutes s l.
Proof.
  unfold status_minutes. cbn [filter].
  destruct (has_status s seg); [| lia].
  unfold segment_minutes, total_length. cbn. lia.
Qed.

Lemma merge_loop_status_minutes (s : Status) (segs : list Segment) :
  forall (init : list Segment) (cur : Segment),
    status_minutes s (merge_loop init cur segs)
    = status_minutes s (init ++ cur :: segs).
Proof.
  induction segs as [| seg rest IH]; intros init cur; cbn [merge_loop].
  - reflexivity.
  - destruct (Status_eqb (seg_status seg) (seg_status cur)) eqn:Es;
      cbn [andb].
    + destruct (Z.eqb_spec (start_minute seg) (end_minute cur)) as [Em | Em].
      * rewrite IH. rewrite !status_minutes_app, !status_minutes_cons.
        apply Status_eqb_eq in Es. unfold has_status. cbn. rewrite Es.
        destruct (Status_eqb (seg_status cur) s); lia.
      * rewrite IH, <- app_assoc. reflexivity.
    + rewrite IH, <- app_assoc. reflexivity.
Qed.

(** X8.  [_merge_segments] merges all there is to merge: in its result
    no segment has the status of the one before it and starts where
    that one ends, whatever the input; so merging a second time changes
    nothing. *)
Theorem X8_merge_segments_complete (segs : list Segment) :
  (forall i a b,
      nth_error (_merge_segments segs) i = Some a ->
      nth_error (_merge_segments segs) (S i) = Some b ->
      seg_status b <> seg_status a \/ start_minute b <> end_minute a)
  /\ _merge_segments (_merge_segments segs) = _merge_segments segs.
Proof.
  assert (F : fully_merged (_merge_segments segs)).
  { destruct segs as [| seg rest]; [exact I |].
    apply merge_loop_fully_merged. exact I. }
  split.
  - intros i a b Ha Hb.
    assert (M := fully_merged_nth _ _ _ _ F Ha Hb). unfold mergeable in M.
    apply andb_false_iff in M. destruct M as [M | M].
    + left. intros E. apply Status_eqb_eq in E. congruence.
    + right. now apply Z.eqb_neq.
  - destruct (_merge_segments segs) as [| a l] eqn:E; [reflexivity |].
    unfold _merge_segments at 1. now apply merge_loop_id.
Qed.

Lemma merge_loop_segment_minutes (segs : list Segment) :
  forall (init : list Segment) (cur : Segment),
    segment_minutes (merge_loop init cur segs)
    = segment_minutes (init ++ cur :: segs).
Proof.
  induction segs as [| seg rest IH]; intros init cur; cbn [merge_loop].
  - reflexivity.
  - destruct (Status_eqb (seg_status seg) (seg_status cur)); cbn [andb].
    + destruct (Z.eqb_spec (start_minute seg) (end_minute cur)) as [Em | Em].
      * rewrite IH. rewrite !segment_minutes_app.
        unfold segment_minutes, total_length. cbn. lia.
      * rewrite IH, <- app_assoc. reflexivity.
    + rewrite IH, <- app_assoc. reflexivity.
Qed.

Lemma merge_loop_length (segs : list Segment) :
  forall (init : list Segment) (cur : Segment),
    (List.length (merge_loop init cur segs)
     <= List.length init + 1 + List.length segs)%nat.
Proof.
  induction segs as [| seg rest IH]; intros init cur; cbn [merge_loop].
  - rewrite length_app. cbn. lia.
  - destruct (_ && _).
    + etransitivity; [apply IH |]. cbn. lia.
    + etransitivity; [apply IH |]. rewrite length_app. cbn. lia.
Qed.

Lemma merge_segments_status_minutes (s : Status) (segs : list Segment) :
  status_minutes s (_merge_segments segs) = status_minutes s segs.
Proof.
  destruct segs as [| seg rest]; [reflexivity |].
  apply merge_loop_status_minutes.
Qed.

(** X9.  [_merge_segments] keeps the minutes of every duty status, and
    so the minutes of the whole list, whatever the input; and it never
    returns more segments than it was given. *)
Theorem X9_merge_segments_keeps_minutes (segs : list Segment) :
  (forall s, status_minutes s (_merge_segments segs) = status_minutes s segs)
  /\ segment_minutes (_merge_segments segs) = segment_minutes segs
  /\ (List.length (_merge_segments segs) <= List.length segs)%nat.
Proof.
  split; [intros s; apply merge_segments_status_minutes |].
  destruct segs as [| seg rest]; [split; reflexivity |].
  unfold _merge_segments. split.
  - apply merge_loop_segment_minutes.
  - etransitivity; [apply merge_loop_length |]. cbn. lia.
Qed.

(** * The day sheets of a plan *)

Definition Zsum (l : list Z) : Z := fold_right Z.add 0 l.

Lemma Zsum_app (l1 l2 : list Z) : Zsum (l1 ++ l2) = Zsum l1 + Zsum l2.
Proof. unfold Zsum. induction l1 as [| z l IH]; simpl; lia. Qed.

Lemma Zsum_map_add {A : Type} (f g : A -> Z) (l : list A) :
  Zsum (map (fun a => f a + g a) l) = Zsum (map f l) + Zsum (map g l).
Proof. unfold Zsum. induction l as [| a l IH]; simpl; lia. Qed.

Lemma Zsum_map_zero {A : Type} (l : list A) : Zsum (map (fun _ => 0) l) = 0.
Proof. unfold Zsum. induction l as [| a l IH]; simpl; lia. Qed.

(** Minutes of the event that fall between minutes [a] and [b]. *)
Definition overlap (e : TimelineEvent) (a b : Z) : Z :=
  Z.max 0 (Z.min (te_end e) b - Z.max (te_start e) a).

(** Minutes of status [s] that the timeline has between [a] and [b]. *)
Definition overlap_minutes (s : Status) (tl : list TimelineEvent) (a b : Z)
  : Z :=
  Zsum (map (fun e => if Status_eqb (te_status e) s then overlap e a b else 0)
          tl).

(** Minutes of status [s] of the whole timeline. *)
Definition timeline_minutes (s : Status) (tl : list TimelineEvent) : Z :=
  minutes_of (filter (fun e => Status_eqb (te_status e) s) tl).

Lemma clip_status_minutes (s : Status) (ds de : Z)
    (events : list TimelineEvent) :
  status_minutes s (clip events ds de) = overlap_minutes s events ds de.
Proof.
  unfold overlap_minutes.
  induction events as [| e rest IH]; cbn [clip map Zsum fold_right];
    [reflexivity |].
  fold (Zsum (map (fun e => if Status_eqb (te_status e) s
                            then overlap e ds de else 0) rest)).
  rewrite <- IH. unfold overlap.
  destruct (Z.leb_spec (te_end e) ds) as [E1 | E1]; cbn [orb].
  { destruct (Status_eqb _ _); lia. }
  destruct (Z.leb_spec de (te_start e)) as [E2 | E2].
  { destruct (Status_eqb _ _); lia. }
  cbv zeta.
  destruct (Z.leb_spec (Z.min (te_end e) de - ds)
              (Z.max (te_start e) ds - ds)) as [E3 | E3].
  { destruct (Status_eqb _ _); lia. }
  rewrite status_minutes_cons. unfold has_status. cbn.
  destruct (Status_eqb _ _); lia.
Qed.

Lemma range_S (k : nat) :
  range (Z.of_nat (S k)) = range (Z.of_nat k) ++ [Z.of_nat k].
Proof.
  unfold range. rewrite !Nat2Z.id, seq_S, map_app. reflexivity.
Qed.

(** The minutes of an event over the first [k] days. *)
Lemma overlap_days (e : TimelineEvent) (k : nat) :
  te_start e <= te_end e ->
  Zsum (map (fun i => overlap e (i * MINUTES_IN_DAY)
                        (i * MINUTES_IN_DAY + MINUTES_IN_DAY))
          (range (Z.of_nat k)))
  = overlap e 0 (Z.of_nat k * MINUTES_IN_DAY).
Proof.
  intros Hle. induction k as [| k IH].
  - cbn. unfold overlap. lia.
  - rewrite range_S, map_app, Zsum_app, IH. cbn [map Zsum fold_right].
    unfold overlap, MINUTES_IN_DAY. lia.
Qed.

Lemma overlap_minutes_cons (s : Status) (e : TimelineEvent)
    (tl : list TimelineEvent) (a b : Z) :
  overlap_minutes s (e :: tl) a b
  = (if Status_eqb (te_status e) s then overlap e a b else 0)
    + overlap_minutes s tl a b.
Proof. reflexivity. Qed.

Lemma timeline_minutes_cons (s : Status) (e : TimelineEvent)
    (tl : list TimelineEvent) :
  timeline_minutes s (e :: tl)
  = (if Status_eqb (te_status e) s then duration e else 0)
    + timeline_minutes s tl.
Proof.
  unfold timeline_minutes. cbn [filter].
  destruct (Status_eqb (te_status e) s); [| lia].
  change (e :: ?l) with ([e] ++ l).
  now rewrite minutes_of_app, minutes_of_one.
Qed.

Lemma overlap_minutes_days (s : Status) (tl : list TimelineEvent) (g : Z)
    (k : nat) :
  chain te_start te_end 0 tl g -> g = Z.of_nat k * MINUTES_IN_DAY ->
  Zsum (map (fun i => overlap_minutes s tl (i * MINUTES_IN_DAY)
                        (i * MINUTES_IN_DAY + MINUTES_IN_DAY))
          (range (Z.of_nat k)))
  = timeline_minutes s tl.
Proof.
  intros Hc Hg.
  assert (Hall : forall e, In e tl -> 0 <= te_start e <= te_end e
                                      /\ te_end e <= g).
  { intros e He. destruct (chain_In _ _ _ _ _ _ Hc He). lia. }
  clear Hc.
  induction tl as [| e tl IH].
  - unfold overlap_minutes. cbn [map]. apply Zsum_map_zero.
  - erewrite map_ext; [| intros i; apply overlap_minutes_cons].
    rewrite Zsum_map_add, IH by (intros; apply Hall; now right).
    rewrite timeline_minutes_cons. f_equal.
    destruct (Hall e (or_introl eq_refl)) as (H1 & H2).
    destruct (Status_eqb (te_status e) s).
    + rewrite overlap_days by lia. rewrite <- Hg.
      unfold overlap, duration. lia.
    + apply Zsum_map_zero.
Qed.

Lemma for_each_map {A B C : Type} (f : A -> outcome B) (g : B -> C)
    (h : A -> C) (l : list A) :
  (forall a b, In a l -> f a = Ok b -> g b = h a) ->
  forall bs, for_each f l = Ok bs -> map g bs = map h l.
Proof.
  induction l as [| a l IH]; cbn [for_each]; intros Hf bs H.
  - apply Ok_inj in H. now subst bs.
  - inv_bind H. inv_bind H. apply Ok_inj in H. subst bs. cbn [map].
    f_equal; [apply Hf; [now left | assumption] |].
    apply IH; [| assumption]. intros x y Hx. apply Hf. now right.
Qed.

Lemma for_each_nth {A B : Type} (f : A -> outcome B) (l : list A) :
  forall bs i b,
    for_each f l = Ok bs -> nth_error bs i = Some b ->
    exists a, nth_error l i = Some a /\ f a = Ok b.
Proof.
  induction l as [| a l IH]; cbn [for_each]; intros bs i b H Hn.
  - apply Ok_inj in H. subst bs. destruct i; discriminate.
  - inv_bind H. inv_bind H. apply Ok_inj in H. subst bs.
    destruct i as [| i]; cbn [nth_error] in *.
    + injection Hn as <-. exists a. auto.
    + eapply IH; eauto.
Qed.

Lemma nth_error_range (n : Z) (i : nat) (a : Z) :
  nth_error (range n) i = Some a -> a = Z.of_nat i /\ Z.of_nat i < n.
Proof.
  unfold range. intros H. rewrite nth_error_map in H.
  destruct (nth_error (seq 0 (Z.to_nat n)) i) as [k |] eqn:E; [| discriminate].
  injection H as <-.
  assert (Hi : (i < Z.to_nat n)%nat).
  { rewrite <- (length_seq (Z.to_nat n) 0). apply nth_error_Some. congruence. }
  rewrite nth_error_nth' with (d := 0%nat) in E by now rewrite length_seq.
  rewrite seq_nth in E by exact Hi. injection E as <-. cbn. lia.
Qed.

(** The segments and the date of the sheet of a day. *)
Lemma day_sheet_spec (tl : list TimelineEvent) (d : date) (i : Z)
    (sheet : DaySheet) :
  day_sheet tl d i = Ok sheet ->
  ds_segments sheet
  = _merge_segments (clip tl (i * MINUTES_IN_DAY)
                       (i * MINUTES_IN_DAY + MINUTES_IN_DAY))
  /\ ds_date sheet = d + i
  /\ DATE_MIN_ORDINAL <= d + i <= DATE_MAX_ORDINAL.
Proof.
  unfold day_sheet. intros H. inv_bind H. inv_bind H.
  destruct a0 as (segs & m). apply Ok_inj in H. subst sheet.
  cbn [ds_segments ds_date].
  apply day_events_segments in Ha0. cbn [app] in Ha0. subst segs.
  split; [reflexivity |].
  unfold date_add_days in Ha.
  destruct (Z.leb_spec DATE_MIN_ORDINAL (d + i)); [| discriminate].
  destruct (Z.leb_spec (d + i) DATE_MAX_ORDINAL); [| discriminate].
  apply Ok_inj in Ha. subst a. split; [reflexivity | lia].
Qed.

Section PlanSheets.

Variables (today : date) (total_miles : float) (total_drive_minutes : Z)
  (cycle_used_hours : float) (pickup_label dropoff_label : string)
  (pickup_coords dropoff_coords : float * float) (start_date : option date)
  (leg1_miles : option float) (leg1_minutes : option Z)
  (leg2_miles : option float) (leg2_minutes : option Z).

(** The sheets of a plan, day by day. *)
Lemma plan_sheets (p : Plan) :
  compute_plan today total_miles total_drive_minutes cycle_used_hours
    pickup_label dropoff_label pickup_coords dropoff_coords start_date
    leg1_miles leg1_minutes leg2_miles leg2_minutes = Ok p ->
  let d := match start_date with None => today | Some d => d end in
  let n := List.length (daily_sheets p) in
  chain te_start te_end 0 (plan_timeline p) (Z.of_nat n * MINUTES_IN_DAY)
  /\ for_each (day_sheet (plan_timeline p) d) (range (Z.of_nat n))
     = Ok (daily_sheets p).
Proof.
  intros H d n. apply compute_plan_run in H.
  destruct H as (legs & st0 & st1 & st2 & R).
  destruct (plan_ok _ _ _ _ _ _ _ _ _ _ _ _ _ _ _ _ _ _ R)
    as ([Hc _ _] & _ & Hg & Hm).
  destruct R as [_ _ _ _ _ _ _ _ Hsh]. fold d in Hsh.
  destruct (build_daily_sheets_chain _ _ _ _ Hc Hg Hm Hsh) as (Hlen & _).
  fold n in Hlen. rewrite Hlen. split; [exact Hc |].
  unfold _build_daily_sheets in Hsh.
  destruct (plan_timeline p) as [| e tl'] eqn:Etl; [simpl in Hc; lia |].
  assert (Hlast : te_end (last (e :: tl') e) = Z.of_nat n * MINUTES_IN_DAY).
  { rewrite Hlen. eapply chain_last; [exact Hc | discriminate]. }
  rewrite Hlast, ceil_div_exact in Hsh
    by (try reflexivity; apply Z.mod_mul; discriminate).
  rewrite Z.div_mul in Hsh by discriminate. exact Hsh.
Qed.

(** X10.  The day sheets log the timeline minute for minute: the
    segments of the sheet of day [i] hold, for every duty status, the
    minutes the timeline spends in that status between minutes [1440 i]
    and [1440 (i + 1)]; and over all sheets the minutes of a status are
    those of the timeline, so the DRIVING minutes of the sheets are the
    minutes driven. *)
Theorem X10_sheets_log_the_timeline (p : Plan) :
  compute_plan today total_miles total_drive_minutes cycle_used_hours
    pickup_label dropoff_label pickup_coords dropoff_coords start_date
    leg1_miles leg1_minutes leg2_miles leg2_minutes = Ok p ->
  (forall s i sheet,
      nth_error (daily_sheets p) i = Some sheet ->
      status_minutes s (ds_segments sheet)
      = overlap_minutes s (plan_timeline p)
          (Z.of_nat i * MINUTES_IN_DAY) (Z.of_nat (S i) * MINUTES_IN_DAY))
  /\ (forall s,
        Zsum (map (fun sheet => status_minutes s (ds_segments sheet))
                (daily_sheets p))
        = timeline_minutes s (plan_timeline p))
  /\ Zsum (map (fun sheet => status_minutes DRIVING (ds_segments sheet))
             (daily_sheets p))
     = driven_minutes (plan_timeline p).
Proof.
  intros H. destruct (plan_sheets p H) as (Hc & Hsh).
  assert (Hday : forall s i sheet,
             day_sheet (plan_timeline p)
               (match start_date with None => today | Some d => d end) i
             = Ok sheet ->
             status_minutes s (ds_segments sheet)
             = overlap_minutes s (plan_timeline p) (i * MINUTES_IN_DAY)
                 (i * MINUTES_IN_DAY + MINUTES_IN_DAY)).
  { intros s i sheet Hs. apply day_sheet_spec in Hs. destruct Hs as (-> & _).
    now rewrite merge_segments_status_minutes, clip_status_minutes. }
  assert (Hsum : forall s,
             Zsum (map (fun sheet => status_minutes s (ds_segments sheet))
                     (daily_sheets p))
             = timeline_minutes s (plan_timeline p)).
  { intros s.
    rewrite (for_each_map _ _
               (fun i => overlap_minutes s (plan_timeline p)
                           (i * MINUTES_IN_DAY)
                           (i * MINUTES_IN_DAY + MINUTES_IN_DAY))
               _ (fun i sheet _ Hs => Hday s i sheet Hs) _ Hsh).
    eapply overlap_minutes_days; [exact Hc | reflexivity]. }
  split; [| split].
  - intros s i sheet Hn.
    destruct (for_each_nth _ _ _ _ _ Hsh Hn) as (a & Ha & Hs).
    apply nth_error_range in Ha. destruct Ha as (-> & _).
    rewrite (Hday s _ _ Hs). f_equal. unfold MINUTES_IN_DAY. lia.
  - exact Hsum.
  - rewrite Hsum. reflexivity.
Qed.

(** X11.  The sheets are dated day after day from the start date (the
    date of the call when none is given): the sheet of day [i] carries
    the date [i] days after it, a date [datetime.date] can hold. *)
Theorem X11_sheets_dated_day_after_day (p : Plan) :
  compute_plan today total_miles total_drive_minutes cycle_used_hours
    pickup_label dropoff_label pickup_coords dropoff_coords start_date
    leg1_miles leg1_minutes leg2_miles leg2_minutes = Ok p ->
  forall i sheet,
    nth_error (daily_sheets p) i = Some sheet ->
    ds_date sheet
    = match start_date with None => today | Some d => d end + Z.of_nat i
    /\ DATE_MIN_ORDINAL <= ds_date sheet <= DATE_MAX_ORDINAL.
Proof.
  intros H i sheet Hn. destruct (plan_sheets p H) as (_ & Hsh).
  destruct (for_each_nth _ _ _ _ _ Hsh Hn) as (a & Ha & Hs).
  apply nth_error_range in Ha. destruct Ha as (-> & _).
  apply day_sheet_spec in Hs. destruct Hs as (_ & Hd & Hr).
  rewrite Hd. auto.
Qed.

End PlanSheets.

Lemma X10_witness :
  exists p, long_haul = Ok p /\
    ((forall s i sheet,
         nth_error (daily_sheets p) i = Some sheet ->
         status_minutes s (ds_segments sheet)
         = overlap_minutes s (plan_timeline p)
             (Z.of_nat i * MINUTES_IN_DAY) (Z.of_nat (S i) * MINUTES_IN_DAY))
     /\ (forall s,
           Zsum (map (fun sheet => status_minutes s (ds_segments sheet))
                   (daily_sheets p))
           = timeline_minutes s (plan_timeline p))
     /\ Zsum (map (fun sheet => status_minutes DRIVING (ds_segments sheet))
                (daily_sheets p))
        = driven_minutes (plan_timeline p)).
Proof.
  eexists. split.
  - vm_compute. reflexivity.
  - apply (X10_sheets_log_the_timeline 739252 (lit 2504) 3489 (lit 0)
             "Pickup" "Dropoff" (zero, zero) (zero, zero) (Some 739403)
             None None None None).
    vm_compute. reflexivity.
Defined.

Lemma X11_witness :
  exists p, long_haul = Ok p /\
    forall i sheet,
      nth_error (daily_sheets p) i = Some sheet ->
      ds_date sheet = 739403 + Z.of_nat i
      /\ DATE_MIN_ORDINAL <= ds_date sheet <= DATE_MAX_ORDINAL.
Proof.
  eexists. split.
  - vm_compute. reflexivity.
  - apply (X11_sheets_dated_day_after_day 739252 (lit 2504) 3489 (lit 0)
             "Pickup" "Dropoff" (zero, zero) (zero, zero) (Some 739403)
             None None None None).
    vm_compute. reflexivity.
Defined.

(** * The totals and the remarks of a sheet *)

(** Minutes of the rows stored with status [key]. *)
Definition row_minutes (key : string) (rows : list SegmentRow) : Z :=
  Zsum (map (fun r => row_end_minute r - row_start_minute r)
          (filter (fun r => String.eqb (row_status r) key) rows)).

Definition known_status (r : SegmentRow) : bool :=
  existsb (String.eqb (row_status r)) DutyStatus_values.

Lemma row_minutes_cons (key : string) (r : SegmentRow)
    (rows : list SegmentRow) :
  row_minutes key (r :: rows)
  = (if String.eqb (row_status r) key
     then row_end_minute r - row_start_minute r else 0)
    + row_minutes key rows.
Proof.
  unfold row_minutes. cbn [filter].
  destruct (String.eqb (row_status r) key); [reflexivity | lia].
Qed.

(** The loop on a dictionary of the four statuses. *)
Lemma totals_loop_spec (rows : list SegmentRow) :
  forall a b c d : Z,
    totals_loop [("OFF_DUTY"%string, a); ("SLEEPER"%string, b);
                 ("DRIVING"%string, c); ("ON_DUTY_NOT_DRIVING"%string, d)]
      rows
    = if forallb known_status rows
      then Some [("OFF_DUTY"%string, a + row_minutes "OFF_DUTY" rows);
                 ("SLEEPER"%string, b + row_minutes "SLEEPER" rows);
                 ("DRIVING"%string, c + row_minutes "DRIVING" rows);
                 ("ON_DUTY_NOT_DRIVING"%string,
                  d + row_minutes "ON_DUTY_NOT_DRIVING" rows)]
      else None.
Proof.
  induction rows as [| r rows IH]; intros a b c d.
  - cbn. unfold row_minutes. cbn. now rewrite !Z.add_0_r.
  - cbn [totals_loop forallb]. rewrite !row_minutes_cons.
    unfold known_status at 1. cbn [existsb DutyStatus_values dict_add].
    rewrite !(String.eqb_sym (row_status r)).
    destruct (String.eqb_spec "OFF_DUTY" (row_status r)) as [E1 | E1].
    { rewrite <- ?E1. cbn [orb andb String.eqb Ascii.eqb Bool.eqb].
      rewrite IH. destruct (forallb known_status rows); [| reflexivity].
      now rewrite ?Z.add_0_l, ?Z.add_assoc. }
    destruct (String.eqb_spec "SLEEPER" (row_status r)) as [E2 | E2].
    { rewrite <- ?E2. cbn [orb andb String.eqb Ascii.eqb Bool.eqb].
      rewrite IH. destruct (forallb known_status rows); [| reflexivity].
      now rewrite ?Z.add_0_l, ?Z.add_assoc. }
    destruct (String.eqb_spec "DRIVING" (row_status r)) as [E3 | E3].
    { rewrite <- ?E3. cbn [orb andb String.eqb Ascii.eqb Bool.eqb].
      rewrite IH. destruct (forallb known_status rows); [| reflexivity].
      now rewrite ?Z.add_0_l, ?Z.add_assoc. }
    destruct (String.eqb_spec "ON_DUTY_NOT_DRIVING" (row_status r))
      as [E4 | E4].
    { rewrite <- ?E4. cbn [orb andb String.eqb Ascii.eqb Bool.eqb].
      rewrite IH. destruct (forallb known_status rows); [| reflexivity].
      now rewrite ?Z.add_0_l, ?Z.add_assoc. }
    reflexivity.
Qed.

(** The minutes of rows of known statuses are those of the four
    statuses together. *)
Lemma row_minutes_total (rows : list SegmentRow) :
  forallb known_status rows = true ->
  Zsum (map (fun key => row_minutes key rows) DutyStatus_values)
  = Zsum (map (fun r => row_end_minute r - row_start_minute r) rows).
Proof.
  induction rows as [| r rows IH]; intros H; [reflexivity |].
  cbn [forallb] in H. apply andb_prop in H. destruct H as (Hk & H).
  specialize (IH H). unfold Zsum in *.
  cbn [map DutyStatus_values fold_right] in *.
  rewrite !row_minutes_cons.
  unfold known_status in Hk. cbn [existsb DutyStatus_values] in Hk.
  destruct (String.eqb_spec (row_status r) "OFF_DUTY") as [E1 | E1];
    [rewrite ?E1; cbn; lia |].
  destruct (String.eqb_spec (row_status r) "SLEEPER") as [E2 | E2];
    [rewrite ?E2; cbn; lia |].
  destruct (String.eqb_spec (row_status r) "DRIVING") as [E3 | E3];
    [rewrite ?E3; cbn; lia |].
  destruct (String.eqb_spec (row_status r) "ON_DUTY_NOT_DRIVING")
    as [E4 | E4]; [rewrite ?E4; cbn; lia |].
  discriminate.
Qed.

Lemma get_totals_spec (rows : list SegmentRow) :
  get_totals rows
  = if forallb known_status rows
    then Some (map (fun key => (key, row_minutes key rows)) DutyStatus_values)
    else None.
Proof.
  unfold get_totals. cbn [map DutyStatus_values].
  rewrite totals_loop_spec. now rewrite !Z.add_0_l.
Qed.

(** X12.  [get_totals] returns the four duty statuses, in the order of
    [DutyStatus], each with the minutes of the segments stored under it,
    and these add up to the minutes of all segments; it raises
    [KeyError] as soon as one segment has another status. *)
Theorem X12_get_totals (rows : list SegmentRow) :
  get_totals rows
  = (if forallb known_status rows
     then Some (map (fun key => (key, row_minutes key rows)) DutyStatus_values)
     else None)
  /\ (forall totals,
        get_totals rows = Some totals ->
        Zsum (map snd totals)
        = Zsum (map (fun r => row_end_minute r - row_start_minute r) rows)).
Proof.
  split; [apply get_totals_spec |].
  intros totals H. rewrite get_totals_spec in H.
  destruct (forallb known_status rows) eqn:K; [| discriminate].
  injection H as <-. exact (row_minutes_total rows K).
Qed.

(** Consecutive remarks differ in status, the first one from [s]. *)
Fixpoint status_changes (s : option string) (l : list Remark) : Prop :=
  match l with
  | [] => True
  | r :: rest =>
      match s with
      | Some s' => remark_status r <> s'
      | None => True
      end
      /\ status_changes (Some (remark_status r)) rest
  end.

Lemma remarks_loop_changes (rows : list SegmentRow) :
  forall prev : option SegmentRow,
    status_changes (option_map row_status prev) (remarks_loop prev rows).
Proof.
  induction rows as [| row rows IH]; intros prev; [exact I |].
  cbn [remarks_loop]. destruct prev as [p |].
  - destruct (String.eqb_spec (row_status row) (row_status p)) as [E | E];
      cbn [negb].
    + specialize (IH (Some row)). cbn [option_map] in *.
      now rewrite <- E.
    + cbn [status_changes option_map]. split; [exact E |].
      apply (IH (Some row)).
  - cbn [status_changes option_map]. split; [exact I |].
    apply (IH (Some row)).
Qed.

Lemma status_changes_nth (l : list Remark) (s : option string) (i : nat)
    (r1 r2 : Remark) :
  status_changes s l ->
  nth_error l i = Some r1 -> nth_error l (S i) = Some r2 ->
  remark_status r2 <> remark_status r1.
Proof.
  revert s i; induction l as [| x l IH]; intros s i H H1 H2;
    [destruct i; discriminate |].
  destruct H as (_ & H). destruct i as [| i].
  - cbn in H1. injection H1 as <-.
    destruct l as [| y l]; [discriminate |]. cbn in H2. injection H2 as <-.
    destruct H as (H & _). exact H.
  - cbn [nth_error] in H1. eapply IH; eauto.
Qed.

Lemma remarks_loop_In (rows : list SegmentRow) :
  forall (prev : option SegmentRow) (r : Remark),
    In r (remarks_loop prev rows) ->
    exists row, In row rows /\ r = remark_of row.
Proof.
  induction rows as [| row rows IH]; intros prev r H; [contradiction |].
  cbn [remarks_loop] in H.
  destruct (match prev with
            | None => true
            | Some p => negb (String.eqb (row_status row) (row_status p))
            end).
  - destruct H as [<- | H]; [exists row; split; [now left | reflexivity] |].
    destruct (IH _ _ H) as (x & Hx & ->). exists x. split; [now right | auto].
  - destruct (IH _ _ H) as (x & Hx & ->). exists x. split; [now right | auto].
Qed.

(** X14.  [get_remarks] on any list of segments: the first segment
    always gets a remark, every remark is the remark of one of the
    segments, and two consecutive remarks never carry the same
    status. *)
Theorem X14_get_remarks_changes (rows : list SegmentRow) :
  hd_error (get_remarks rows) = option_map remark_of (hd_error rows)
  /\ (forall r, In r (get_remarks rows) ->
        exists row, In row rows /\ r = remark_of row)
  /\ (forall i r1 r2,
        nth_error (get_remarks rows) i = Some r1 ->
        nth_error (get_remarks rows) (S i) = Some r2 ->
        remark_status r2 <> remark_status r1).
Proof.
  split; [| split].
  - destruct rows; reflexivity.
  - apply remarks_loop_In.
  - intros i r1 r2. apply status_changes_nth with (s := None).
    apply (remarks_loop_changes rows None).
Qed.

(** ** The segments of a sheet *)

Section PlanSegments.

Variables (today : date) (total_miles : float) (total_drive_minutes : Z)
  (cycle_used_hours : float) (pickup_label dropoff_label : string)
  (pickup_coords dropoff_coords : float * float) (start_date : option date)
  (leg1_miles : option float) (leg1_minutes : option Z)
  (leg2_miles : option float) (leg2_minutes : option Z).

(** The segments of a sheet of a plan. *)
Lemma plan_sheet_segments (p : Plan) (sheet : DaySheet) :
  compute_plan today total_miles total_drive_minutes cycle_used_hours
    pickup_label dropoff_label pickup_coords dropoff_coords start_date
    leg1_miles leg1_minutes leg2_miles leg2_minutes = Ok p ->
  In sheet (daily_sheets p) ->
  chain start_minute end_minute 0 (ds_segments sheet) MINUTES_IN_DAY
  /\ fully_merged (ds_segments sheet).
Proof.
  intros H Hin. destruct (plan_sheets _ _ _ _ _ _ _ _ _ _ _ _ _ p H)
    as (Hc & Hsh).
  destruct (for_each_In _ _ _ _ Hsh Hin) as (i & Hi & Hs).
  apply In_range in Hi. split.
  - refine (day_sheet_chain _ _ _ i sheet Hc _ _ Hs); [lia |].
    unfold MINUTES_IN_DAY. lia.
  - apply day_sheet_spec in Hs. destruct Hs as (-> & _).
    destruct (clip _ _ _) as [| seg rest]; [exact I |].
    apply merge_loop_fully_merged. exact I.
Qed.

(** X15.  Every segment of a day sheet is a change of duty status: in
    the segments of every sheet of a plan the start minutes increase
    strictly and two consecutive segments never have the same status. *)
Theorem X15_sheet_segments_change_status (p : Plan) :
  compute_plan today total_miles total_drive_minutes cycle_used_hours
    pickup_label dropoff_label pickup_coords dropoff_coords start_date
    leg1_miles leg1_minutes leg2_miles leg2_minutes = Ok p ->
  forall sheet, In sheet (daily_sheets p) ->
    forall i s1 s2,
      nth_error (ds_segments sheet) i = Some s1 ->
      nth_error (ds_segments sheet) (S i) = Some s2 ->
      start_minute s1 < start_minute s2
      /\ seg_status s1 <> seg_status s2.
Proof.
  intros H sheet Hin i s1 s2 N1 N2.
  destruct (plan_sheet_segments p sheet H Hin) as (Hc & Hm).
  assert (Adj := chain_adjacent _ _ _ _ _ _ _ _ Hc N1 N2).
  assert (In1 : In s1 (ds_segments sheet)) by (eapply nth_error_In; eauto).
  destruct (chain_In _ _ _ _ _ _ Hc In1) as (_ & Hlt & _).
  split; [lia |].
  assert (M := fully_merged_nth _ _ _ _ Hm N1 N2). unfold mergeable in M.
  rewrite <- Adj, Z.eqb_refl, andb_true_r in M.
  intros Ev. rewrite Ev, Status_eqb_refl in M. discriminate.
Qed.

End PlanSegments.

Lemma X15_witness :
  exists p, long_haul = Ok p /\
    forall sheet, In sheet (daily_sheets p) ->
      forall i s1 s2,
        nth_error (ds_segments sheet) i = Some s1 ->
        nth_error (ds_segments sheet) (S i) = Some s2 ->
        start_minute s1 < start_minute s2
        /\ seg_status s1 <> seg_status s2.
Proof.
  eexists. split.
  - vm_compute. reflexivity.
  - apply (X15_sheet_segments_change_status 739252 (lit 2504) 3489 (lit 0)
             "Pickup" "Dropoff" (zero, zero) (zero, zero) (Some 739403)
             None None None None).
    vm_compute. reflexivity.
Defined.

(** * Rounding, in general

    What [binary_round_aux] returns for any mantissa, exponent and
    location: the mantissa is shifted to the exponent of the format,
    rounded to nearest even, and shifted once more when the rounding
    carried into a 54th digit. *)

Lemma fexp_eq (x : Z) : fexp prec emax x = Z.max (x - 53) (-1074).
Proof. reflexivity. Qed.

Lemma Zdigits2_nonneg (m : Z) : 0 <= Zdigits2 m.
Proof. destruct m; simpl; lia. Qed.

Lemma Zdigits2_bounds (m : Z) :
  0 < m -> 2 ^ (Zdigits2 m - 1) <= m < 2 ^ Zdigits2 m.
Proof.
  intros H. destruct m as [| p | p]; try lia. apply digits2_pos_bounds.
Qed.

Lemma Zdigits2_le (m k : Z) : 0 <= m -> 0 <= k -> m < 2 ^ k -> Zdigits2 m <= k.
Proof.
  intros Hm Hk H. destruct m as [| p | p]; try lia; [simpl; lia |].
  destruct (digits2_pos_bounds p) as (B & _). cbn [Zdigits2].
  destruct (Z_le_gt_dec (Zpos (digits2_pos p)) k) as [L | L]; [exact L |].
  assert (2 ^ k <= 2 ^ (Zpos (digits2_pos p) - 1))
    by (apply Z.pow_le_mono_r; lia).
  lia.
Qed.

Lemma Zdigits2_gt (m k : Z) : 0 <= k -> 2 ^ k <= m -> k < Zdigits2 m.
Proof.
  intros Hk H. assert (0 < 2 ^ k) by (apply Z.pow_pos_nonneg; lia).
  destruct m as [| p | p]; try lia. now apply digits2_pos_lower.
Qed.

Lemma pow2_pos (k : Z) : 0 <= k -> 0 < 2 ^ k.
Proof. intros; apply Z.pow_pos_nonneg; lia. Qed.

(** ** Shifting right *)

Lemma shr_spec (r : shr_record) (e n : Z) :
  0 <= shr_m r ->
  shr_m (fst (shr r e n)) = shr_m r / 2 ^ Z.max 0 n
  /\ snd (shr r e n) = e + Z.max 0 n.
Proof.
  intros H. destruct n as [| p | p].
  - cbn. rewrite Z.div_1_r. split; [reflexivity | lia].
  - replace (Z.max 0 (Zpos p)) with (Zpos p) by lia.
    apply shr_m_shr; [exact H | lia].
  - cbn. rewrite Z.div_1_r. split; [reflexivity | lia].
Qed.

Lemma shr_1_zero : shr_1 (Build_shr_record 0 false false)
                   = Build_shr_record 0 false false.
Proof. reflexivity. Qed.

Lemma iter_pos_shr_zero (t : positive) :
  SpecFloat.iter_pos shr_1 t (Build_shr_record 0 false false)
  = Build_shr_record 0 false false.
Proof.
  induction t as [t IH | t IH |]; cbn [SpecFloat.iter_pos].
  - now rewrite shr_1_zero, IH, IH.
  - now rewrite IH, IH.
  - reflexivity.
Qed.

(** A shift that drops zeros only leaves the location exact. *)
Lemma shr_exact (M e n : Z) :
  0 <= M -> M mod 2 ^ Z.max 0 n = 0 ->
  fst (shr (Build_shr_record M false false) e n)
  = Build_shr_record (M / 2 ^ Z.max 0 n) false false.
Proof.
  intros HM Hmod. destruct n as [| p | p].
  - cbn. now rewrite Z.div_1_r.
  - replace (Z.max 0 (Zpos p)) with (Zpos p) in * by lia. cbn [shr fst].
    assert (Hp : 0 < 2 ^ Zpos p) by (apply pow2_pos; lia).
    assert (E : M = M / 2 ^ Zpos p * 2 ^ Zpos p).
    { rewrite (Z.div_mod M (2 ^ Zpos p)) at 1 by lia. lia. }
    destruct (Z.eq_dec (M / 2 ^ Zpos p) 0) as [Z0 | NZ].
    + rewrite Z0 in *. rewrite E. cbn [Z.mul]. apply iter_pos_shr_zero.
    + rewrite E at 1. apply iter_pos_shr_exact.
      assert (0 <= M / 2 ^ Zpos p) by (apply Z.div_pos; lia). lia.
  - cbn. now rewrite Z.div_1_r.
Qed.

Lemma fexp_succ (x : Z) : fexp prec emax (x + 1) <= fexp prec emax x + 1.
Proof. rewrite !fexp_eq. lia. Qed.

Lemma fexp_mono (x y : Z) : x <= y -> fexp prec emax x <= fexp prec emax y.
Proof. rewrite !fexp_eq. lia. Qed.

(** The result of rounding, from the mantissa and exponent it ends with. *)
Definition rounded (s : bool) (m e : Z) : float :=
  match m with
  | Z0 => S754_zero s
  | Zpos p => if e <=? emax - prec then S754_finite s p e else S754_infinity s
  | Zneg _ => S754_nan
  end.

Lemma binary_round_aux_spec (s : bool) (M E : Z) (l : location) :
  0 <= M ->
  let n := Z.max 0 (fexp prec emax (Zdigits2 M + E) - E) in
  exists m2 m3 e3,
    binary_round_aux prec emax s M E l = rounded s m3 e3
    /\ M / 2 ^ n <= m2 <= M / 2 ^ n + 1
    /\ (l = loc_Exact -> M mod 2 ^ n = 0 -> m2 = M / 2 ^ n)
    /\ (e3 = E + n \/ (e3 = E + n + 1 /\ m3 = 2 ^ 52))
    /\ m3 * 2 ^ (e3 - (E + n)) = m2
    /\ 0 <= m3
    /\ (0 <= fexp prec emax (Zdigits2 M + E) - E -> 0 < m3 ->
        fexp prec emax (Zdigits2 m3 + e3) = e3).
Proof.
  intros HM n. set (d := Zdigits2 M) in *.
  set (n0 := fexp prec emax (d + E) - E) in *.
  assert (Hn : 0 <= n) by (unfold n; lia).
  assert (Hpn : 0 < 2 ^ n) by (apply pow2_pos; exact Hn).
  unfold binary_round_aux, shr_fexp. fold d. fold n0.
  destruct (shr_spec (shr_record_of_loc M l) E n0) as (S1 & S2);
    [rewrite shr_m_of_loc; exact HM |].
  rewrite shr_m_of_loc in S1. fold n in S1, S2.
  assert (Hex : l = loc_Exact -> M mod 2 ^ n = 0 ->
                fst (shr (shr_record_of_loc M l) E n0)
                = Build_shr_record (M / 2 ^ n) false false).
  { intros -> Hmod. cbn [shr_record_of_loc]. now apply shr_exact. }
  destruct (shr (shr_record_of_loc M l) E n0) as (mrs1, e1).
  cbn [fst snd] in S1, S2, Hex. subst e1.
  set (m1 := M / 2 ^ n) in *.
  assert (Hm1 : 0 <= m1) by (apply Z.div_pos; lia).
  set (m2 := round_nearest_even (shr_m mrs1) (loc_of_shr_record mrs1)).
  assert (Hm2 : m1 <= m2 <= m1 + 1).
  { unfold m2. rewrite <- S1. apply round_nearest_even_bounds. }
  assert (Hm2x : l = loc_Exact -> M mod 2 ^ n = 0 -> m2 = m1).
  { intros Hl Hmod. unfold m2. rewrite (Hex Hl Hmod). reflexivity. }
  clearbody m2. clear Hex S1 mrs1.
  set (n2 := fexp prec emax (Zdigits2 m2 + (E + n)) - (E + n)).
  (* the first shift leaves at most 53 digits *)
  assert (Hd : 0 < M -> 2 ^ (d - 1) <= M < 2 ^ d)
    by (intros; now apply Zdigits2_bounds).
  assert (Hd0 : 0 <= d) by apply Zdigits2_nonneg.
  assert (Hn2 : n2 <= 0 \/ (n2 = 1 /\ m2 = 2 ^ 53 /\ 0 <= n0)).
  { destruct (Z_lt_le_dec n0 0) as [Neg | Pos].
    - left. assert (n = 0) by (unfold n; lia).
      assert (m1 = M) by (unfold m1; rewrite H; apply Z.div_1_r).
      assert (Zdigits2 m2 <= d + 1).
      { destruct (Z.eq_dec M 0) as [-> | NZ].
        - apply Zdigits2_le; simpl in *; lia.
        - apply Zdigits2_le; try lia.
          destruct (Hd ltac:(lia)) as (_ & B).
          rewrite Z.pow_add_r by lia. simpl (2 ^ 1). lia. }
      unfold n2, n0 in *. rewrite fexp_eq in *. lia.
    - assert (n = n0) by (unfold n; lia).
      assert (B53 : m1 < 2 ^ 53).
      { destruct (Z.eq_dec M 0) as [M0 | NZ].
        - unfold m1. rewrite M0. cbn. lia.
        - destruct (Hd ltac:(lia)) as (_ & B).
          unfold m1. apply Z.div_lt_upper_bound; [lia |].
          rewrite <- Z.pow_add_r by lia.
          eapply Z.lt_le_trans; [exact B |].
          apply Z.pow_le_mono_r; [lia |].
          unfold n0 in *. rewrite fexp_eq in *. lia. }
      destruct (Z.eq_dec m2 (2 ^ 53)) as [Top | Low].
      + right. split; [| split; [exact Top | exact Pos]].
        unfold n2. rewrite Top. change (Zdigits2 (2 ^ 53)) with 54.
        unfold n0 in *. rewrite fexp_eq in *. lia.
      + left. assert (Zdigits2 m2 <= 53) by (apply Zdigits2_le; lia).
        unfold n2, n0 in *. rewrite fexp_eq in *. lia. }
  destruct (shr_spec (shr_record_of_loc m2 loc_Exact) (E + n) n2) as (T1 & T2);
    [rewrite shr_m_of_loc; lia |].
  rewrite shr_m_of_loc in T1. fold n2.
  destruct (shr (shr_record_of_loc m2 loc_Exact) (E + n) n2) as (mrs3, e3).
  cbn [fst snd] in T1, T2.
  exists m2, (shr_m mrs3), e3.
  split; [unfold rounded; destruct (shr_m mrs3); reflexivity |].
  split; [exact Hm2 |]. split; [exact Hm2x |].
  destruct Hn2 as [Hle | (H1 & Htop & Hpos)].
  - replace (Z.max 0 n2) with 0 in * by lia.
    rewrite Z.div_1_r in T1. rewrite T1, T2.
    replace (E + n + 0 - (E + n)) with 0 by lia.
    split; [left; lia |]. split; [simpl; lia |]. split; [lia |].
    intros Hpos Hm3. rewrite Z.add_0_r.
    assert (n = n0) by (unfold n; lia).
    (* canonical: the exponent is the one of the format *)
    assert (Hge : E + n <= fexp prec emax (Zdigits2 m2 + (E + n))).
    { unfold n0 in *. rewrite !fexp_eq in *.
      destruct (Z_le_gt_dec (d + E - 53) (-1074)) as [Sub | Nor]; [lia |].
      (* normal range: [m2] has 53 digits *)
      assert (HMpos : 0 < M).
      { destruct (Z.eq_dec M 0) as [M0 | NZ]; [| lia].
        assert (d = 0) by (unfold d; rewrite M0; reflexivity). lia. }
      destruct (Hd HMpos) as (B & _).
      assert (n = d - 53) by lia.
      assert (2 ^ 52 <= m1).
      { unfold m1. apply Z.div_le_lower_bound; [lia |].
        rewrite <- Z.pow_add_r by lia.
        replace (n + 52) with (d - 1) by lia. exact B. }
      assert (52 < Zdigits2 m2) by (apply Zdigits2_gt; lia).
      lia. }
    unfold n2 in Hle. lia.
  - rewrite H1 in *. change (Z.max 0 1) with 1 in *.
    rewrite T1, T2, Htop.
    replace (E + n + 1 - (E + n)) with 1 by lia.
    change (2 ^ 53 / 2 ^ 1) with 4503599627370496.
    split; [right; split; [lia | reflexivity] |].
    split; [reflexivity |]. split; [lia |].
    intros _ _. change (Zdigits2 4503599627370496) with 53.
    assert (n = n0) by (unfold n; lia).
    unfold n0 in *. rewrite !fexp_eq in *. lia.
Qed.

(** ** Values of finite floats, compared

    [vle m e m0 e0]: the value [m * 2^e] is at most [m0 * 2^e0]. *)

Definition vle (m e m0 e0 : Z) : Prop :=
  m * 2 ^ (e - Z.min e e0) <= m0 * 2 ^ (e0 - Z.min e e0).

Lemma vle_at (m e m0 e0 k : Z) :
  k <= e -> k <= e0 ->
  vle m e m0 e0 <-> m * 2 ^ (e - k) <= m0 * 2 ^ (e0 - k).
Proof.
  intros H1 H2. unfold vle. set (j := Z.min e e0).
  assert (Hj : k <= j) by (unfold j; lia).
  assert (Hp : 0 < 2 ^ (j - k)) by (apply pow2_pos; lia).
  replace (e - k) with ((e - j) + (j - k)) by lia.
  replace (e0 - k) with ((e0 - j) + (j - k)) by lia.
  rewrite !Z.pow_add_r by (unfold j; lia).
  rewrite !Z.mul_assoc.
  generalize (m * 2 ^ (e - j)) (m0 * 2 ^ (e0 - j)) (2 ^ (j - k)) Hp.
  intros a b p Pp. split; intros H; nia.
Qed.

Lemma vle_elim (m e m0 e0 k : Z) :
  vle m e m0 e0 -> k <= e -> k <= e0 ->
  m * 2 ^ (e - k) <= m0 * 2 ^ (e0 - k).
Proof. intros H H1 H2. now apply (vle_at m e m0 e0 k H1 H2). Qed.

Lemma vle_intro (m e m0 e0 k : Z) :
  k <= e -> k <= e0 ->
  m * 2 ^ (e - k) <= m0 * 2 ^ (e0 - k) -> vle m e m0 e0.
Proof. intros H1 H2 H. now apply (vle_at m e m0 e0 k H1 H2). Qed.

Lemma vle_refl (m e : Z) : vle m e m e.
Proof. unfold vle. lia. Qed.

(** A smaller value has no more digits above the point. *)
Lemma vle_binade (m e m0 e0 : Z) :
  0 < m -> 0 < m0 -> vle m e m0 e0 ->
  Zdigits2 m + e <= Zdigits2 m0 + e0.
Proof.
  intros Hm Hm0 H. set (k := Z.min e e0).
  apply (vle_elim _ _ _ _ k) in H; try (unfold k; lia).
  destruct (Zdigits2_bounds m Hm) as (B1 & _).
  destruct (Zdigits2_bounds m0 Hm0) as (_ & B2).
  assert (D1 : 0 <= Zdigits2 m - 1).
  { destruct m; try lia. cbn [Zdigits2]. lia. }
  assert (D2 : 0 <= Zdigits2 m0) by apply Zdigits2_nonneg.
  assert (P1 : 0 < 2 ^ (e - k)) by (apply pow2_pos; unfold k; lia).
  assert (P2 : 0 < 2 ^ (e0 - k)) by (apply pow2_pos; unfold k; lia).
  assert (L : 2 ^ (Zdigits2 m - 1 + (e - k)) < 2 ^ (Zdigits2 m0 + (e0 - k))).
  { rewrite !Z.pow_add_r by (unfold k; lia).
    assert (2 ^ (Zdigits2 m - 1) * 2 ^ (e - k) <= m * 2 ^ (e - k))
      by (apply Z.mul_le_mono_nonneg_r; lia).
    assert (m0 * 2 ^ (e0 - k) < 2 ^ Zdigits2 m0 * 2 ^ (e0 - k))
      by (apply Z.mul_lt_mono_pos_r; lia).
    lia. }
  apply Z.pow_lt_mono_r_iff in L; unfold k in *; lia.
Qed.

(** The mantissa and exponent of a float of the format. *)
Definition canonical (m e : Z) : Prop :=
  fexp prec emax (Zdigits2 m + e) = e.

Lemma canonical_digits (m e : Z) : canonical m e -> Zdigits2 m <= 53.
Proof. unfold canonical. rewrite fexp_eq. lia. Qed.

Lemma bounded_canonical (m : positive) (e : Z) :
  bounded prec emax m e = true <-> canonical (Zpos m) e /\ e <= 971.
Proof.
  unfold bounded, canonical_mantissa, canonical. cbn [Zdigits2].
  rewrite andb_true_iff, Z.eqb_eq, Z.leb_le. reflexivity.
Qed.

(** Rounding an exact value that a float of the format bounds: the
    result is at most that float. *)
Lemma round_exact_le (s : bool) (M E m0 e0 : Z) :
  0 < M -> 0 <= fexp prec emax (Zdigits2 M + E) - E ->
  0 < m0 -> canonical m0 e0 ->
  vle M E m0 e0 ->
  exists m3 e3,
    binary_round_aux prec emax s M E loc_Exact = rounded s m3 e3
    /\ 0 <= m3 /\ (0 < m3 -> canonical m3 e3)
    /\ vle m3 e3 m0 e0 /\ e3 <= e0.
Proof.
  intros HM Hn0 Hm0 Hc H.
  destruct (binary_round_aux_spec s M E loc_Exact ltac:(lia))
    as (m2 & m3 & e3 & R & Hm2 & Hx & He3 & Hv & Hm3 & Hcan).
  set (n := Z.max 0 (fexp prec emax (Zdigits2 M + E) - E)) in *.
  assert (Hn : n = fexp prec emax (Zdigits2 M + E) - E) by (unfold n; lia).
  assert (Hn' : 0 <= n) by lia.
  exists m3, e3. split; [exact R |]. split; [exact Hm3 |].
  split; [intros; now apply Hcan |].
  assert (Hb := vle_binade _ _ _ _ HM Hm0 H).
  assert (He1 : E + n <= e0).
  { replace (E + n) with (fexp prec emax (Zdigits2 M + E)) by lia.
    unfold canonical in Hc. rewrite <- Hc. now apply fexp_mono. }
  apply (vle_elim _ _ _ _ E) in H; try lia. rewrite Z.sub_diag, Z.mul_1_r in H.
  assert (Hpn : 0 < 2 ^ n) by (apply pow2_pos; lia).
  set (B := m0 * 2 ^ (e0 - (E + n))).
  assert (HB : m0 * 2 ^ (e0 - E) = B * 2 ^ n).
  { unfold B. rewrite <- Z.mul_assoc, <- Z.pow_add_r by lia.
    now replace (e0 - (E + n) + n) with (e0 - E) by lia. }
  rewrite HB in H.
  assert (Hm1 : M / 2 ^ n * 2 ^ n <= M).
  { rewrite Z.mul_comm. apply Z.mul_div_le. exact Hpn. }
  assert (Hle : m2 <= B).
  { destruct (Z.eq_dec m2 (M / 2 ^ n)) as [-> | Hne].
    - apply (Z.mul_le_mono_pos_r _ _ (2 ^ n)); lia.
    - assert (m2 = M / 2 ^ n + 1) by lia.
      assert (Hlt : M / 2 ^ n < B).
      { destruct (Z_lt_le_dec (M / 2 ^ n) B) as [L | G]; [exact L |].
        exfalso. apply Hne, Hx; [reflexivity |].
        assert (EM : M = B * 2 ^ n) by nia.
        rewrite EM. apply Z.mod_mul. lia. }
      lia. }
  assert (Hj : 0 <= e3 - (E + n)) by lia.
  split.
  - apply (vle_intro _ _ _ _ (E + n)); lia.
  - destruct He3 as [-> | (-> & Hm3')]; [exact He1 |].
    replace (E + n + 1 - (E + n)) with 1 in Hv by lia.
    (* a carry: [m2] is [2^53], above every mantissa of the format *)
    destruct (Z.eq_dec e0 (E + n)) as [Eq | Ne]; [| lia].
    exfalso. unfold B in Hle. rewrite Eq, Z.sub_diag, Z.mul_1_r in Hle.
    assert (D0 := canonical_digits _ _ Hc).
    destruct (Zdigits2_bounds m0 Hm0) as (_ & B0).
    assert (2 ^ Zdigits2 m0 <= 2 ^ 53) by (apply Z.pow_le_mono_r; lia).
    rewrite Hm3' in Hv. change (2 ^ 52 * 2 ^ 1) with (2 ^ 53) in Hv. lia.
Qed.

(** Rounding a value below [2^1023]: no overflow, and at most one more
    digit above the point. *)
Lemma round_finite (s : bool) (M E : Z) (l : location) :
  0 <= M -> Zdigits2 M + E <= 1023 -> E <= 970 ->
  exists m3 e3,
    binary_round_aux prec emax s M E l = rounded s m3 e3
    /\ 0 <= m3 /\ e3 <= 971
    /\ (0 < m3 -> Zdigits2 m3 + e3 <= Z.max (Zdigits2 M + E + 1) (-1073))
    /\ (0 <= fexp prec emax (Zdigits2 M + E) - E -> 0 < m3 ->
        canonical m3 e3).
Proof.
  intros HM Hd HE.
  destruct (binary_round_aux_spec s M E l HM)
    as (m2 & m3 & e3 & R & Hm2 & _ & He3 & Hv & Hm3 & Hcan).
  set (d := Zdigits2 M) in *.
  set (n := Z.max 0 (fexp prec emax (d + E) - E)) in *.
  assert (Hn : 0 <= n) by (unfold n; lia).
  assert (Hpn : 0 < 2 ^ n) by (apply pow2_pos; lia).
  assert (Hd0 : 0 <= d) by apply Zdigits2_nonneg.
  assert (Hf : fexp prec emax (d + E) = Z.max (d + E - 53) (-1074))
    by apply fexp_eq.
  exists m3, e3. split; [exact R |]. split; [exact Hm3 |].
  split; [unfold n in *; lia |].
  split; [| exact Hcan].
  intros P3.
  destruct He3 as [-> | (-> & Top)].
  - rewrite Z.sub_diag, Z.mul_1_r in Hv. subst m3.
    destruct (Z_le_gt_dec n d) as [L | G].
    + assert (Hb : M / 2 ^ n < 2 ^ (d - n)).
      { destruct (Z.eq_dec M 0) as [M0 | NZ].
        - rewrite M0. cbn. apply pow2_pos. lia.
        - destruct (Zdigits2_bounds M ltac:(lia)) as (_ & B). fold d in B.
          apply Z.div_lt_upper_bound; [lia |].
          rewrite <- Z.pow_add_r by lia.
          now replace (n + (d - n)) with d by lia. }
      assert (Zdigits2 m2 <= d - n + 1).
      { apply Zdigits2_le; try lia.
        rewrite Z.pow_add_r by lia. simpl (2 ^ 1). lia. }
      lia.
    + assert (M / 2 ^ n = 0).
      { apply Z.div_small. split; [lia |].
        destruct (Z.eq_dec M 0) as [M0 | NZ]; [lia |].
        destruct (Zdigits2_bounds M ltac:(lia)) as (_ & B). fold d in B.
        assert (2 ^ d <= 2 ^ n) by (apply Z.pow_le_mono_r; lia). lia. }
      assert (Zdigits2 m2 <= 1) by (apply Zdigits2_le; simpl; lia).
      unfold n in *. lia.
  - rewrite Top. change (Zdigits2 (2 ^ 52)) with 53.
    replace (E + n + 1 - (E + n)) with 1 in Hv by lia.
    rewrite Top in Hv. change (2 ^ 52 * 2 ^ 1) with (2 ^ 53) in Hv.
    assert (HM1 : 2 ^ 53 - 1 <= M / 2 ^ n) by lia.
    assert (HMn : (2 ^ 53 - 1) * 2 ^ n <= M).
    { assert (M / 2 ^ n * 2 ^ n <= M)
        by (rewrite Z.mul_comm; apply Z.mul_div_le; lia).
      nia. }
    assert (52 + n < d).
    { apply Zdigits2_gt; [lia |]. rewrite Z.pow_add_r by lia.
      change (2 ^ 52) with 4503599627370496.
      change (2 ^ 53) with 9007199254740992 in HMn. lia. }
    lia.
Qed.

(** ** Finite floats that are not negative *)

(** A zero, or a positive float of the format. *)
Definition finite_nonneg (x : float) : bool :=
  match x with
  | S754_zero _ => true
  | S754_finite false m e => bounded prec emax m e
  | _ => false
  end.

(** [x <= y] on two such floats. *)
Definition fle (x y : float) : Prop :=
  match x, y with
  | S754_zero _, _ => True
  | S754_finite _ m e, S754_finite _ m0 e0 => vle (Zpos m) e (Zpos m0) e0
  | _, _ => False
  end.

(** A float between 0 and 1. *)
Definition at_most_one (r : float) : Prop :=
  match r with
  | S754_zero _ => True
  | S754_finite false m e => e <= 0 /\ Zpos m <= 2 ^ (- e)
  | _ => False
  end.

Lemma rounded_finite_nonneg (m3 e3 : Z) :
  0 <= m3 -> (0 < m3 -> canonical m3 e3) -> e3 <= 971 ->
  finite_nonneg (rounded false m3 e3) = true.
Proof.
  intros Hm Hc He. destruct m3 as [| p | p]; try lia; [reflexivity |].
  unfold rounded. replace (e3 <=? emax - prec) with true
    by (symmetry; apply Z.leb_le; unfold emax, prec; lia).
  cbn [finite_nonneg]. apply bounded_canonical. split; [apply Hc; lia | exact He].
Qed.

Lemma rounded_fle (m3 e3 : Z) (y : float) (m0 : positive) (e0 : Z) :
  0 <= m3 -> e3 <= 971 -> y = S754_finite false m0 e0 ->
  vle m3 e3 (Zpos m0) e0 -> fle (rounded false m3 e3) y.
Proof.
  intros Hm He -> H. destruct m3 as [| p | p]; try lia; [exact I |].
  unfold rounded. replace (e3 <=? emax - prec) with true
    by (symmetry; apply Z.leb_le; unfold emax, prec; lia).
  exact H.
Qed.

Lemma fle_refl (x : float) : finite_nonneg x = true -> fle x x.
Proof.
  destruct x as [s | s | | s m e]; try discriminate; intros _; [exact I |].
  apply vle_refl.
Qed.

(** ** Multiplication by a float between 0 and 1 *)

Lemma digits_mul_ge (a b : positive) :
  Zdigits2 (Zpos b) <= Zdigits2 (Zpos (a * b)).
Proof.
  destruct (Zdigits2_bounds (Zpos b) ltac:(lia)) as (B & _).
  assert (0 <= Zdigits2 (Zpos b) - 1) by (cbn [Zdigits2]; lia).
  assert (Zdigits2 (Zpos b) - 1 < Zdigits2 (Zpos (a * b))); [| lia].
  apply Zdigits2_gt; [lia |]. rewrite Pos2Z.inj_mul. nia.
Qed.

Lemma mul_at_most_one (r x : float) :
  at_most_one r -> finite_nonneg x = true ->
  finite_nonneg (mul r x) = true /\ fle (mul r x) x.
Proof.
  intros Hr Hx.
  destruct r as [sr | sr | | sr mr er]; try contradiction;
    destruct x as [sx | sx | | sx mx ex]; try discriminate;
    try (split; [reflexivity | exact I]).
  destruct sr; [contradiction |]. destruct sx; [discriminate |].
  destruct Hr as (Her & Hmr). cbn [finite_nonneg] in Hx.
  apply bounded_canonical in Hx. destruct Hx as (Hc & He).
  unfold mul, SFmul. cbn [xorb].
  destruct (round_exact_le false (Zpos (mr * mx)) (er + ex) (Zpos mx) ex)
    as (m3 & e3 & R & Hm3 & Hc3 & Hv & He3); try lia.
  - (* the product is no shorter than the format *)
    assert (D := digits_mul_ge mr mx).
    unfold canonical in Hc. rewrite fexp_eq in *. lia.
  - exact Hc.
  - apply (vle_intro _ _ _ _ (er + ex)); try lia.
    rewrite Z.sub_diag, Z.mul_1_r. replace (ex - (er + ex)) with (- er) by lia.
    rewrite Pos2Z.inj_mul. nia.
  - fold prec emax. rewrite R. split.
    + apply rounded_finite_nonneg; auto; lia.
    + eapply rounded_fle; eauto; lia.
Qed.

Lemma mul_comm (x y : float) : mul x y = mul y x.
Proof.
  unfold mul, SFmul.
  destruct x as [sx | sx | | sx mx ex], y as [sy | sy | | sy my ey];
    try reflexivity; try (now rewrite xorb_comm).
  now rewrite xorb_comm, Pos.mul_comm, Z.add_comm.
Qed.

(** ** Alignment, and rounding a mantissa of any length *)

Lemma shl_align_spec (mx : positive) (ex ez : Z) :
  snd (shl_align mx ex ez) = Z.min ex ez
  /\ Zpos (fst (shl_align mx ex ez)) = Zpos mx * 2 ^ (ex - Z.min ex ez).
Proof.
  unfold shl_align. destruct (ez - ex) as [| d | d] eqn:E; cbn [fst snd].
  - replace (Z.min ex ez) with ex by lia. rewrite Z.sub_diag. lia.
  - replace (Z.min ex ez) with ex by lia. rewrite Z.sub_diag. lia.
  - replace (Z.min ex ez) with ez by lia. split; [reflexivity |].
    rewrite Pos_iter_xO. f_equal. f_equal. lia.
Qed.

Lemma Zdigits2_shift (m k : Z) :
  0 < m -> 0 <= k -> Zdigits2 (m * 2 ^ k) = Zdigits2 m + k.
Proof.
  intros Hm Hk. destruct (Zdigits2_bounds m Hm) as (B1 & B2).
  assert (Hp : 0 < 2 ^ k) by (apply pow2_pos; lia).
  assert (D : 1 <= Zdigits2 m) by (destruct m; try lia; cbn [Zdigits2]; lia).
  assert (L : Zdigits2 (m * 2 ^ k) <= Zdigits2 m + k).
  { apply Zdigits2_le; try nia. rewrite Z.pow_add_r by lia. nia. }
  assert (G : Zdigits2 m + k - 1 < Zdigits2 (m * 2 ^ k)).
  { apply Zdigits2_gt; [lia |].
    replace (Zdigits2 m + k - 1) with (Zdigits2 m - 1 + k) by lia.
    rewrite Z.pow_add_r by lia. nia. }
  lia.
Qed.

Lemma vle_scale (m e k m0 e0 : Z) :
  0 <= k -> vle m e m0 e0 -> vle (m * 2 ^ k) (e - k) m0 e0.
Proof.
  intros Hk H. set (j := Z.min (e - k) e0).
  apply (vle_intro _ _ _ _ j); try (unfold j; lia).
  apply (vle_elim _ _ _ _ j) in H; try (unfold j; lia).
  rewrite <- Z.mul_assoc, <- Z.pow_add_r by (unfold j; lia).
  now replace (k + (e - k - j)) with (e - j) by lia.
Qed.

(** [binary_round] first aligns the mantissa, so that nothing is lost
    when the value is a float of the format already. *)
Lemma binary_round_aligned (s : bool) (mx : positive) (ex : Z) :
  exists M E,
    binary_round prec emax s mx ex = binary_round_aux prec emax s M E loc_Exact
    /\ 0 < M /\ E <= ex /\ M = Zpos mx * 2 ^ (ex - E)
    /\ Zdigits2 M + E = Zdigits2 (Zpos mx) + ex
    /\ 0 <= fexp prec emax (Zdigits2 M + E) - E
    /\ E <= fexp prec emax (Zdigits2 (Zpos mx) + ex).
Proof.
  unfold binary_round.
  change (Zpos (digits2_pos mx)) with (Zdigits2 (Zpos mx)).
  set (f := fexp prec emax (Zdigits2 (Zpos mx) + ex)).
  destruct (shl_align_spec mx ex f) as (S1 & S2).
  destruct (shl_align mx ex f) as (mz, ez). cbn [fst snd] in S1, S2.
  exists (Zpos mz), ez. split; [reflexivity |].
  assert (D : Zdigits2 (Zpos mz) + ez = Zdigits2 (Zpos mx) + ex).
  { rewrite S2, Zdigits2_shift by lia. lia. }
  split; [lia |]. split; [lia |]. split; [now rewrite S2, S1 |].
  split; [exact D |]. rewrite D. fold f. lia.
Qed.

Lemma binary_round_le (s : bool) (mx : positive) (ex m0 e0 : Z) :
  0 < m0 -> canonical m0 e0 -> vle (Zpos mx) ex m0 e0 ->
  exists m3 e3,
    binary_round prec emax s mx ex = rounded s m3 e3
    /\ 0 <= m3 /\ (0 < m3 -> canonical m3 e3)
    /\ vle m3 e3 m0 e0 /\ e3 <= e0.
Proof.
  intros Hm0 Hc H.
  destruct (binary_round_aligned s mx ex) as (M & E & -> & HM & HE & EM & _ & Hn & _).
  apply round_exact_le; auto.
  rewrite EM. replace E with (ex - (ex - E)) at 2 by lia.
  apply vle_scale; [lia | exact H].
Qed.

Lemma binary_round_canonical (s : bool) (mx : positive) (ex : Z) :
  exists m3 e3,
    binary_round prec emax s mx ex = rounded s m3 e3
    /\ 0 <= m3 /\ (0 < m3 -> canonical m3 e3).
Proof.
  destruct (binary_round_aligned s mx ex) as (M & E & -> & HM & _ & _ & _ & Hn & _).
  destruct (binary_round_aux_spec s M E loc_Exact ltac:(lia))
    as (m2 & m3 & e3 & R & _ & _ & _ & _ & Hm3 & Hcan).
  exists m3, e3. split; [exact R |]. split; [exact Hm3 |].
  intros P. now apply Hcan.
Qed.

Lemma binary_round_finite (s : bool) (mx : positive) (ex k : Z) :
  Zdigits2 (Zpos mx) + ex <= k -> k <= 1023 ->
  exists m3 e3,
    binary_round prec emax s mx ex = rounded s m3 e3
    /\ 0 <= m3 /\ e3 <= 971
    /\ (0 < m3 -> Zdigits2 m3 + e3 <= Z.max (k + 1) (-1073))
    /\ (0 < m3 -> canonical m3 e3).
Proof.
  intros Hd Hk.
  destruct (binary_round_aligned s mx ex) as (M & E & -> & HM & _ & _ & D & Hn & HE).
  destruct (round_finite s M E loc_Exact) as (m3 & e3 & R & H0 & H1 & H2 & H3);
    try lia.
  - rewrite fexp_eq in HE. lia.
  - exists m3, e3. split; [exact R |]. split; [exact H0 |].
    split; [exact H1 |]. split; [| now apply H3].
    intros P. specialize (H2 P). lia.
Qed.

(** ** Magnitudes *)

(** A finite float below [2^k] in absolute value. *)
Definition finite_mag (k : Z) (x : float) : Prop :=
  match x with
  | S754_zero _ => True
  | S754_finite _ m e => Zdigits2 (Zpos m) + e <= k
  | _ => False
  end.

(** Miles: a finite non-negative float, or the positive infinity. *)
Definition miles_ok (x : float) : bool :=
  match x with
  | S754_infinity false => true
  | _ => finite_nonneg x
  end.

Lemma rounded_mag (s : bool) (m3 e3 k : Z) :
  0 <= m3 -> e3 <= 971 -> (0 < m3 -> Zdigits2 m3 + e3 <= k) ->
  finite_mag k (rounded s m3 e3).
Proof.
  intros Hm He Hd. destruct m3 as [| p | p]; try lia; [exact I |].
  unfold rounded. replace (e3 <=? emax - prec) with true
    by (symmetry; apply Z.leb_le; unfold emax, prec; lia).
  apply Hd. lia.
Qed.

Lemma rounded_miles_ok (m3 e3 : Z) :
  0 <= m3 -> (0 < m3 -> canonical m3 e3) ->
  miles_ok (rounded false m3 e3) = true.
Proof.
  intros Hm Hc. destruct m3 as [| p | p]; try lia; [reflexivity |].
  unfold rounded. destruct (Z.leb_spec e3 (emax - prec)) as [L | G];
    [| reflexivity].
  cbn [miles_ok finite_nonneg]. apply bounded_canonical.
  split; [apply Hc; lia | unfold emax, prec in L; lia].
Qed.

Lemma finite_mag_le (k j : Z) (x : float) :
  k <= j -> finite_mag k x -> finite_mag j x.
Proof. destruct x; cbn; auto; lia. Qed.

Lemma finite_nonneg_miles_ok (x : float) :
  finite_nonneg x = true -> miles_ok x = true.
Proof. destruct x as [s | [|] | | s m e]; cbn; auto. Qed.

Lemma to_int_mag (k : Z) (x : float) :
  finite_mag k x -> exists n, to_int x = Ok n.
Proof.
  destruct x as [s | s | | s m e]; cbn [finite_mag]; try contradiction;
    intros _; eexists; reflexivity.
Qed.

(** ** Sums and differences of non-negative floats *)

Lemma add_nonneg (x y : float) :
  finite_nonneg x = true -> finite_nonneg y = true ->
  miles_ok (add x y) = true.
Proof.
  intros Hx Hy.
  destruct x as [sx | sx | | sx mx ex]; try discriminate;
    destruct y as [sy | sy | | sy my ey]; try discriminate.
  - destruct sx, sy; reflexivity.
  - now apply finite_nonneg_miles_ok.
  - now apply finite_nonneg_miles_ok.
  - destruct sx; [discriminate |]. destruct sy; [discriminate |].
    unfold add, SFadd. cbn [cond_Zopp].
    rewrite <- Pos2Z.inj_add. cbn [binary_normalize].
    destruct (binary_round_canonical false
                (fst (shl_align mx ex (Z.min ex ey))
                 + fst (shl_align my ey (Z.min ex ey))) (Z.min ex ey))
      as (m3 & e3 & R & H0 & Hc).
    fold prec emax. rewrite R. now apply rounded_miles_ok.
Qed.

Lemma sub_fle (x y : float) :
  finite_nonneg x = true -> finite_nonneg y = true -> fle y x ->
  finite_nonneg (sub x y) = true.
Proof.
  intros Hx Hy H.
  destruct x as [sx | sx | | sx mx ex]; try discriminate;
    destruct y as [sy | sy | | sy my ey]; try discriminate;
    try contradiction.
  - destruct sx, sy; reflexivity.
  - exact Hx.
  - destruct sx; [discriminate |]. destruct sy; [discriminate |].
    cbn [finite_nonneg] in Hx. apply bounded_canonical in Hx.
    destruct Hx as (Hc & He). cbn [fle] in H.
    unfold sub, SFsub. cbn [cond_Zopp].
    set (ez := Z.min ex ey).
    destruct (shl_align_spec mx ex ez) as (_ & Sx).
    destruct (shl_align_spec my ey ez) as (_ & Sy).
    replace (Z.min ex ez) with ez in Sx by (unfold ez; lia).
    replace (Z.min ey ez) with ez in Sy by (unfold ez; lia).
    apply (vle_elim _ _ _ _ ez) in H; try (unfold ez; lia).
    rewrite <- Sx, <- Sy in H.
    set (ax := fst (shl_align mx ex ez)) in *.
    set (ay := fst (shl_align my ey ez)) in *.
    destruct (Zpos ax - Zpos ay) as [| p | p] eqn:D; try lia;
      cbn [binary_normalize]; [reflexivity |].
    destruct (binary_round_le false p ez (Zpos mx) ex)
      as (m3 & e3 & R & H0 & Hc3 & _ & He3); try lia; auto.
    + apply (vle_intro _ _ _ _ ez); try (unfold ez; lia).
      rewrite Z.sub_diag, Z.mul_1_r, <- Sx. lia.
    + fold prec emax. rewrite R. apply rounded_finite_nonneg; auto; lia.
Qed.

Lemma bounded_mag (m : positive) (e : Z) :
  bounded prec emax m e = true -> -1073 <= Zdigits2 (Zpos m) + e.
Proof.
  intros H. apply bounded_canonical in H. destruct H as (Hc & _).
  unfold canonical in Hc. rewrite fexp_eq in Hc. cbn [Zdigits2] in *. lia.
Qed.

Lemma Zdigits2_mono (a b : Z) : 0 <= a <= b -> Zdigits2 a <= Zdigits2 b.
Proof.
  intros H. destruct (Z.eq_dec b 0) as [-> | Nb].
  - replace a with 0 by lia. lia.
  - destruct (Zdigits2_bounds b ltac:(lia)) as (_ & B).
    apply Zdigits2_le; try lia. apply Zdigits2_nonneg.
Qed.

(** The difference of two non-negative floats below [2^k] is below
    [2^(k+1)], whatever its sign. *)
Lemma sub_mag (x y : float) (k : Z) :
  finite_nonneg x = true -> finite_nonneg y = true ->
  finite_mag k x -> finite_mag k y -> k <= 1022 ->
  finite_mag (k + 1) (sub x y).
Proof.
  intros Hx Hy Mx My Hk.
  destruct x as [sx | sx | | sx mx ex]; try discriminate;
    destruct y as [sy | sy | | sy my ey]; try discriminate.
  - destruct sx, sy; exact I.
  - cbn [sub SFsub finite_mag] in *. unfold sub, SFsub. cbn [finite_mag]. lia.
  - unfold sub, SFsub. cbn [finite_mag] in *. lia.
  - destruct sx; [discriminate |]. destruct sy; [discriminate |].
    cbn [finite_nonneg finite_mag] in *.
    assert (Bx := bounded_mag _ _ Hx).
    unfold sub, SFsub. cbn [cond_Zopp].
    set (ez := Z.min ex ey).
    destruct (shl_align_spec mx ex ez) as (_ & Sx).
    destruct (shl_align_spec my ey ez) as (_ & Sy).
    replace (Z.min ex ez) with ez in Sx by (unfold ez; lia).
    replace (Z.min ey ez) with ez in Sy by (unfold ez; lia).
    set (ax := fst (shl_align mx ex ez)) in *.
    set (ay := fst (shl_align my ey ez)) in *.
    assert (Dx : Zdigits2 (Zpos ax) + ez <= k).
    { rewrite Sx, Zdigits2_shift by (unfold ez; lia). lia. }
    assert (Dy : Zdigits2 (Zpos ay) + ez <= k).
    { rewrite Sy, Zdigits2_shift by (unfold ez; lia). lia. }
    destruct (Zpos ax - Zpos ay) as [| p | p] eqn:D;
      cbn [binary_normalize]; [exact I | |].
    + assert (Dp := Zdigits2_mono (Zpos p) (Zpos ax) ltac:(lia)).
      destruct (binary_round_finite false p ez k)
        as (m3 & e3 & R & H0 & H1 & H2 & _);
        try lia.
      fold prec emax. rewrite R. apply rounded_mag; auto.
      intros P. specialize (H2 P). lia.
    + assert (Dp := Zdigits2_mono (Zpos p) (Zpos ay) ltac:(lia)).
      destruct (binary_round_finite true p ez k)
        as (m3 & e3 & R & H0 & H1 & H2 & _);
        try lia.
      fold prec emax. rewrite R. apply rounded_mag; auto.
      intros P. specialize (H2 P). lia.
Qed.

(** ** Comparison with the fuel interval *)

Lemma leb_false_mag (x : float) :
  miles_ok x = true -> leb (lit FUEL_INTERVAL_MILES) x = false ->
  finite_nonneg x = true /\ finite_mag 10 x.
Proof.
  change (lit FUEL_INTERVAL_MILES)
    with (S754_finite false 8796093022208000 (-43)).
  intros Hx Hl.
  destruct x as [s | s | | s m e]; try discriminate.
  - split; [exact Hx | exact I].
  - destruct s; discriminate.
  - destruct s; [discriminate |]. split; [exact Hx |].
    cbn [miles_ok finite_nonneg] in Hx. apply bounded_canonical in Hx.
    destruct Hx as (Hc & _). apply canonical_digits in Hc.
    unfold leb, SFleb, SFcompare in Hl. cbn [finite_mag].
    destruct (Z.compare_spec (-43) e); try discriminate; lia.
Qed.

(** ** Division *)

Lemma new_location_zero (nb : Z) : new_location nb 0 = loc_Exact.
Proof.
  unfold new_location, new_location_even, new_location_odd.
  destruct (Z.even nb); reflexivity.
Qed.

Lemma shift_match (m s : Z) :
  0 <= s ->
  match s with
  | 0 => m
  | Zpos _ => Z.shiftl m s
  | Zneg _ => 0
  end = m * 2 ^ s.
Proof.
  intros Hs. destruct s as [| p | p]; try lia.
  apply Z.shiftl_mul_pow2. lia.
Qed.

Lemma SFdiv_core_binary_spec (m1 m2 : positive) (e1 e2 : Z) :
  let e' := Z.min (fexp prec emax (Zdigits2 (Zpos m1) + e1
                                   - (Zdigits2 (Zpos m2) + e2))) (e1 - e2) in
  let s := e1 - e2 - e' in
  exists q r,
    SFdiv_core_binary prec emax (Zpos m1) e1 (Zpos m2) e2
    = (q, e', new_location (Zpos m2) r)
    /\ Zpos m1 * 2 ^ s = Zpos m2 * q + r /\ 0 <= r < Zpos m2 /\ 0 <= q
    /\ Zdigits2 q + e'
       <= Z.max (Zdigits2 (Zpos m1) + e1 - (Zdigits2 (Zpos m2) + e2) + 1)
            (-1074).
Proof.
  intros e' s. unfold SFdiv_core_binary. fold e'. fold s.
  assert (Hs : 0 <= s) by (unfold s, e'; lia).
  set (m' := match s with
             | 0 => Zpos m1
             | Zpos _ => Z.shiftl (Zpos m1) s
             | Zneg _ => 0
             end).
  assert (Hm' : m' = Zpos m1 * 2 ^ s).
  { unfold m'. apply shift_match, Hs. }
  assert (Hdm := Z_div_mod m' (Zpos m2) ltac:(lia)).
  destruct (Z.div_eucl m' (Zpos m2)) as (q, r).
  destruct Hdm as (Hq & Hr). exists q, r.
  split; [reflexivity |]. rewrite <- Hm'. split; [exact Hq |].
  split; [exact Hr |].
  assert (Hp : 0 < 2 ^ s) by (apply pow2_pos; lia).
  assert (Hq0 : 0 <= q) by nia.
  split; [exact Hq0 |].
  set (d1 := Zdigits2 (Zpos m1)) in *. set (d2 := Zdigits2 (Zpos m2)) in *.
  destruct (Zdigits2_bounds (Zpos m1) ltac:(lia)) as (_ & B1).
  destruct (Zdigits2_bounds (Zpos m2) ltac:(lia)) as (B2 & _).
  fold d1 in B1. fold d2 in B2.
  assert (D1 : 1 <= d1) by (unfold d1; cbn [Zdigits2]; lia).
  assert (D2 : 1 <= d2) by (unfold d2; cbn [Zdigits2]; lia).
  assert (Dq : Zdigits2 q <= Z.max 0 (d1 + s - d2 + 1)).
  { apply Zdigits2_le; try lia.
    destruct (Z_le_gt_dec 0 (d1 + s - d2 + 1)) as [L | G].
    - replace (Z.max 0 (d1 + s - d2 + 1)) with (d1 + s - d2 + 1) by lia.
      (* q * m2 <= m1 * 2^s < 2^(d1 + s) and 2^(d2 - 1) <= m2 *)
      assert (Hlt : q * 2 ^ (d2 - 1) < 2 ^ (d1 + s - d2 + 1) * 2 ^ (d2 - 1)).
      { rewrite <- Z.pow_add_r by lia.
        replace (d1 + s - d2 + 1 + (d2 - 1)) with (d1 + s) by lia.
        rewrite Z.pow_add_r by lia.
        assert (q * 2 ^ (d2 - 1) <= q * Zpos m2)
          by (apply Z.mul_le_mono_nonneg_l; lia).
        assert (Zpos m1 * 2 ^ s < 2 ^ d1 * 2 ^ s)
          by (apply Z.mul_lt_mono_pos_r; lia).
        lia. }
      assert (0 < 2 ^ (d2 - 1)) by (apply pow2_pos; lia).
      nia.
    - replace (Z.max 0 (d1 + s - d2 + 1)) with 0 by lia.
      change (2 ^ 0) with 1.
      (* m1 * 2^s < 2^(d1 + s) <= 2^(d2 - 1) <= m2 *)
      assert (Zpos m1 * 2 ^ s < 2 ^ d1 * 2 ^ s)
        by (apply Z.mul_lt_mono_pos_r; lia).
      assert (2 ^ d1 * 2 ^ s <= 2 ^ (d2 - 1)).
      { rewrite <- Z.pow_add_r by lia. apply Z.pow_le_mono_r; lia. }
      nia. }
  unfold s in Dq.
  destruct (Z.eq_dec q 0) as [-> | Nq].
  - cbn [Zdigits2]. unfold e'. rewrite fexp_eq. lia.
  - assert (1 <= Zdigits2 q) by (destruct q; try lia; cbn [Zdigits2]; lia).
    lia.
Qed.

(** A quotient by a float of at least [2^(j-1)], of a float below [2^k]. *)
Lemma div_mag (x : float) (sy : bool) (my : positive) (ey k j : Z) :
  finite_mag k x -> j <= Zdigits2 (Zpos my) + ey -> k - j <= 1022 ->
  finite_mag (Z.max (k - j + 2) (-1073)) (div x (S754_finite sy my ey)).
Proof.
  intros Mx Hj Hk.
  destruct x as [sx | sx | | sx mx ex]; try contradiction; [exact I |].
  cbn [finite_mag] in Mx. unfold div, SFdiv.
  destruct (SFdiv_core_binary_spec mx my ex ey) as (q & r & -> & _ & _ & Hq & Dq).
  set (e' := Z.min _ _) in *.
  assert (He' : e' <= 970).
  { unfold e'. rewrite fexp_eq. lia. }
  destruct (round_finite (xorb sx sy) q e' (new_location (Zpos my) r))
    as (m3 & e3 & R & H0 & H1 & H2 & _); try lia.
  rewrite R. apply rounded_mag; auto.
  intros P. specialize (H2 P). lia.
Qed.

(** ** Ratios of integers *)

Lemma rounded_at_most_one (M E : Z) (l : location) :
  0 <= M -> E <= 0 ->
  M < 2 ^ (- E) \/ (M = 2 ^ (- E) /\ l = loc_Exact) ->
  exists r,
    binary_round_aux prec emax false M E l = r
    /\ at_most_one r /\ finite_mag 1 r.
Proof.
  intros HM HE Hv.
  destruct (binary_round_aux_spec false M E l HM)
    as (m2 & m3 & e3 & R & Hm2 & Hx & He3 & Hval & Hm3 & _).
  set (n := Z.max 0 (fexp prec emax (Zdigits2 M + E) - E)) in *.
  assert (Hn : 0 <= n) by (unfold n; lia).
  assert (Hpn : 0 < 2 ^ n) by (apply pow2_pos; lia).
  assert (HpE : 0 < 2 ^ (- E)) by (apply pow2_pos; lia).
  assert (Hd : Zdigits2 M <= - E + 1).
  { apply Zdigits2_le; try lia. rewrite Z.pow_add_r by lia.
    change (2 ^ 1) with 2. lia. }
  assert (Hk : E + n <= 0).
  { unfold n. rewrite fexp_eq. lia. }
  set (k := - (E + n)).
  assert (Hpk : 0 < 2 ^ k) by (apply pow2_pos; unfold k; lia).
  assert (HEk : 2 ^ (- E) = 2 ^ k * 2 ^ n).
  { rewrite <- Z.pow_add_r by (unfold k; lia). f_equal. unfold k. lia. }
  assert (Hm2k : m2 <= 2 ^ k).
  { destruct Hv as [Hlt | (Heq & ->)].
    - assert (M / 2 ^ n < 2 ^ k); [| lia].
      apply Z.div_lt_upper_bound; [lia |]. rewrite Z.mul_comm. lia.
    - rewrite Hx; auto.
      + rewrite Heq, HEk, Z.div_mul by lia. lia.
      + rewrite Heq, HEk. apply Z.mod_mul. lia. }
  exists (rounded false m3 e3). split; [exact R |].
  assert (Hshape : e3 <= 0 /\ m3 <= 2 ^ (- e3)).
  { destruct He3 as [-> | (-> & Top)].
    - rewrite Z.sub_diag, Z.mul_1_r in Hval. subst m3.
      split; [lia |]. now replace (- (E + n)) with k by reflexivity.
    - replace (E + n + 1 - (E + n)) with 1 in Hval by lia.
      rewrite Top in Hval. change (2 ^ 52 * 2 ^ 1) with (2 ^ 53) in Hval.
      assert (53 <= k).
      { destruct (Z_le_gt_dec 53 k) as [L | G]; [exact L |].
        assert (2 ^ k <= 2 ^ 52) by (apply Z.pow_le_mono_r; unfold k in *; lia).
        change (2 ^ 53) with 9007199254740992 in *.
        change (2 ^ 52) with 4503599627370496 in *. lia. }
      split; [unfold k in *; lia |].
      rewrite Top. apply Z.pow_le_mono_r; unfold k in *; lia. }
  destruct Hshape as (S1 & S2).
  destruct m3 as [| p | p]; try lia.
  - split; exact I.
  - unfold rounded. replace (e3 <=? emax - prec) with true
      by (symmetry; apply Z.leb_le; unfold emax, prec; lia).
    split; [split; assumption |].
    cbn [finite_mag].
    assert (Zdigits2 (Zpos p) <= - e3 + 1); [| lia].
    apply Zdigits2_le; try lia. rewrite Z.pow_add_r by lia.
    change (2 ^ 1) with 2.
    assert (0 < 2 ^ (- e3)) by (apply pow2_pos; lia). lia.
Qed.

(** [a / b] for [1 <= a <= b]: a float between 0 and 1, no exception. *)
Lemma int_truediv_ratio (a b : Z) :
  1 <= a <= b ->
  exists r, int_truediv a b = Ok r /\ at_most_one r.
Proof.
  intros H. destruct a as [| pa | pa]; try lia.
  destruct b as [| pb | pb]; try lia.
  unfold int_truediv. cbn [Z.abs Z.ltb Z.compare xorb].
  destruct (SFdiv_core_binary_spec pa pb 0 0) as (q & r & -> & Hq & Hr & Hq0 & _).
  set (e' := Z.min _ _) in *.
  assert (He' : e' <= 0) by (unfold e'; lia).
  replace (0 - 0 - e') with (- e') in Hq by lia.
  assert (Hp : 0 < 2 ^ (- e')) by (apply pow2_pos; lia).
  destruct (rounded_at_most_one q e' (new_location (Zpos pb) r))
    as (x & R & Hx & Mx); try lia.
  - destruct (Z.eq_dec r 0) as [-> | Nr].
    + rewrite new_location_zero.
      destruct (Z.eq_dec (Zpos pa) (Zpos pb)) as [E | NE].
      * right. split; [| reflexivity]. rewrite E in Hq. nia.
      * left. nia.
    + left. nia.
  - exists x. rewrite R. split; [| exact Hx].
    destruct x as [s | s | | s m e]; try contradiction; reflexivity.
Qed.

(** ** Products *)

Lemma mul_mag (x y : float) (kx ky : Z) :
  finite_mag kx x -> finite_mag ky y -> kx + ky <= 972 ->
  finite_mag (Z.max (kx + ky + 1) (-1073)) (mul x y).
Proof.
  intros Mx My Hk.
  destruct x as [sx | sx | | sx mx ex]; try contradiction;
    destruct y as [sy | sy | | sy my ey]; try contradiction;
    try exact I.
  cbn [finite_mag] in *. unfold mul, SFmul.
  assert (Dx : 1 <= Zdigits2 (Zpos mx)) by (cbn [Zdigits2]; lia).
  assert (Dy : 1 <= Zdigits2 (Zpos my)) by (cbn [Zdigits2]; lia).
  assert (D : Zdigits2 (Zpos (mx * my))
              <= Zdigits2 (Zpos mx) + Zdigits2 (Zpos my)).
  { apply Zdigits2_le; try lia. rewrite Z.pow_add_r by lia.
    destruct (Zdigits2_bounds (Zpos mx) ltac:(lia)) as (_ & B1).
    destruct (Zdigits2_bounds (Zpos my) ltac:(lia)) as (_ & B2).
    rewrite Pos2Z.inj_mul. nia. }
  destruct (round_finite (xorb sx sy) (Zpos (mx * my)) (ex + ey) loc_Exact)
    as (m3 & e3 & R & H0 & H1 & H2 & _); try lia.
  fold prec emax. rewrite R. apply rounded_mag; auto.
  intros P. specialize (H2 P). lia.
Qed.

(** ** Integers as floats *)

Lemma of_int_small (n : Z) :
  0 < n < 2 ^ 53 ->
  exists m e, of_int n = Ok (S754_finite false m e)
              /\ bounded prec emax m e = true.
Proof.
  intros H. destruct n as [| p | p]; try lia.
  assert (D : Zdigits2 (Zpos p) <= 53) by (apply Zdigits2_le; lia).
  destruct (binary_round_finite false p 0 53)
    as (m3 & e3 & R & H0 & H1 & _ & Hc); try lia.
  assert (V : finite_nonneg (rounded false m3 e3) = true)
    by now apply rounded_finite_nonneg.
  destruct (of_int (Zpos p)) as [x | ex |] eqn:E.
  - destruct (of_int_pos_value p x E) as (m & e & -> & _). exists m, e.
    split; [reflexivity |].
    unfold of_int, binary_normalize in E. rewrite R in E.
    destruct (rounded false m3 e3); try discriminate.
    apply Ok_inj in E. rewrite E in V. exact V.
  - exfalso. unfold of_int, binary_normalize in E. rewrite R in E.
    destruct (rounded false m3 e3) as [s | s | | s m e]; try discriminate.
  - assert (F := finished_of_int (Zpos p)). rewrite E in F. discriminate.
Qed.

(** * The plan is returned

    On validated input no float operation of the engine fails: the
    remaining miles stay finite and non-negative, the miles since the
    last fuel stop are never a NaN, and the days of the sheets stay
    within the range of [date]. *)

Lemma finite_nonneg_mag (x : float) :
  finite_nonneg x = true -> finite_mag 1024 x.
Proof.
  destruct x as [s | s | | s m e]; try discriminate; [intros _; exact I |].
  destruct s; [discriminate |]. cbn [finite_nonneg finite_mag]. intros H.
  apply bounded_canonical in H. destruct H as (Hc & He).
  apply canonical_digits in Hc. lia.
Qed.

Lemma div_inf_mag (x : float) (s : bool) (k j : Z) :
  finite_mag k x -> finite_mag j (div x (S754_infinity s)).
Proof. destruct x; cbn; auto. Qed.

(** [max(speed, 1)] of a positive speed: not zero, and not tiny. *)
Lemma max_one_shape (speed : float) :
  ltb zero speed = true ->
  max_one speed = S754_infinity false
  \/ exists my ey, max_one speed = S754_finite false my ey /\ -52 <= ey.
Proof.
  intros H. unfold max_one.
  change (lit 1) with (S754_finite false 4503599627370496 (-52)).
  destruct speed as [[|] | [|] | | [|] m e]; try discriminate.
  - left. reflexivity.
  - right. unfold ltb, SFltb, SFcompare.
    destruct (Z.compare_spec e (-52)).
    + destruct (Pos.compare_cont Eq m 4503599627370496);
        eexists _, _; (split; [reflexivity | lia]).
    + eexists _, _; (split; [reflexivity | lia]).
    + eexists _, _; (split; [reflexivity | lia]).
Qed.

Lemma lit_60_mag : finite_mag 6 (lit 60).
Proof. vm_compute. discriminate. Qed.

Lemma lit_fuel_mag : finite_mag 10 (lit FUEL_INTERVAL_MILES).
Proof. vm_compute. discriminate. Qed.

(** The minutes until the next fuel stop are computed without an
    exception whatever the speed is. *)
Lemma minutes_until_fuel_returns (muf speed : float) :
  finite_mag 11 muf -> ltb zero speed = true ->
  exists n,
    bind (truediv muf (max_one speed))
      (fun q => to_int (mul q (lit 60))) = Ok n.
Proof.
  intros Hm Hs.
  destruct (max_one_shape speed Hs) as [-> | (my & ey & -> & Hey)];
    cbn [truediv bind].
  - apply (to_int_mag (Z.max (0 + 6 + 1) (-1073))).
    apply mul_mag; [| apply lit_60_mag | lia].
    now apply (div_inf_mag _ _ 11).
  - assert (Hj : -51 <= Zdigits2 (Zpos my) + ey) by (cbn [Zdigits2]; lia).
    assert (Hd := div_mag muf false my ey 11 (-51) Hm Hj ltac:(lia)).
    apply (to_int_mag (Z.max (64 + 6 + 1) (-1073))).
    apply mul_mag; [| apply lit_60_mag | lia].
    eapply finite_mag_le; [| exact Hd]. lia.
Qed.

Lemma drivable_chunk_returns (st : DriverState) (rm : float) (rmin : Z) :
  0 < rmin < 2 ^ 53 ->
  finite_nonneg (miles_since_fuel st) = true ->
  finite_mag 10 (miles_since_fuel st) ->
  exists d, drivable_chunk st rm rmin = Ok d.
Proof.
  intros Hm Hf Hmag. unfold drivable_chunk.
  replace (0 <? rmin) with true by (symmetry; apply Z.ltb_lt; lia).
  destruct (of_int_small rmin Hm) as (m & e & -> & _). cbn [bind truediv].
  set (speed := mul (div rm (S754_finite false m e)) (lit 60)).
  assert (Muf : finite_mag 11
                  (sub (lit FUEL_INTERVAL_MILES) (miles_since_fuel st))).
  { apply (sub_mag _ _ 10); auto; try reflexivity; try lia.
    apply lit_fuel_mag. }
  destruct (ltb zero speed) eqn:Es.
  - destruct (minutes_until_fuel_returns _ _ Muf Es) as (n & ->).
    cbn [bind]. eexists; reflexivity.
  - cbn [bind]. eexists; reflexivity.
Qed.

(** What the leg loop keeps of the floats it works on. *)
Record Sound (st : DriverState) (rm : float) (rmin : Z) : Prop := {
  sound_miles : finite_nonneg rm = true;
  sound_fuel : miles_ok (miles_since_fuel st) = true;
  sound_drive : 0 <= cumulative_drive st;
  sound_minutes : rmin < 2 ^ 53
}.

(** Every pass of the leg loop returns, keeps the floats sound and
    moves the clock by ten hours at most. *)
Lemma drive_leg_body_returns (st : DriverState) (label : string) (rm : float)
    (rmin : Z) :
  0 < rmin -> Sound st rm rmin ->
  exists step,
    drive_leg_body st label rm rmin = Ok step
    /\ match step with
       | LoopBreak => True
       | LoopNext st' rm' rmin' =>
           Sound st' rm' rmin'
           /\ global_minute st' <= global_minute st + 600
       end.
Proof.
  intros Hm [Hrm Hf Hd Hb]. unfold drive_leg_body.
  destruct (Z.max 0 (CYCLE_LIMIT - cycle_minutes st) <=? 0) eqn:Ec.
  { eexists; split; [reflexivity | exact I]. }
  apply Z.leb_gt in Ec.
  destruct ((Z.max 0 (WINDOW_LIMIT - on_duty_minutes st) <=? 0)
            || (Z.max 0 (DRIVE_LIMIT - drive_minutes st) <=? 0)) eqn:Er.
  { eexists; split; [reflexivity |].
    unfold _insert_reset, _insert_break, _insert_fuel_stop,
      OFF_DUTY_RESET, BREAK_DURATION, FUEL_DURATION.
    split; [split; cbn; auto; lia | cbn; lia]. }
  apply orb_false_elim in Er. destruct Er as (Ew & Ed).
  apply Z.leb_gt in Ew, Ed.
  destruct (BREAK_TRIGGER <=? cumulative_drive st) eqn:Eb.
  { eexists; split; [reflexivity |].
    unfold _insert_reset, _insert_break, _insert_fuel_stop,
      OFF_DUTY_RESET, BREAK_DURATION, FUEL_DURATION.
    split; [split; cbn; auto; lia | cbn; lia]. }
  apply Z.leb_gt in Eb.
  destruct (leb (lit FUEL_INTERVAL_MILES) (miles_since_fuel st)) eqn:Ef.
  { eexists; split; [reflexivity |].
    unfold _insert_reset, _insert_break, _insert_fuel_stop,
      OFF_DUTY_RESET, BREAK_DURATION, FUEL_DURATION.
    split; [split; cbn; auto; lia | cbn; lia]. }
  destruct (leb_false_mag _ Hf Ef) as (Hfn & Hmag).
  destruct (drivable_chunk_returns st rm rmin ltac:(lia) Hfn Hmag) as (d & Hdc).
  rewrite Hdc. cbn [bind].
  apply drivable_chunk_bounds in Hdc; try lia.
  destruct Hdc as (D1 & D2 & D3 & D4 & D5).
  unfold drive_chunk.
  replace (Z.max rmin 1) with rmin by lia.
  destruct (int_truediv_ratio d rmin ltac:(lia)) as (ratio & -> & Hr).
  cbn [bind]. eexists; split; [reflexivity |].
  destruct (mul_at_most_one ratio rm Hr Hrm) as (Hc & Hle).
  split; [split |]; cbn [miles_since_fuel cumulative_drive global_minute].
  - now apply sub_fle.
  - now apply add_nonneg.
  - lia.
  - lia.
  - unfold BREAK_TRIGGER in D5. lia.
Qed.

(** The loop returns when it has passes enough, and every pass moved
    the clock by ten hours at most. *)
Lemma drive_leg_loop_returns (label : string) (passes : nat) :
  forall (st : DriverState) (rm : float) (rmin : Z),
    Sound st rm rmin ->
    (0 < rmin -> 7 * rmin + weight st <= Z.of_nat passes) ->
    exists st',
      drive_leg_loop passes st label rm rmin = Ok st'
      /\ miles_ok (miles_since_fuel st') = true
      /\ 0 <= cumulative_drive st'
      /\ global_minute st' <= global_minute st + 600 * Z.of_nat passes.
Proof.
  induction passes as [| n IH]; intros st rm rmin S Hp; cbn [drive_leg_loop];
    destruct (Z.ltb_spec 0 rmin) as [Hm | Hm].
  - specialize (Hp Hm). assert (W := weight_bounds st). lia.
  - exists st. destruct S. repeat split; auto; lia.
  - destruct (drive_leg_body_returns st label rm rmin Hm S)
      as (step & Hs & Hstep).
    rewrite Hs. cbn [bind].
    apply drive_leg_body_spec in Hs; [| exact Hm].
    destruct step as [| st1 rm1 rmin1].
    + exists st. destruct S. repeat split; auto; lia.
    + destruct Hstep as (S1 & Hg).
      assert (D := body_decreases _ _ _ _ _ _ _ Hm Hs).
      specialize (Hp Hm).
      destruct (IH st1 rm1 rmin1 S1 ltac:(intros _; lia))
        as (st' & E & H1 & H2 & H3).
      exists st'. repeat split; auto. lia.
  - exists st. destruct S. repeat split; auto; lia.
Qed.

Lemma drive_leg_returns (st : DriverState) (miles : float) (minutes : Z)
    (label : string) :
  finite_nonneg miles = true -> minutes < 2 ^ 53 ->
  miles_ok (miles_since_fuel st) = true -> 0 <= cumulative_drive st ->
  exists st',
    _drive_leg st miles minutes label = Ok st'
    /\ miles_ok (miles_since_fuel st') = true
    /\ 0 <= cumulative_drive st'
    /\ global_minute st'
       <= global_minute st + 600 * (7 * Z.max 0 minutes + 6).
Proof.
  intros Hmi Hmn Hf Hd. unfold _drive_leg.
  destruct (drive_leg_loop_returns label (leg_passes minutes) st miles minutes)
    as (st' & E & H1 & H2 & H3).
  - split; auto.
  - now apply leg_passes_enough.
  - exists st'. repeat split; auto.
    unfold leg_passes in H3. lia.
Qed.

Lemma on_duty_stop_clock (st : DriverState) (d : Z) (kind : StopKind)
    (label : string) (lat lng : float) :
  let st' := _insert_on_duty_stop st d kind label lat lng in
  miles_since_fuel st' = miles_since_fuel st
  /\ (0 <= cumulative_drive st -> 0 <= cumulative_drive st')
  /\ (0 <= d -> global_minute st' <= global_minute st + 600 + d).
Proof.
  unfold _insert_on_duty_stop, _insert_reset, OFF_DUTY_RESET.
  destruct (_ <? d); cbn; repeat split; lia.
Qed.

(** ** The day sheets *)

Lemma day_events_returns (events : list TimelineEvent) (ds de : Z) :
  forall (segs : list Segment) (m : float),
    exists r, day_events events ds de segs m = Ok r.
Proof.
  induction events as [| e rest IH]; intros segs m; cbn [day_events].
  - eexists; reflexivity.
  - destruct (_ || _); [apply IH |].
    destruct (Z.leb_spec (Z.min (te_end e) de - ds)
                (Z.max (te_start e) ds - ds)) as [L | G]; [apply IH |].
    destruct ((0 <? te_end e - te_start e) && ltb zero (te_miles e)) eqn:C.
    + apply andb_prop in C. destruct C as (C & _). apply Z.ltb_lt in C.
      destruct (int_truediv_ratio
                  (Z.min (te_end e) de - ds - (Z.max (te_start e) ds - ds))
                  (te_end e - te_start e) ltac:(lia)) as (r & -> & _).
      cbn [bind]. apply IH.
    + cbn [bind]. apply IH.
Qed.

Lemma for_each_returns {A B : Type} (f : A -> outcome B) (l : list A) :
  (forall a, In a l -> exists b, f a = Ok b) ->
  exists bs, for_each f l = Ok bs.
Proof.
  induction l as [| a l IH]; intros H; cbn [for_each].
  - eexists; reflexivity.
  - destruct (H a (or_introl eq_refl)) as (b & ->). cbn [bind].
    destruct IH as (bs & ->); [intros; apply H; now right |].
    cbn [bind]. eexists; reflexivity.
Qed.

Lemma build_daily_sheets_returns (tl : list TimelineEvent) (g : Z) (d : date) :
  chain te_start te_end 0 tl g -> g mod MINUTES_IN_DAY = 0 ->
  DATE_MIN_ORDINAL <= d -> d + g / MINUTES_IN_DAY - 1 <= DATE_MAX_ORDINAL ->
  exists sheets,
    _build_daily_sheets tl d = Ok sheets
    /\ Z.of_nat (List.length sheets) = g / MINUTES_IN_DAY.
Proof.
  intros Hc Hm Hlo Hhi. unfold _build_daily_sheets.
  assert (Hg := chain_le _ _ _ _ _ Hc).
  destruct tl as [| e tl'].
  { exists []. split; [reflexivity |]. simpl in Hc. subst g. reflexivity. }
  set (tl := e :: tl') in *.
  assert (Hlast : te_end (last tl e) = g).
  { eapply chain_last; [exact Hc | discriminate]. }
  rewrite Hlast, ceil_div_exact by (auto; reflexivity).
  destruct (for_each_returns (day_sheet tl d) (range (g / MINUTES_IN_DAY)))
    as (sheets & E).
  - intros i Hi. apply In_range in Hi.
    unfold day_sheet, date_add_days.
    replace ((DATE_MIN_ORDINAL <=? d + i) && (d + i <=? DATE_MAX_ORDINAL))
      with true
      by (symmetry; apply andb_true_iff; split; apply Z.leb_le; lia).
    cbn [bind].
    destruct (day_events_returns tl (i * MINUTES_IN_DAY)
                (i * MINUTES_IN_DAY + MINUTES_IN_DAY) [] zero)
      as ((segs & m) & ->).
    cbn [bind]. eexists; reflexivity.
  - exists sheets. split; [exact E |].
    rewrite (for_each_length _ _ _ E), length_range.
    apply Z2Nat.id. apply Z.div_pos; [lia | reflexivity].
Qed.

(** ** The steps of [compute_plan] *)

Lemma hours_mag (c : float) :
  finite_nonneg c = true -> leb c (lit 70) = true -> finite_mag 7 c.
Proof.
  change (lit 70) with (S754_finite false 4925812092436480 (-46)).
  destruct c as [s | s | | s m e]; try discriminate; [intros; exact I |].
  destruct s; [discriminate |]. cbn [finite_nonneg finite_mag]. intros Hb Hl.
  apply bounded_canonical in Hb. destruct Hb as (Hc & _).
  apply canonical_digits in Hc.
  unfold leb, SFleb, SFcompare in Hl.
  destruct (Z.compare_spec e (-46)); try discriminate; lia.
Qed.

Lemma initial_state_returns (c : float) :
  finite_nonneg c = true -> leb c (lit 70) = true ->
  exists st0,
    initial_state c = Ok st0
    /\ miles_since_fuel st0 = zero /\ cumulative_drive st0 = 0
    /\ global_minute st0 = 0.
Proof.
  intros Hc Hl. unfold initial_state.
  destruct (to_int_mag (Z.max (7 + 6 + 1) (-1073)) (mul c (lit 60)))
    as (n & ->).
  - apply mul_mag; [now apply hours_mag | apply lit_60_mag | lia].
  - cbn [bind]. eexists. repeat split.
Qed.

Lemma decimal_30_at_most_one : at_most_one (decimal 30 100).
Proof. vm_compute. split; discriminate. Qed.

(** The 30/70 split of a finite distance and of a number of minutes. *)
Lemma plan_legs_split_returns (total_miles : float) (total_drive_minutes : Z) :
  finite_nonneg total_miles = true -> 0 <= total_drive_minutes < 2 ^ 53 ->
  exists m1 n1 m2,
    plan_legs total_miles total_drive_minutes None None None None
    = Ok ((m1, n1), (m2, total_drive_minutes - n1))
    /\ finite_nonneg m1 = true /\ finite_nonneg m2 = true
    /\ 0 <= n1 <= total_drive_minutes.
Proof.
  intros Hm Ht. unfold plan_legs.
  assert (Hof : exists t, of_int total_drive_minutes = Ok t
                          /\ finite_nonneg t = true).
  { destruct (Z.eq_dec total_drive_minutes 0) as [-> | Nz].
    - exists zero. split; reflexivity.
    - destruct (of_int_small total_drive_minutes ltac:(lia))
        as (m & e & E & B).
      eexists; split; [exact E | exact B]. }
  destruct Hof as (t & Hof & Ht').
  rewrite Hof. cbn [bind].
  assert (F := decimal_30_at_most_one).
  destruct (mul_at_most_one _ _ F Ht') as (Hn & _).
  rewrite (mul_comm _ t) in Hn.
  destruct (to_int_mag 1024 _ (finite_nonneg_mag _ Hn)) as (n1 & Hn1).
  rewrite Hn1. cbn [bind fst snd].
  destruct (mul_at_most_one _ _ F Hm) as (H1 & Hle).
  rewrite (mul_comm _ total_miles) in H1, Hle.
  exists (mul total_miles (decimal 30 100)), n1,
    (sub total_miles (mul total_miles (decimal 30 100))).
  split; [reflexivity |]. split; [exact H1 |].
  split; [now apply sub_fle |].
  eapply split_minutes_bounds; eauto. lia.
Qed.

Lemma fill_last_day_clock (st : DriverState) :
  global_minute (fill_last_day st) < global_minute st + MINUTES_IN_DAY.
Proof.
  unfold fill_last_day.
  assert (Hmod := Z.mod_pos_bound (global_minute st) MINUTES_IN_DAY eq_refl).
  destruct (0 <? global_minute st mod MINUTES_IN_DAY) eqn:E;
    cbn [global_minute]; unfold MINUTES_IN_DAY in *; [| lia].
  apply Z.ltb_lt in E. lia.
Qed.

(** The day the first sheet is dated: [start_date], or today. *)
Definition first_day (today : date) (start_date : option date) : date :=
  match start_date with
  | None => today
  | Some d => d
  end.

Section Returns.

Variables (today : date) (total_miles : float) (total_drive_minutes : Z)
  (cycle_used_hours : float) (pickup_label dropoff_label : string)
  (pickup_coords dropoff_coords : float * float) (start_date : option date)
  (leg1_miles : option float) (leg1_minutes : option Z)
  (leg2_miles : option float) (leg2_minutes : option Z).

(** With an initial state and two sound legs, the rest of
    [compute_plan] raises nothing; the sheets are at most three per
    minute of the legs, and six, and their number is what the float
    expression [math.ceil(total_minutes / MINUTES_IN_DAY)] returns. *)
Lemma compute_plan_returns (st0 : DriverState) (m1 m2 : float) (n1 n2 : Z) :
  initial_state cycle_used_hours = Ok st0 ->
  miles_since_fuel st0 = zero -> cumulative_drive st0 = 0 ->
  global_minute st0 = 0 ->
  plan_legs total_miles total_drive_minutes
    leg1_miles leg1_minutes leg2_miles leg2_minutes = Ok ((m1, n1), (m2, n2)) ->
  finite_nonneg total_miles = true ->
  finite_nonneg m1 = true -> finite_nonneg m2 = true ->
  DATE_MIN_ORDINAL <= first_day today start_date ->
  first_day today start_date + 3 * (Z.max 0 n1 + Z.max 0 n2) + 5
  <= DATE_MAX_ORDINAL ->
  exists p,
    compute_plan today total_miles total_drive_minutes cycle_used_hours
      pickup_label dropoff_label pickup_coords dropoff_coords start_date
      leg1_miles leg1_minutes leg2_miles leg2_minutes = Ok p
    /\ Z.of_nat (List.length (daily_sheets p))
       <= 3 * (Z.max 0 n1 + Z.max 0 n2) + 6
    /\ forall e,
         float_ceil_div (te_end (last (plan_timeline p) e)) MINUTES_IN_DAY
         = Ok (Z.of_nat (List.length (daily_sheets p))).
Proof.
  intros Hi Hf0 Hc0 Hg0 Hl Hm Hm1 Hm2 Hlo Hhi.
  unfold DATE_MIN_ORDINAL, DATE_MAX_ORDINAL in *.
  assert (B53 : 2 ^ 53 = 9007199254740992) by reflexivity.
  unfold compute_plan. fold (first_day today start_date).
  set (d0 := first_day today start_date) in *.
  rewrite Hi. cbn [bind]. rewrite Hl. cbn [bind fst snd].
  destruct (drive_leg_returns st0 m1 n1 "En route to pickup" Hm1)
    as (st1 & E1 & F1 & C1 & G1); try lia.
  { rewrite Hf0. reflexivity. }
  rewrite E1. cbn [bind].
  set (sp := _insert_on_duty_stop st1 PICKUP_DURATION PICKUP pickup_label
               (fst pickup_coords) (snd pickup_coords)).
  destruct (on_duty_stop_clock st1 PICKUP_DURATION PICKUP pickup_label
              (fst pickup_coords) (snd pickup_coords)) as (Fp & Cp & Gp).
  fold sp in Fp, Cp, Gp.
  destruct (drive_leg_returns sp m2 n2 "En route to dropoff" Hm2)
    as (st2 & E2 & F2 & C2 & G2); try lia.
  { rewrite Fp. exact F1. }
  rewrite E2. cbn [bind].
  set (sd := _insert_on_duty_stop st2 DROPOFF_DURATION DROPOFF dropoff_label
               (fst dropoff_coords) (snd dropoff_coords)).
  destruct (on_duty_stop_clock st2 DROPOFF_DURATION DROPOFF dropoff_label
              (fst dropoff_coords) (snd dropoff_coords)) as (_ & _ & Gd).
  fold sd in Gd.
  change (lit FUEL_INTERVAL_MILES)
    with (S754_finite false 8796093022208000 (-43)).
  cbn [truediv bind].
  destruct (to_int_mag (Z.max (1024 - 10 + 2) (-1073))
              (div total_miles (S754_finite false 8796093022208000 (-43))))
    as (n & ->).
  { apply div_mag; [now apply finite_nonneg_mag | vm_compute; discriminate
                   | lia]. }
  cbn [bind].
  assert (I2 : Inv sd).
  { apply Inv_insert_on_duty_stop; [reflexivity | reflexivity |].
    eapply Inv_drive_leg; [| exact E2].
    apply Inv_insert_on_duty_stop; [reflexivity | reflexivity |].
    eapply Inv_drive_leg; [| exact E1].
    eapply Inv_initial_state; eauto. }
  destruct (fill_last_day_spec _ I2) as ([Hch _ _] & _ & _ & Hmod & _).
  assert (Gf := fill_last_day_clock sd).
  set (g := global_minute (fill_last_day sd)) in *.
  set (N := Z.max 0 n1 + Z.max 0 n2) in *.
  assert (Hne : timeline (fill_last_day sd) <> []).
  { unfold fill_last_day, sd, _insert_on_duty_stop.
    destruct (0 <? _); simpl; intros E; apply app_eq_nil in E;
      destruct E as (_ & E); discriminate. }
  assert (Hg : 0 < g).
  { unfold contiguous in Hch.
    destruct (timeline (fill_last_day sd)) as [| e l]; [contradiction |].
    destruct Hch as (Hs0 & Hlt & Hch). apply chain_le in Hch. lia. }
  assert (Hdays : g / MINUTES_IN_DAY <= 3 * N + 6).
  { unfold PICKUP_DURATION, DROPOFF_DURATION, MINUTES_IN_DAY in *.
    assert (g / 1440 < 3 * N + 7); [| lia].
    apply Z.div_lt_upper_bound; lia. }
  destruct (build_daily_sheets_returns (timeline (fill_last_day sd)) g d0
              Hch Hmod) as (sheets & -> & Hlen).
  - unfold DATE_MIN_ORDINAL. exact Hlo.
  - unfold DATE_MAX_ORDINAL. lia.
  - cbn [bind]. eexists. split; [reflexivity |].
    cbn [daily_sheets plan_timeline]. rewrite Hlen.
    split; [exact Hdays |].
    intros e. rewrite (chain_last _ _ _ _ _ e Hch Hne).
    assert (Hk : g = g / MINUTES_IN_DAY * MINUTES_IN_DAY).
    { rewrite (Z.div_mod g MINUTES_IN_DAY) at 1 by discriminate. lia. }
    assert (Hk0 : 0 < g / MINUTES_IN_DAY).
    { unfold MINUTES_IN_DAY in *. lia. }
    rewrite Hk at 1.
    rewrite float_ceil_div_days by lia.
    rewrite ceil_div_exact by (try reflexivity; apply Z.mod_mul; discriminate).
    now rewrite Z.div_mul by discriminate.
Qed.

End Returns.

(** X18.  Valid input under the 30/70 split: [compute_plan] returns a
    plan, no float conversion, no division and no date of the day
    sheets raises.  Valid means a finite non-negative distance, a
    non-negative number of driving minutes, between 0 and 70 cycle
    hours, and a first day that leaves three days per driving minute,
    and five, to [date.max].  The plan has at most that many sheets and
    one, the number [math.ceil(total_minutes / MINUTES_IN_DAY)] gives. *)
Theorem X18_valid_input_returns_a_plan
    (today : date) (total_miles : float) (total_drive_minutes : Z)
    (cycle_used_hours : float) (pickup_label dropoff_label : string)
    (pickup_coords dropoff_coords : float * float)
    (start_date : option date) :
  finite_nonneg total_miles = true ->
  0 <= total_drive_minutes ->
  finite_nonneg cycle_used_hours = true ->
  leb cycle_used_hours (lit 70) = true ->
  DATE_MIN_ORDINAL <= first_day today start_date ->
  first_day today start_date + 3 * total_drive_minutes + 5
  <= DATE_MAX_ORDINAL ->
  exists p,
    compute_plan today total_miles total_drive_minutes cycle_used_hours
      pickup_label dropoff_label pickup_coords dropoff_coords start_date
      None None None None = Ok p
    /\ Z.of_nat (List.length (daily_sheets p)) <= 3 * total_drive_minutes + 6
    /\ forall e,
         float_ceil_div (te_end (last (plan_timeline p) e)) MINUTES_IN_DAY
         = Ok (Z.of_nat (List.length (daily_sheets p))).
Proof.
  intros Hm Ht Hc Hl Hlo Hhi.
  destruct (initial_state_returns _ Hc Hl) as (st0 & Hi & Hf0 & Hc0 & Hg0).
  assert (B53 : 2 ^ 53 = 9007199254740992) by reflexivity.
  unfold DATE_MIN_ORDINAL, DATE_MAX_ORDINAL in *.
  destruct (plan_legs_split_returns total_miles total_drive_minutes Hm
              ltac:(lia)) as (m1 & n1 & m2 & Hlegs & H1 & H2 & Hn).
  destruct (compute_plan_returns today total_miles total_drive_minutes
              cycle_used_hours pickup_label dropoff_label pickup_coords
              dropoff_coords start_date None None None None
              st0 m1 m2 n1 (total_drive_minutes - n1))
    as (p & E & Hs & Hf); auto.
  - unfold DATE_MAX_ORDINAL. lia.
  - exists p. split; [exact E |]. split; [lia | exact Hf].
Qed.

(** X19.  Legs given by the caller, as [create_plan] passes them:
    [compute_plan] returns a plan when the distances are finite and
    non-negative, the cycle hours lie between 0 and 70, and the first
    day leaves three days per driving minute of the two legs, and five,
    to [date.max].  The plan has at most that many sheets and one, the
    number [math.ceil(total_minutes / MINUTES_IN_DAY)] gives. *)
Theorem X19_given_legs_return_a_plan
    (today : date) (total_miles : float) (total_drive_minutes : Z)
    (cycle_used_hours : float) (pickup_label dropoff_label : string)
    (pickup_coords dropoff_coords : float * float)
    (start_date : option date)
    (leg1_miles : float) (leg1_minutes : Z)
    (leg2_miles : float) (leg2_minutes : Z) :
  finite_nonneg total_miles = true ->
  finite_nonneg leg1_miles = true -> finite_nonneg leg2_miles = true ->
  finite_nonneg cycle_used_hours = true ->
  leb cycle_used_hours (lit 70) = true ->
  DATE_MIN_ORDINAL <= first_day today start_date ->
  first_day today start_date
  + 3 * (Z.max 0 leg1_minutes + Z.max 0 leg2_minutes) + 5
  <= DATE_MAX_ORDINAL ->
  exists p,
    compute_plan today total_miles total_drive_minutes cycle_used_hours
      pickup_label dropoff_label pickup_coords dropoff_coords start_date
      (Some leg1_miles) (Some leg1_minutes)
      (Some leg2_miles) (Some leg2_minutes) = Ok p
    /\ Z.of_nat (List.length (daily_sheets p))
       <= 3 * (Z.max 0 leg1_minutes + Z.max 0 leg2_minutes) + 6
    /\ forall e,
         float_ceil_div (te_end (last (plan_timeline p) e)) MINUTES_IN_DAY
         = Ok (Z.of_nat (List.length (daily_sheets p))).
Proof.
  intros Hm H1 H2 Hc Hl Hlo Hhi.
  destruct (initial_state_returns _ Hc Hl) as (st0 & Hi & Hf0 & Hc0 & Hg0).
  apply (compute_plan_returns today total_miles total_drive_minutes
           cycle_used_hours pickup_label dropoff_label pickup_coords
           dropoff_coords start_date
           (Some leg1_miles) (Some leg1_minutes)
           (Some leg2_miles) (Some leg2_minutes)
           st0 leg1_miles leg2_miles leg1_minutes leg2_minutes); auto.
Qed.

Lemma X18_witness :
  exists p,
    compute_plan 739252 (lit 1793) 2512 (lit 69) "Pickup" "Dropoff"
      (zero, zero) (zero, zero) None None None None None = Ok p
    /\ Z.of_nat (List.length (daily_sheets p)) <= 3 * 2512 + 6
    /\ forall e,
         float_ceil_div (te_end (last (plan_timeline p) e)) MINUTES_IN_DAY
         = Ok (Z.of_nat (List.length (daily_sheets p))).
Proof.
  apply (X18_valid_input_returns_a_plan 739252 (lit 1793) 2512 (lit 69)
           "Pickup" "Dropoff" (zero, zero) (zero, zero) None);
    vm_compute; first [reflexivity | discriminate].
Defined.

Lemma X19_witness :
  exists p,
    compute_plan 739252 (lit 1793) 2512 (lit 69) "Pickup" "Dropoff"
      (zero, zero) (zero, zero) (Some 739403)
      (Some (lit 500)) (Some 700) (Some (lit 1293)) (Some 1812) = Ok p
    /\ Z.of_nat (List.length (daily_sheets p))
       <= 3 * (Z.max 0 700 + Z.max 0 1812) + 6
    /\ forall e,
         float_ceil_div (te_end (last (plan_timeline p) e)) MINUTES_IN_DAY
         = Ok (Z.of_nat (List.length (daily_sheets p))).
Proof.
  apply (X19_given_legs_return_a_plan 739252 (lit 1793) 2512 (lit 69)
           "Pickup" "Dropoff" (zero, zero) (zero, zero) (Some 739403)
           (lit 500) 700 (lit 1293) 1812);
    vm_compute; first [reflexivity | discriminate].
Defined.

(** ** The miles of the timeline *)

(** Every event carries a finite, non-negative number of miles. *)
Definition miles_logged (tl : list TimelineEvent) : Prop :=
  Forall (fun e => finite_nonneg (te_miles e) = true) tl.

Lemma miles_logged_snoc (tl : list TimelineEvent) (e : TimelineEvent) :
  miles_logged tl -> finite_nonneg (te_miles e) = true ->
  miles_logged (tl ++ [e]).
Proof.
  intros H He. apply Forall_app. split; [exact H |].
  constructor; [exact He | constructor].
Qed.

Lemma miles_logged_on_duty_stop (st : DriverState) (d : Z) (kind : StopKind)
    (label : string) (lat lng : float) :
  miles_logged (timeline st) ->
  miles_logged (timeline (_insert_on_duty_stop st d kind label lat lng)).
Proof.
  intros H. unfold _insert_on_duty_stop, _insert_reset.
  destruct (_ <? d); cbn [timeline];
    repeat (apply miles_logged_snoc; [| reflexivity]); exact H.
Qed.

Lemma miles_logged_fill_last_day (st : DriverState) :
  miles_logged (timeline st) -> miles_logged (timeline (fill_last_day st)).
Proof.
  intros H. unfold fill_last_day.
  destruct (0 <? _); cbn [timeline]; [| exact H].
  apply miles_logged_snoc; [exact H | reflexivity].
Qed.

(** A pass of the leg loop logs a share of the remaining miles, and
    leaves the rest. *)
Lemma drive_leg_body_miles (st : DriverState) (label : string) (rm : float)
    (rmin : Z) (st' : DriverState) (rm' : float) (rmin' : Z) :
  0 < rmin -> finite_nonneg rm = true -> miles_logged (timeline st) ->
  drive_leg_body st label rm rmin = Ok (LoopNext st' rm' rmin') ->
  finite_nonneg rm' = true /\ miles_logged (timeline st').
Proof.
  intros Hm Hrm Htl H. unfold drive_leg_body in H.
  destruct (Z.max 0 (CYCLE_LIMIT - cycle_minutes st) <=? 0) eqn:Ec;
    [discriminate |].
  apply Z.leb_gt in Ec.
  destruct ((Z.max 0 (WINDOW_LIMIT - on_duty_minutes st) <=? 0)
            || (Z.max 0 (DRIVE_LIMIT - drive_minutes st) <=? 0)) eqn:Er.
  { injection H as <- <- <-. split; [exact Hrm |].
    now apply miles_logged_snoc. }
  apply orb_false_elim in Er. destruct Er as (Ew & Ed).
  apply Z.leb_gt in Ew, Ed.
  destruct (BREAK_TRIGGER <=? cumulative_drive st) eqn:Eb.
  { injection H as <- <- <-. split; [exact Hrm |].
    now apply miles_logged_snoc. }
  apply Z.leb_gt in Eb.
  destruct (leb (lit FUEL_INTERVAL_MILES) (miles_since_fuel st)) eqn:Ef.
  { injection H as <- <- <-. split; [exact Hrm |].
    now apply miles_logged_snoc. }
  inv_bind H.
  apply drivable_chunk_bounds in Ha; try lia.
  unfold drive_chunk in H.
  replace (Z.max rmin 1) with rmin in H by lia.
  destruct (int_truediv_ratio a rmin ltac:(lia)) as (ratio & E & Hr).
  rewrite E in H. cbn [bind] in H. injection H as <- <- <-.
  destruct (mul_at_most_one ratio rm Hr Hrm) as (Hc & Hle).
  split; [now apply sub_fle |].
  cbn [timeline]. now apply miles_logged_snoc.
Qed.

Lemma drive_leg_loop_miles (label : string) (passes : nat) :
  forall (st : DriverState) (rm : float) (rmin : Z) (st' : DriverState),
    finite_nonneg rm = true -> miles_logged (timeline st) ->
    drive_leg_loop passes st label rm rmin = Ok st' ->
    miles_logged (timeline st').
Proof.
  induction passes as [| n IH]; intros st rm rmin st' Hrm Htl H;
    cbn [drive_leg_loop] in H;
    destruct (Z.ltb_spec 0 rmin) as [Hm | Hm]; try discriminate;
    try (injection H as <-; exact Htl).
  inv_bind H. destruct a as [| st1 rm1 rmin1].
  - injection H as <-. exact Htl.
  - destruct (drive_leg_body_miles _ _ _ _ _ _ _ Hm Hrm Htl Ha) as (H1 & H2).
    eapply IH; eauto.
Qed.

Section Miles.

Variables (today : date) (total_miles : float) (total_drive_minutes : Z)
  (cycle_used_hours : float) (pickup_label dropoff_label : string)
  (pickup_coords dropoff_coords : float * float) (start_date : option date)
  (leg1_miles : option float) (leg1_minutes : option Z)
  (leg2_miles : option float) (leg2_minutes : option Z).

(** X20.  When the miles of the two legs are finite and not negative,
    so are the miles of every event of the returned timeline: no NaN,
    no infinity and no negative distance is logged. *)
Theorem X20_logged_miles_finite_nonnegative
    (legs : (float * Z) * (float * Z)) (p : Plan) :
  plan_legs total_miles total_drive_minutes
    leg1_miles leg1_minutes leg2_miles leg2_minutes = Ok legs ->
  finite_nonneg (fst (fst legs)) = true ->
  finite_nonneg (fst (snd legs)) = true ->
  compute_plan today total_miles total_drive_minutes cycle_used_hours
    pickup_label dropoff_label pickup_coords dropoff_coords start_date
    leg1_miles leg1_minutes leg2_miles leg2_minutes = Ok p ->
  Forall (fun e => finite_nonneg (te_miles e) = true) (plan_timeline p).
Proof.
  intros Hl H1 H2 H. apply compute_plan_run in H.
  destruct H as (legs' & st0 & st1 & st2 & [Hi Hl' E1 E2 Ht _ _ _ _]).
  rewrite Hl in Hl'. apply Ok_inj in Hl'. subst legs'.
  rewrite Ht. apply miles_logged_fill_last_day.
  apply miles_logged_on_duty_stop.
  eapply drive_leg_loop_miles; [exact H2 | | exact E2].
  apply miles_logged_on_duty_stop.
  eapply drive_leg_loop_miles; [exact H1 | | exact E1].
  unfold initial_state in Hi. inv_bind Hi. apply Ok_inj in Hi. subst st0.
  constructor.
Qed.

End Miles.

Lemma X20_witness :
  exists p,
    long_haul = Ok p
    /\ Forall (fun e => finite_nonneg (te_miles e) = true) (plan_timeline p).
Proof.
  eexists. split.
  - vm_compute. reflexivity.
  - apply (X20_logged_miles_finite_nonnegative 739252 (lit 2504) 3489 (lit 0)
             "Pickup" "Dropoff" (zero, zero) (zero, zero) (Some 739403)
             None None None None
             ((mul (lit 2504) (decimal 30 100), 1046),
              (sub (lit 2504) (mul (lit 2504) (decimal 30 100)), 2443)));
      vm_compute; reflexivity.
Defined.

(** * Fuel every thousand miles

    The engine adds up the miles of the DRIVING blocks in
    [miles_since_fuel] and sets them back to zero at a fuel stop.  The
    same sum is read off the plan, and compared with the fuel interval
    where a block starts. *)

(** The block of a fuel stop: the event that starts at the minute a
    FUEL stop of [l] starts. *)
Definition fuel_block (l : list StopEvent) (e : TimelineEvent) : bool :=
  existsb (fun s => StopKind_eqb (se_kind s) FUEL
                    && (se_global_minute s =? te_start e)) l.

(** One event more on the odometer. *)
Definition odometer_step (l : list StopEvent) (miles : float)
    (e : TimelineEvent) : float :=
  if fuel_block l e then zero
  else if is_driving e then add miles (te_miles e)
  else miles.

(** The miles since the last fuel stop at the end of [tl], as the
    engine adds them up: the float sum, in order, of the miles of the
    DRIVING blocks after the last fuel block. *)
Definition odometer (l : list StopEvent) (tl : list TimelineEvent) : float :=
  fold_left (odometer_step l) tl zero.

(** The rule for the event [e] that follows the events [pre]: driving
    starts below the fuel interval only, a fuel stop at or above it
    only. *)
Definition fuel_rule (l : list StopEvent) (pre : list TimelineEvent)
    (e : TimelineEvent) : Prop :=
  (te_status e = DRIVING ->
   leb (lit FUEL_INTERVAL_MILES) (odometer l pre) = false)
  /\ (fuel_block l e = true ->
      leb (lit FUEL_INTERVAL_MILES) (odometer l pre) = true).

Lemma fuel_block_app (l new : list StopEvent) (e : TimelineEvent) :
  fuel_block (l ++ new) e = fuel_block l e || fuel_block new e.
Proof. unfold fuel_block. apply existsb_app. Qed.

(** Stops that start at another minute than an event are not its stops. *)
Lemma fuel_block_elsewhere (l : list StopEvent) (e : TimelineEvent) :
  Forall (fun s => se_global_minute s <> te_start e) l ->
  fuel_block l e = false.
Proof.
  unfold fuel_block. induction l as [| s l IH]; intros H; [reflexivity |].
  inversion H; subst. cbn [existsb]. rewrite IH by assumption.
  replace (se_global_minute s =? te_start e) with false
    by (symmetry; apply Z.eqb_neq; assumption).
  now rewrite andb_false_r.
Qed.

Lemma fuel_block_later (l new : list StopEvent) (e : TimelineEvent) (g : Z) :
  Forall (fun s => se_global_minute s = g) new -> te_start e < g ->
  fuel_block (l ++ new) e = fuel_block l e.
Proof.
  intros Hn He. rewrite fuel_block_app, (fuel_block_elsewhere new).
  - apply orb_false_r.
  - eapply Forall_impl; [| exact Hn]. cbv beta. intros s Hs. lia.
Qed.

Lemma odometer_later (l new : list StopEvent) (g : Z)
    (tl : list TimelineEvent) :
  Forall (fun s => se_global_minute s = g) new ->
  Forall (fun e => te_start e < g) tl ->
  odometer (l ++ new) tl = odometer l tl.
Proof.
  intros Hn. unfold odometer. generalize zero.
  induction tl as [| e tl IH]; intros acc Ht; [reflexivity |].
  inversion Ht; subst. cbn [fold_left]. rewrite IH by assumption.
  unfold odometer_step. now rewrite (fuel_block_later l new e g).
Qed.

Lemma odometer_snoc (l : list StopEvent) (tl : list TimelineEvent)
    (e : TimelineEvent) :
  odometer l (tl ++ [e]) = odometer_step l (odometer l tl) e.
Proof. unfold odometer. now rewrite fold_left_app. Qed.

(** The state agrees with the plan it has built so far. *)
Record Gauge (st : DriverState) : Prop := {
  gauge_miles : miles_since_fuel st = odometer (stops st) (timeline st);
  gauge_rule : every_event (fuel_rule (stops st)) (timeline st);
  gauge_events : Forall (fun e => te_start e < global_minute st) (timeline st);
  gauge_stops :
    Forall (fun s => se_global_minute s < global_minute st) (stops st)
}.

Lemma Forall_prefix {A : Type} (P : A -> Prop) (pre post : list A) (e : A) :
  Forall P (pre ++ e :: post) -> Forall P pre /\ P e.
Proof.
  intros H. apply Forall_app in H. destruct H as (H1 & H2).
  inversion H2; subst. auto.
Qed.

(** One more block, at the minute the state has reached, with the stops
    that announce it. *)
Lemma Gauge_step (st st' : DriverState) (x : TimelineEvent)
    (new : list StopEvent) :
  Gauge st ->
  timeline st' = timeline st ++ [x] -> stops st' = stops st ++ new ->
  te_start x = global_minute st -> global_minute st < global_minute st' ->
  Forall (fun s => se_global_minute s = global_minute st) new ->
  miles_since_fuel st' = odometer_step (stops st') (miles_since_fuel st) x ->
  (te_status x = DRIVING ->
   leb (lit FUEL_INTERVAL_MILES) (miles_since_fuel st) = false) ->
  (fuel_block new x = true ->
   leb (lit FUEL_INTERVAL_MILES) (miles_since_fuel st) = true) ->
  Gauge st'.
Proof.
  intros [Gm Gr Ge Gs] Et Es Hx Hg Hn Hm Hd Hf.
  assert (Eo : odometer (stops st') (timeline st) = miles_since_fuel st).
  { rewrite Es, Gm. now apply (odometer_later _ _ (global_minute st)). }
  assert (Hold : fuel_block (stops st) x = false).
  { apply fuel_block_elsewhere. eapply Forall_impl; [| exact Gs].
    cbv beta. intros s Hs. lia. }
  split.
  - rewrite Et, odometer_snoc, Eo. exact Hm.
  - rewrite Et. apply every_event_snoc.
    + intros pre e post E. specialize (Gr pre e post E).
      rewrite E in Ge. apply Forall_prefix in Ge. destruct Ge as (Gp & Ge).
      unfold fuel_rule in *. rewrite Es.
      rewrite (odometer_later _ _ (global_minute st)) by assumption.
      rewrite (fuel_block_later _ _ _ (global_minute st)) by assumption.
      exact Gr.
    + unfold fuel_rule. rewrite Eo. split; [exact Hd |].
      rewrite Es, fuel_block_app, Hold. exact Hf.
  - rewrite Et. apply Forall_app. split.
    + eapply Forall_impl; [| exact Ge]. cbv beta. intros e He. lia.
    + constructor; [lia | constructor].
  - rewrite Es. apply Forall_app. split.
    + eapply Forall_impl; [| exact Gs]. cbv beta. intros s Hs. lia.
    + eapply Forall_impl; [| exact Hn]. cbv beta. intros s Hs. lia.
Qed.

(** A block that is neither driving nor a fuel stop leaves the odometer
    as it is. *)
Lemma Gauge_idle (st st' : DriverState) (x : TimelineEvent)
    (new : list StopEvent) :
  Gauge st ->
  timeline st' = timeline st ++ [x] -> stops st' = stops st ++ new ->
  te_start x = global_minute st -> global_minute st < global_minute st' ->
  Forall (fun s => se_global_minute s = global_minute st) new ->
  is_driving x = false -> fuel_block new x = false ->
  miles_since_fuel st' = miles_since_fuel st ->
  Gauge st'.
Proof.
  intros G Et Es Hx Hg Hn Hd Hf Hm.
  assert (Hold : fuel_block (stops st) x = false).
  { apply fuel_block_elsewhere. eapply Forall_impl; [| exact (gauge_stops _ G)].
    cbv beta. intros s Hs. lia. }
  eapply Gauge_step; eauto.
  - unfold odometer_step. now rewrite Es, fuel_block_app, Hold, Hf, Hd.
  - intros S. unfold is_driving in Hd. rewrite S in Hd. discriminate.
  - rewrite Hf. discriminate.
Qed.

Lemma Gauge_insert_reset (st : DriverState) :
  Gauge st -> Gauge (_insert_reset st).
Proof.
  intros G. eapply Gauge_idle; try exact G; try reflexivity.
  - cbn. unfold OFF_DUTY_RESET. lia.
  - repeat constructor.
Qed.

Lemma Gauge_insert_break (st : DriverState) (label : string) :
  Gauge st -> Gauge (_insert_break st label).
Proof.
  intros G. eapply Gauge_idle; try exact G; try reflexivity.
  - cbn. unfold BREAK_DURATION. lia.
  - repeat constructor.
Qed.

Lemma Gauge_insert_on_duty_stop (st : DriverState) (d : Z) (kind : StopKind)
    (label : string) (lat lng : float) :
  0 < d -> StopKind_eqb kind FUEL = false ->
  Gauge st -> Gauge (_insert_on_duty_stop st d kind label lat lng).
Proof.
  intros Hd Hk G. unfold _insert_on_duty_stop.
  set (s1 := if _ <? d then _insert_reset st else st).
  assert (G1 : Gauge s1).
  { unfold s1. destruct (_ <? d); [now apply Gauge_insert_reset | exact G]. }
  eapply Gauge_idle; try exact G1; try reflexivity.
  - cbn. lia.
  - repeat constructor.
  - unfold fuel_block. cbn. now rewrite Hk.
Qed.

Lemma Gauge_insert_fuel_stop (st : DriverState) (label : string) :
  leb (lit FUEL_INTERVAL_MILES) (miles_since_fuel st) = true ->
  Gauge st -> Gauge (_insert_fuel_stop st label).
Proof.
  intros Hf G. eapply Gauge_step; try exact G; try reflexivity.
  - cbn. unfold FUEL_DURATION. lia.
  - repeat constructor.
  - cbn [miles_since_fuel stops timeline _insert_fuel_stop].
    unfold odometer_step. rewrite fuel_block_app.
    replace (fuel_block [_] _) with true; [now rewrite orb_true_r |].
    unfold fuel_block. cbn. now rewrite Z.eqb_refl.
  - discriminate.
  - intros _. exact Hf.
Qed.

Lemma Gauge_fill_last_day (st : DriverState) :
  Gauge st -> Gauge (fill_last_day st).
Proof.
  intros G. unfold fill_last_day.
  assert (Hmod := Z.mod_pos_bound (global_minute st) MINUTES_IN_DAY eq_refl).
  destruct (0 <? global_minute st mod MINUTES_IN_DAY) eqn:E; [| exact G].
  apply Z.ltb_lt in E.
  eapply Gauge_idle with (new := []); try exact G; try reflexivity.
  - cbn [stops]. now rewrite app_nil_r.
  - cbn [global_minute]. lia.
  - constructor.
Qed.

(** A pass of the leg loop keeps the gauge: it drives below the fuel
    interval only, and stops for fuel at or above it only. *)
Lemma Gauge_body (st : DriverState) (label : string) (rm : float)
    (rmin : Z) (st' : DriverState) (rm' : float) (rmin' : Z) :
  0 < rmin -> Gauge st ->
  drive_leg_body st label rm rmin = Ok (LoopNext st' rm' rmin') ->
  Gauge st'.
Proof.
  intros Hm G H. unfold drive_leg_body in H.
  destruct (Z.max 0 (CYCLE_LIMIT - cycle_minutes st) <=? 0) eqn:Ec;
    [discriminate |].
  apply Z.leb_gt in Ec.
  destruct ((Z.max 0 (WINDOW_LIMIT - on_duty_minutes st) <=? 0)
            || (Z.max 0 (DRIVE_LIMIT - drive_minutes st) <=? 0)) eqn:Er.
  { injection H as <- <- <-. now apply Gauge_insert_reset. }
  apply orb_false_elim in Er. destruct Er as (Ew & Ed).
  apply Z.leb_gt in Ew, Ed.
  destruct (BREAK_TRIGGER <=? cumulative_drive st) eqn:Eb.
  { injection H as <- <- <-. now apply Gauge_insert_break. }
  apply Z.leb_gt in Eb.
  destruct (leb (lit FUEL_INTERVAL_MILES) (miles_since_fuel st)) eqn:Ef.
  { injection H as <- <- <-. now apply Gauge_insert_fuel_stop. }
  inv_bind H.
  apply drivable_chunk_bounds in Ha; try lia.
  unfold drive_chunk in H. inv_bind H. injection H as <- <- <-.
  eapply Gauge_step with (new := []); try exact G; try reflexivity.
  - cbn [stops]. now rewrite app_nil_r.
  - cbn [global_minute]. lia.
  - constructor.
  - cbn [miles_since_fuel stops]. unfold odometer_step.
    rewrite fuel_block_elsewhere; [reflexivity |].
    eapply Forall_impl; [| exact (gauge_stops _ G)].
    cbv beta. cbn [te_start]. intros s Hs. lia.
  - intros _. exact Ef.
  - discriminate.
Qed.

Lemma Gauge_drive_leg (st st' : DriverState) (miles : float) (minutes : Z)
    (label : string) :
  Gauge st -> _drive_leg st miles minutes label = Ok st' -> Gauge st'.
Proof.
  unfold _drive_leg. generalize (leg_passes minutes) as passes.
  intros passes. revert st miles minutes.
  induction passes as [| n IH]; intros st rm rmin G H;
    cbn [drive_leg_loop] in H;
    destruct (Z.ltb_spec 0 rmin) as [Hm | Hm]; try discriminate;
    try (injection H as <-; exact G).
  inv_bind H. destruct a as [| st1 rm1 rmin1].
  - injection H as <-. exact G.
  - eapply IH; [| exact H]. eapply Gauge_body; eauto.
Qed.

Section PlanGauge.

Variables (today : date) (total_miles : float) (total_drive_minutes : Z)
  (cycle_used_hours : float) (pickup_label dropoff_label : string)
  (pickup_coords dropoff_coords : float * float) (start_date : option date)
  (leg1_miles : option float) (leg1_minutes : option Z)
  (leg2_miles : option float) (leg2_minutes : option Z).

(** X21.  Fuel every thousand miles, as the engine counts them.  With
    the odometer read off the plan (the float sum, in order, of the
    miles of the DRIVING blocks since the last fuel block), every
    DRIVING block starts with the odometer below [FUEL_INTERVAL_MILES],
    and every fuel block starts with the odometer at or above it: no
    fuel stop is inserted before it is due, and none is skipped. *)
Theorem X21_fuel_every_thousand_miles (p : Plan) :
  compute_plan today total_miles total_drive_minutes cycle_used_hours
    pickup_label dropoff_label pickup_coords dropoff_coords start_date
    leg1_miles leg1_minutes leg2_miles leg2_minutes = Ok p ->
  forall pre e post,
    plan_timeline p = pre ++ e :: post ->
    (te_status e = DRIVING ->
     leb (lit FUEL_INTERVAL_MILES) (odometer (plan_stops p) pre) = false)
    /\ (fuel_block (plan_stops p) e = true ->
        leb (lit FUEL_INTERVAL_MILES) (odometer (plan_stops p) pre) = true).
Proof.
  intros H. apply compute_plan_run in H.
  destruct H as (legs & st0 & st1 & st2 & [Hi _ E1 E2 Ht Hs _ _ _]).
  assert (G : Gauge (fill_last_day (at_dropoff dropoff_label dropoff_coords st2))).
  { apply Gauge_fill_last_day.
    apply Gauge_insert_on_duty_stop; [reflexivity | reflexivity |].
    eapply Gauge_drive_leg; [| exact E2].
    apply Gauge_insert_on_duty_stop; [reflexivity | reflexivity |].
    eapply Gauge_drive_leg; [| exact E1].
    unfold initial_state in Hi. inv_bind Hi. apply Ok_inj in Hi. subst st0.
    split; [reflexivity | apply every_event_nil | constructor | constructor]. }
  rewrite Ht, Hs. exact (gauge_rule _ G).
Qed.

End PlanGauge.

Lemma X21_witness :
  exists p,
    long_haul = Ok p
    /\ forall pre e post,
         plan_timeline p = pre ++ e :: post ->
         (te_status e = DRIVING ->
          leb (lit FUEL_INTERVAL_MILES) (odometer (plan_stops p) pre) = false)
         /\ (fuel_block (plan_stops p) e = true ->
             leb (lit FUEL_INTERVAL_MILES) (odometer (plan_stops p) pre)
             = true).
Proof.
  eexists. split.
  - vm_compute. reflexivity.
  - apply (X21_fuel_every_thousand_miles 739252 (lit 2504) 3489 (lit 0)
             "Pickup" "Dropoff" (zero, zero) (zero, zero) (Some 739403)
             None None None None).
    vm_compute. reflexivity.
Defined.

(** ** Completion, when the legs are given *)


(** A cycle that runs out does not by itself leave the trip incomplete:
    at 67.5 hours, legs of 200 and 200 minutes for a total of 100 are
    cut after 150 minutes, and the trip is reported complete. *)
Lemma cycle_ran_out_yet_completed :
  exists p,
    compute_plan 739252 (lit 400) 100 (decimal 675 10) "Pickup" "Dropoff"
      (zero, zero) (zero, zero) (Some 739252)
      (Some (lit 200)) (Some 200) (Some (lit 200)) (Some 200) = Ok p
    /\ driven_minutes (plan_timeline p) = 150
    /\ CYCLE_LIMIT <= 4050 + duty_minutes (plan_timeline p)
    /\ trip_completed p = true.
Proof.
  eexists. split; [vm_compute; reflexivity |].
  repeat split; vm_compute; first [reflexivity | discriminate].
Qed.


